(** * WeSolve backend: users matched to problems with a role

    A shallow embedding of the Express application (the route handlers,
    [isUuid], [requireAuth]) and of the relational schema of [setup.sql],
    followed by the properties of the request/response contract.

    Layout:
    - [Js]   : the JavaScript values and built-ins the handlers use;
    - [Pg]   : the three tables with their constraints, and the PostgREST
               queries the handlers issue through the Supabase client;
    - [App]  : the route handlers and the routes, parameterised by the
               JWT library, the signing secret and the query engine;
    - the vocabulary of the properties, a small JWT library and sample
      stores to instantiate them;
    - the properties, route by route.

    Conventions.  A [string] is a JavaScript string whose code units are
    all below 256, one character per code unit: every header as Node hands
    it over (it decodes header bytes as latin1), and the texts of a query
    string, a body or a column within that range.  White space and line
    terminators are those of ECMAScript in that range (TAB, LF, VT, FF,
    CR, SP and the no-break space U+00A0).  Letter case is that of the
    letters A to Z, which is all the two regular expressions of the source
    fold; [toUpperCase] and the store's [ILIKE] fold more letters than
    these, and every property that goes through them is stated for ASCII
    text.  A [timestamptz] is kept as an instant in [Z].  A number is a
    double: [NaN], an infinity, or the rational a finite double denotes,
    and [Number] rounds a literal to the nearest double; the two zeros are
    not told apart (no handler can tell them apart either: a limit of
    [-0] is sent as [0]).  The order in which the store returns rows that
    are equal in the column of an [ORDER BY] is left to the engine.  The
    store answers every statement: failures of the connection are not
    modelled, the errors of the statements themselves (constraints,
    ill-formed queries) are. *)

From Stdlib Require Import String Ascii List ZArith QArith Bool Lia.
From Stdlib Require Import Sorted Permutation.
From Stdlib Require DecimalString DecimalNat Qcanon Qpower.
Import ListNotations.

Set Warnings "-register-all".

Local Open Scope string_scope.
Local Open Scope list_scope.

(* ===================================================================== *)
(** ** JavaScript values and built-ins *)
(* ===================================================================== *)

Module Js.

(** *** Characters *)

Definition code (c : ascii) : nat := nat_of_ascii c.

Definition in_range (lo hi : nat) (c : ascii) : bool :=
  (lo <=? code c)%nat && (code c <=? hi)%nat.

Definition is_digit (c : ascii) : bool := in_range 48 57 c.
Definition is_upper (c : ascii) : bool := in_range 65 90 c.
Definition is_lower (c : ascii) : bool := in_range 97 122 c.

(** [LineTerminator] of ECMAScript below 256: LF and CR (the other two,
    U+2028 and U+2029, lie above). *)
Definition is_line_terminator (c : ascii) : bool :=
  (code c =? 10)%nat || (code c =? 13)%nat.

(** [WhiteSpace] and [LineTerminator] of ECMAScript below 256, which is
    what [\s], [trim] and [Number] skip: TAB, LF, VT, FF, CR, SP and the
    no-break space U+00A0. *)
Definition is_space (c : ascii) : bool :=
  in_range 9 13 c || (code c =? 32)%nat || (code c =? 160)%nat.

Definition upper_char (c : ascii) : ascii :=
  if is_lower c then ascii_of_nat (code c - 32) else c.

Definition lower_char (c : ascii) : ascii :=
  if is_upper c then ascii_of_nat (code c + 32) else c.

(** *** Strings *)

Definition chars (s : string) : list ascii := list_ascii_of_string s.
Definition str (l : list ascii) : string := string_of_list_ascii l.

Fixpoint drop_while (p : ascii -> bool) (l : list ascii) : list ascii :=
  match l with
  | [] => []
  | c :: l' => if p c then drop_while p l' else l
  end.

(** [String.prototype.trim] *)
Definition trim (s : string) : string :=
  str (rev (drop_while is_space (rev (drop_while is_space (chars s))))).

(** [String.prototype.toUpperCase] on ASCII text, where it maps [a] to [z]
    onto [A] to [Z] and nothing else.  On other text the built-in maps
    more (accented letters, and some characters to ASCII letters): the
    properties that go through it take ASCII text. *)
Definition toUpperCase (s : string) : string := str (map upper_char (chars s)).

(** The folding of [A] to [Z] onto [a] to [z]: the letters a regular
    expression of ASCII letters with the flag [i] folds, and the ones the
    input conversion of a uuid folds. *)
Definition toLowerCase (s : string) : string := str (map lower_char (chars s)).

(** Equality up to letter case, as a regular expression with the [i] flag
    or a case-insensitive comparison sees it. *)
Definition ci_eqb (a b : string) : bool := String.eqb (toLowerCase a) (toLowerCase b).

(** *** Character classes of the regular expressions in the source *)

(** [[0-9a-f]] under the [i] flag *)
Definition hex_i (c : ascii) : bool :=
  is_digit c || in_range 97 102 (lower_char c).

(** [[1-5]] *)
Definition ver_1_5 (c : ascii) : bool := in_range 49 53 c.

(** [[89ab]] under the [i] flag *)
Definition var_89ab (c : ascii) : bool :=
  in_range 56 57 c || in_range 97 98 (lower_char c).

Definition dash (c : ascii) : bool := (code c =? 45)%nat.

(** A regular expression that is a fixed sequence of character classes
    between [^] and [$]: the subject matches when it has exactly one
    character per class. *)
Fixpoint match_classes (p : list (ascii -> bool)) (l : list ascii) : bool :=
  match p, l with
  | [], [] => true
  | k :: p', c :: l' => k c && match_classes p' l'
  | _, _ => false
  end.

(** [/^[0-9a-f]{8}-[0-9a-f]{4}-[1-5][0-9a-f]{3}-[89ab][0-9a-f]{3}-[0-9a-f]{12}$/i] *)
Definition uuid_regex : list (ascii -> bool) :=
  repeat hex_i 8 ++ [dash] ++
  repeat hex_i 4 ++ [dash] ++
  [ver_1_5] ++ repeat hex_i 3 ++ [dash] ++
  [var_89ab] ++ repeat hex_i 3 ++ [dash] ++
  repeat hex_i 12.

(** *** Numbers *)

(** A JavaScript number: [NaN], the two infinities, or a finite double,
    kept as the rational it denotes, in lowest terms. *)
Inductive jsnum : Type :=
| NaN
| PInf
| NInf
| Fin (q : Q).

(** An integer constant of the source (all are far below [2 ^ 53], where
    every integer is a double). *)
Definition of_Z (z : Z) : jsnum := Fin (inject_Z z).

(** The integer nearest to [n / d], for [0 < d]; a tie goes to the even
    neighbour. *)
Definition round_half_even (n d : Z) : Z :=
  let f := (n / d)%Z in
  let r := (2 * (n mod d))%Z in
  if (r <? d)%Z then f
  else if (d <? r)%Z then (f + 1)%Z
  else if Z.even f then f else (f + 1)%Z.

Definition nearest (q : Q) : Z := round_half_even (Qnum q) (Zpos (Qden q)).

(** [floor (log2 |q|)], for [q] other than zero. *)
Definition binade (q : Q) : Z :=
  let e := (Z.log2 (Z.abs (Qnum q)) - Z.log2 (Zpos (Qden q)))%Z in
  if Qle_bool (2 ^ e) (Z.abs (Qnum q) # Qden q) then e else (e - 1)%Z.

(** The Number value of a real (IEEE 754 binary64, round to nearest, ties
    to even): the multiple of the spacing of the doubles around [q] that
    is nearest to [q]; the spacing is [2 ^ (e - 52)] in the binade [e] and
    [2 ^ -1074] below the normal range; a result of magnitude [2 ^ 1024]
    is an infinity. *)
Definition to_double (q : Q) : jsnum :=
  if Qeq_bool q 0 then Fin 0
  else
    let e := Z.max (binade q) (-1022) in
    let ulp := (2 ^ (e - 52))%Q in
    let v := inject_Z (nearest (q / ulp)) * ulp in
    if Qle_bool (2 ^ 1024) v then PInf
    else if Qle_bool v (- 2 ^ 1024) then NInf
    else Fin (Qred v).

Definition neg (n : jsnum) : jsnum :=
  match n with
  | NaN => NaN
  | PInf => NInf
  | NInf => PInf
  | Fin q => Fin (Qred (- q))
  end.

(** [Math.min] of two arguments: [NaN] if either is [NaN]. *)
Definition Math_min (a b : jsnum) : jsnum :=
  match a, b with
  | NaN, _ | _, NaN => NaN
  | NInf, _ | _, NInf => NInf
  | PInf, x | x, PInf => x
  | Fin p, Fin q => if Qle_bool p q then Fin p else Fin q
  end.

(** *** StringToNumber (ECMAScript StringNumericLiteral)

    The literal is read to the real it denotes, which [to_double] then
    rounds. *)

Fixpoint span (p : ascii -> bool) (l : list ascii) : list ascii * list ascii :=
  match l with
  | [] => ([], [])
  | c :: l' =>
      if p c then let (a, b) := span p l' in (c :: a, b) else ([], l)
  end.

Definition is_hex (c : ascii) : bool := hex_i c.
Definition is_octal (c : ascii) : bool := in_range 48 55 c.
Definition is_binary (c : ascii) : bool := in_range 48 49 c.

Definition digit_value (c : ascii) : Z :=
  if is_digit c then Z.of_nat (code c - 48)
  else Z.of_nat (code (lower_char c) - 87).

Definition radix_value (radix : Z) (ds : list ascii) : Z :=
  fold_left (fun acc c => acc * radix + digit_value c)%Z ds 0%Z.

Definition pow10 (e : Z) : Q :=
  if (0 <=? e)%Z then inject_Z (10 ^ e) else / inject_Z (10 ^ (- e)).

Definition is_char (x : ascii) (c : ascii) : bool := Ascii.eqb x c.

(** [ExponentPart_opt] followed by the end of the literal. *)
Definition exponent_part (l : list ascii) : option Z :=
  match l with
  | [] => Some 0%Z
  | e :: r =>
      if is_char "e" e || is_char "E" e then
        let (sgn, r') :=
          match r with
          | s :: r'' =>
              if is_char "-" s then ((-1)%Z, r'')
              else if is_char "+" s then (1%Z, r'')
              else (1%Z, r)
          | [] => (1%Z, r)
          end in
        let (ds, rest) := span is_digit r' in
        match ds, rest with
        | _ :: _, [] => Some (sgn * radix_value 10 ds)%Z
        | _, _ => None
        end
      else None
  end.

(** [StrUnsignedDecimalLiteral] *)
Definition unsigned_decimal (l : list ascii) : option jsnum :=
  if String.eqb (str l) "Infinity" then Some PInf
  else
    let (ip, r1) := span is_digit l in
    let '(dot, fp, r2) :=
      match r1 with
      | d :: r =>
          if is_char "." d then let (f, r') := span is_digit r in (true, f, r')
          else (false, [], r1)
      | [] => (false, [], r1)
      end in
    match ip, fp with
    | [], [] => None
    | _, _ =>
        match exponent_part r2 with
        | Some e =>
            let k := Z.of_nat (length fp) in
            let m := (radix_value 10 ip * 10 ^ k + radix_value 10 fp)%Z in
            Some (to_double (inject_Z m * pow10 (e - k)))
        | None => None
        end
    end.

(** [StrDecimalLiteral]: an optional sign, then the unsigned literal. *)
Definition str_decimal (l : list ascii) : option jsnum :=
  match l with
  | s :: r =>
      if is_char "-" s then option_map neg (unsigned_decimal r)
      else if is_char "+" s then unsigned_decimal r
      else unsigned_decimal l
  | [] => None
  end.

(** [NonDecimalIntegerLiteral]: [0x], [0o], [0b] in either case, unsigned. *)
Definition non_decimal (l : list ascii) : option jsnum :=
  match l with
  | z :: x :: (_ :: _) as ds =>
      if is_char "0" z then
        if is_char "x" (lower_char x) then
          if forallb is_hex ds
          then Some (to_double (inject_Z (radix_value 16 ds))) else None
        else if is_char "o" (lower_char x) then
          if forallb is_octal ds
          then Some (to_double (inject_Z (radix_value 8 ds))) else None
        else if is_char "b" (lower_char x) then
          if forallb is_binary ds
          then Some (to_double (inject_Z (radix_value 2 ds))) else None
        else None
      else None
  | _ => None
  end.

(** [Number(s)] for a string: surrounding white space is dropped, the
    empty string is [0], anything that is not a literal is [NaN]. *)
Definition StringToNumber (s : string) : jsnum :=
  let l := chars (trim s) in
  match l with
  | [] => of_Z 0
  | _ =>
      match non_decimal l with
      | Some n => n
      | None =>
          match str_decimal l with
          | Some n => n
          | None => NaN
          end
      end
  end.

(** *** Query-string values ([req.query.x] when present)

    Express hands over what [qs] parsed: a string, an array, or a nested
    object. *)
Inductive qval : Type :=
| QStr (s : string)
| QArr (items : list qval)
| QObj (fields : list (string * qval)).

(** [ToString]: arrays join their elements with a comma, a plain object
    prints as [[object Object]]. *)
Fixpoint qToString (v : qval) : string :=
  match v with
  | QStr s => s
  | QArr items =>
      (fix join (l : list qval) : string :=
         match l with
         | [] => ""
         | x :: l' =>
             match l' with
             | [] => qToString x
             | _ :: _ => (qToString x ++ "," ++ join l')%string
             end
         end) items
  | QObj _ => "[object Object]"
  end.

(** [Number(v)] for a value of the query string. *)
Definition Number (v : qval) : jsnum := StringToNumber (qToString v).

(** [typeof v === 'string' ? v : fallback], on an optional query value. *)
Definition string_or (v : option qval) (fallback : string) (f : string -> string) : string :=
  match v with
  | Some (QStr s) => f s
  | _ => fallback
  end.

(** *** JSON values (request bodies, token payloads, response bodies) *)

Inductive jsval : Type :=
| JUndefined
| JNull
| JBool (b : bool)
| JNum (n : jsnum)
| JStr (s : string)
| JTime (t : Z)          (* a timestamptz as the store serialises it *)
| JArr (items : list jsval)
| JObj (fields : list (string * jsval))
| JFun.                  (* a function value, e.g. an inherited method *)

Fixpoint assoc {A} (k : string) (l : list (string * A)) : option A :=
  match l with
  | [] => None
  | (k', v) :: l' => if String.eqb k k' then Some v else assoc k l'
  end.

(** Methods every string inherits, among the property names the handlers
    read ([userId], [role], [sub]). *)
Definition string_prototype : list string := ["sub"].

(** [v?.k] *)
Definition get (k : string) (v : jsval) : jsval :=
  match v with
  | JObj fields =>
      match assoc k fields with
      | Some x => x
      | None => JUndefined
      end
  | JStr _ | JTime _ =>
      if existsb (String.eqb k) string_prototype then JFun else JUndefined
  | _ => JUndefined
  end.

Definition truthy (v : jsval) : bool :=
  match v with
  | JUndefined | JNull => false
  | JBool b => b
  | JNum NaN => false
  | JNum (Fin q) => negb (Qeq_bool q 0)
  | JNum _ => true
  | JStr s => negb (String.eqb s "")
  | JTime _ | JArr _ | JObj _ | JFun => true
  end.

(** A value already known to be a string (TypeScript's [v is string]). *)
Definition as_string (v : jsval) : string :=
  match v with
  | JStr s => s
  | _ => ""
  end.

(** [v === 'literal'] *)
Definition strict_eq (v : jsval) (literal : string) : bool :=
  match v with
  | JStr s => String.eqb s literal
  | _ => false
  end.

(** [o ?? null] on an optional string. *)
Definition opt_str (o : option string) : jsval :=
  match o with
  | Some s => JStr s
  | None => JNull
  end.

End Js.

(* ===================================================================== *)
(** ** The relational store: schema of [setup.sql], queries of PostgREST *)
(* ===================================================================== *)

Module Pg.
Import Js.

(** *** Tables *)

Record user_row : Type := {
  users_id : string;                       (* uuid primary key *)
  users_display_name : option string;      (* text *)
  users_created_at : Z                     (* timestamptz not null *)
}.

Record problem_row : Type := {
  problems_id : string;                    (* uuid primary key *)
  problems_title : string;
  problems_description : string;
  problems_category : string;
  problems_location : string;
  problems_country_code : option string;   (* text, nullable *)
  problems_created_at : Z
}.

Record match_row : Type := {
  pm_id : string;                          (* uuid primary key *)
  pm_user_id : string;                     (* references users (id) *)
  pm_problem_id : string;                  (* references problems (id) *)
  pm_role : string;                        (* check (role in ('SOLVER','AFFECTED')) *)
  pm_created_at : Z
}.

Record db : Type := {
  users : list user_row;
  problems : list problem_row;
  problem_matches : list match_row
}.

(** *** Column values *)

Inductive pgtype : Type := TText | TUuid | TTimestamptz.

Inductive pgval : Type :=
| PgNull
| PgText (s : string)
| PgUuid (s : string)
| PgTime (t : Z).

Definition opt_text (o : option string) : pgval :=
  match o with
  | Some s => PgText s
  | None => PgNull
  end.

(** Input conversion of the [uuid] type on the canonical 8-4-4-4-12
    spelling (the only one [isUuid] lets through): hexadecimal digits are
    folded to lower case, so two spellings of one uuid are equal. *)
Definition uuid_in (s : string) : string := toLowerCase s.

(** A table as the query layer sees it: its columns with their types and
    the cell of a row in a column. *)
Record table (A : Type) : Type := {
  columns : list (string * pgtype);
  cell : A -> string -> pgval
}.
Arguments columns {A}.
Arguments cell {A}.

Definition users_table : table user_row := {|
  columns := [("id", TUuid); ("display_name", TText); ("created_at", TTimestamptz)];
  cell := fun r c =>
    if String.eqb c "id" then PgUuid (users_id r)
    else if String.eqb c "display_name" then opt_text (users_display_name r)
    else if String.eqb c "created_at" then PgTime (users_created_at r)
    else PgNull
|}.

Definition problems_table : table problem_row := {|
  columns := [("id", TUuid); ("title", TText); ("description", TText);
              ("category", TText); ("location", TText);
              ("country_code", TText); ("created_at", TTimestamptz)];
  cell := fun r c =>
    if String.eqb c "id" then PgUuid (problems_id r)
    else if String.eqb c "title" then PgText (problems_title r)
    else if String.eqb c "description" then PgText (problems_description r)
    else if String.eqb c "category" then PgText (problems_category r)
    else if String.eqb c "location" then PgText (problems_location r)
    else if String.eqb c "country_code" then opt_text (problems_country_code r)
    else if String.eqb c "created_at" then PgTime (problems_created_at r)
    else PgNull
|}.

Definition problem_matches_table : table match_row := {|
  columns := [("id", TUuid); ("user_id", TUuid); ("problem_id", TUuid);
              ("role", TText); ("created_at", TTimestamptz)];
  cell := fun r c =>
    if String.eqb c "id" then PgUuid (pm_id r)
    else if String.eqb c "user_id" then PgUuid (pm_user_id r)
    else if String.eqb c "problem_id" then PgUuid (pm_problem_id r)
    else if String.eqb c "role" then PgText (pm_role r)
    else if String.eqb c "created_at" then PgTime (pm_created_at r)
    else PgNull
|}.

(** *** Pattern matching: [LIKE] and [ILIKE]

    [%] stands for any run of characters, [_] for any one character, and a
    backslash makes the next character literal. *)
Fixpoint like (p s : list ascii) : bool :=
  match p with
  | [] => match s with [] => true | _ :: _ => false end
  | c :: p' =>
      if is_char "%" c then
        (fix any (s : list ascii) : bool :=
           like p' s || match s with [] => false | _ :: s' => any s' end) s
      else if is_char "_" c then
        match s with [] => false | _ :: s' => like p' s' end
      else if is_char "\" c then
        match p' with
        | [] => false
        | e :: p'' =>
            match s with
            | [] => false
            | x :: s' => Ascii.eqb e x && like p'' s'
            end
        end
      else
        match s with
        | [] => false
        | x :: s' => Ascii.eqb c x && like p' s'
        end
  end.

(** A pattern must not end with the escape character. *)
Fixpoint pattern_ok (p : list ascii) : bool :=
  match p with
  | [] => true
  | c :: p' =>
      if is_char "\" c then
        match p' with
        | [] => false
        | _ :: p'' => pattern_ok p''
        end
      else pattern_ok p'
  end.

(** PostgREST reads [*] in a pattern as [%]. *)
Definition star (p : string) : list ascii :=
  map (fun c => if is_char "*" c then "%"%char else c) (chars p).

(** [ILIKE] for a pattern of ASCII characters: the letters [A] to [Z] are
    folded on both sides.  How the store folds a pattern letter outside
    ASCII depends on the locale of the database and is not modelled. *)
Definition ilike (pattern subject : string) : bool :=
  like (map lower_char (star pattern)) (map lower_char (chars subject)).

(** *** Queries *)

Definition result (A : Type) : Type := (string + A)%type.

Inductive filter : Type :=
| Eq (column value : string)        (* [.eq(column, value)] *)
| Ilike (column pattern : string)   (* [.ilike(column, pattern)] *)
| Or (tree : string).               (* [.or(tree)] *)

Record query : Type := {
  filters : list filter;
  order : option (string * bool);     (* column, ascending *)
  limit : option jsnum
}.

Definition from : query := {| filters := []; order := None; limit := None |}.

Definition where_ (f : filter) (q : query) : query :=
  {| filters := filters q ++ [f]; order := order q; limit := limit q |}.

Definition eq_ (column value : string) : query -> query := where_ (Eq column value).
Definition ilike_ (column pattern : string) : query -> query := where_ (Ilike column pattern).
Definition or_ (tree : string) : query -> query := where_ (Or tree).

Definition order_by (column : string) (ascending : bool) (q : query) : query :=
  {| filters := filters q; order := Some (column, ascending); limit := limit q |}.

Definition limit_to (n : jsnum) (q : query) : query :=
  {| filters := filters q; order := order q; limit := Some n |}.

(** Three behaviours of the store are left open, as parameters of every
    statement:
    - [logic]: PostgREST's reading of the text handed to [or]; [None]
      when the text does not parse, otherwise the condition it denotes on
      a row (given as its cells);
    - [odd_limit]: what PostgREST makes of a limit that is not a natural
      number; an error, no limit at all, or some count;
    - [tie]: the order PostgreSQL gives to two rows (given as their
      cells) that are equal in the column of an [ORDER BY], which SQL
      leaves unspecified: whether the first is returned before the
      second. *)
Record engine : Type := {
  logic : string -> option ((string -> pgval) -> bool);
  odd_limit : jsnum -> result (option nat);
  tie : (string -> pgval) -> (string -> pgval) -> bool
}.

Section Select.

Context {A : Type} (T : table A).

Variable E : engine.

(** Checked once per statement, whatever the rows. *)
Definition filter_ok (f : filter) : bool :=
  match f with
  | Eq c _ =>
      match assoc c (columns T) with
      | Some TText | Some TUuid => true
      | _ => false
      end
  | Ilike c p =>
      match assoc c (columns T) with
      | Some TText => pattern_ok (star p)
      | _ => false
      end
  | Or tree =>
      match logic E tree with
      | Some _ => true
      | None => false
      end
  end.

Definition holds (r : A) (f : filter) : bool :=
  match f with
  | Eq c v =>
      match cell T r c with
      | PgText s => String.eqb s v
      | PgUuid u => String.eqb u (uuid_in v)
      | _ => false
      end
  | Ilike c p =>
      match cell T r c with
      | PgText s => ilike p s
      | _ => false
      end
  | Or tree =>
      match logic E tree with
      | Some cond => cond (cell T r)
      | None => false
      end
  end.

Definition holds_all (fs : list filter) (r : A) : bool := forallb (holds r) fs.

Definition time_of (c : string) (r : A) : Z :=
  match cell T r c with
  | PgTime t => t
  | _ => 0%Z
  end.

(** Insertion of a row in front of the first row it may precede. *)
Fixpoint insert_by (before : A -> A -> bool) (x : A) (l : list A) : list A :=
  match l with
  | [] => [x]
  | y :: l' => if before x y then x :: l else y :: insert_by before x l'
  end.

Definition sort_by (before : A -> A -> bool) (l : list A) : list A :=
  fold_right (insert_by before) [] l.

(** [ORDER BY c ASC|DESC] on a [timestamptz] column: [x] comes before
    [y] when its instant says so and, among rows with equal instants,
    when the engine says so. *)
Definition order_rows (o : option (string * bool)) (rows : list A) : option (list A) :=
  match o with
  | None => Some rows
  | Some (c, ascending) =>
      match assoc c (columns T) with
      | Some TTimestamptz =>
          Some (sort_by
                  (fun x y =>
                     (if ascending
                      then (time_of c x <? time_of c y)%Z
                      else (time_of c y <? time_of c x)%Z)
                     || ((time_of c x =? time_of c y)%Z
                         && tie E (cell T x) (cell T y)))
                  rows)
      | _ => None
      end
  end.

(** A limit that is a natural number keeps that many leading rows. *)
Definition as_count (n : jsnum) : option nat :=
  match n with
  | Fin q =>
      if Qeq_bool q (inject_Z (Qnum q / Zpos (Qden q))) && (0 <=? Qnum q)%Z
      then Some (Z.to_nat (Qnum q / Zpos (Qden q)))
      else None
  | _ => None
  end.

Definition limit_rows (l : option jsnum) (rows : list A) : result (list A) :=
  match l with
  | None => inr rows
  | Some n =>
      match as_count n with
      | Some k => inr (firstn k rows)
      | None =>
          match odd_limit E n with
          | inl e => inl e
          | inr None => inr rows
          | inr (Some k) => inr (firstn k rows)
          end
      end
  end.

Definition select (q : query) (rows : list A) : result (list A) :=
  if forallb filter_ok (filters q) then
    match order_rows (order q) (List.filter (holds_all (filters q)) rows) with
    | Some sorted => limit_rows (limit q) sorted
    | None => inl "order"
    end
  else inl "filter".

(** [.maybeSingle()]: no row, or the only row. *)
Definition maybeSingle (r : result (list A)) : result (option A) :=
  match r with
  | inl e => inl e
  | inr [] => inr None
  | inr [x] => inr (Some x)
  | inr (_ :: _ :: _) => inl "multiple rows returned"
  end.

(** [.delete()] with filters: the rows that are left. *)
Definition delete (q : query) (rows : list A) : result (list A) :=
  if forallb filter_ok (filters q)
  then inr (List.filter (fun r => negb (holds_all (filters q) r)) rows)
  else inl "filter".

End Select.

(** [.single()]: exactly one row. *)
Definition single {A} (r : result (list A)) : result A :=
  match r with
  | inl e => inl e
  | inr [x] => inr x
  | inr _ => inl "no single row returned"
  end.

(** *** Constraints of [problem_matches] and the statements that write it *)

Definition role_check (role : string) : bool :=
  String.eqb role "SOLVER" || String.eqb role "AFFECTED".

Definition user_exists (d : db) (u : string) : bool :=
  existsb (fun r => String.eqb (users_id r) u) (users d).

Definition problem_exists (d : db) (p : string) : bool :=
  existsb (fun r => String.eqb (problems_id r) p) (problems d).

Definition same_pair (u p : string) (r : match_row) : bool :=
  String.eqb (pm_user_id r) u && String.eqb (pm_problem_id r) p.

Definition set_role (role : string) (r : match_row) : match_row :=
  {| pm_id := pm_id r; pm_user_id := pm_user_id r;
     pm_problem_id := pm_problem_id r; pm_role := role;
     pm_created_at := pm_created_at r |}.

Definition with_matches (d : db) (rows : list match_row) : db :=
  {| users := users d; problems := problems d; problem_matches := rows |}.

(** [.upsert({user_id, problem_id, role}, {onConflict: 'user_id,problem_id'})]:
    [INSERT ... ON CONFLICT (user_id, problem_id) DO UPDATE] assigning the
    columns of the payload.  A new row takes the defaults of the other
    columns ([gen_random_uuid()], [now()]); a row in conflict keeps them.
    The statement fails, changing nothing, when the check on [role] or a
    foreign key is violated.  The rows written are returned. *)
Definition upsert (now : Z) (gen_random_uuid : string)
    (user_id problem_id role : string) (d : db) : result (db * list match_row) :=
  let u := uuid_in user_id in
  let p := uuid_in problem_id in
  if negb (role_check role) then
    inl "violates check constraint problem_matches_role_check"
  else if negb (user_exists d u) then
    inl "violates foreign key constraint problem_matches_user_id_fkey"
  else if negb (problem_exists d p) then
    inl "violates foreign key constraint problem_matches_problem_id_fkey"
  else if existsb (same_pair u p) (problem_matches d) then
    let rows :=
      map (fun r => if same_pair u p r then set_role role r else r)
          (problem_matches d) in
    inr (with_matches d rows, List.filter (same_pair u p) rows)
  else
    let r := {| pm_id := gen_random_uuid; pm_user_id := u; pm_problem_id := p;
                pm_role := role; pm_created_at := now |} in
    inr (with_matches d (problem_matches d ++ [r]), [r]).

(** *** Embedded resources of a select *)

(** [users (id, display_name)] on a match: the referenced user, if any. *)
Definition embed_user (d : db) (m : match_row) : option user_row :=
  find (fun u => String.eqb (users_id u) (pm_user_id m)) (users d).

(** [problems (...)] on a match: the referenced problem, if any. *)
Definition embed_problem (d : db) (m : match_row) : option problem_row :=
  find (fun p => String.eqb (problems_id p) (pm_problem_id m)) (problems d).

(** [problem_matches(count)] on a problem: one aggregate row. *)
Definition embed_count (d : db) (p : problem_row) : list nat :=
  [length (List.filter (fun m => String.eqb (pm_problem_id m) (problems_id p))
                       (problem_matches d))].

End Pg.

(* ===================================================================== *)
(** ** The application *)
(* ===================================================================== *)

Record request : Type := {
  params_id : string;                  (* [req.params.id] *)
  query : string -> option Js.qval; (* [req.query.x] *)
  body : Js.jsval;                     (* [req.body] *)
  authorization : option string;       (* [req.header('authorization')] *)
  userId : option string               (* [(req as any).userId] *)
}.

Record response : Type := {
  status : nat;
  payload : Js.jsval
}.

(** What the world supplies while a request is served. *)
Record tick : Type := {
  now : Z;                    (* the clock, in seconds *)
  gen_random_uuid : string    (* the next store-generated uuid *)
}.

Module App.
Import Js.

(** [res.json(x)] and [res.status(c).json(x)] *)
Definition json (x : jsval) : response := {| status := 200; payload := x |}.
Definition status_json (c : nat) (x : jsval) : response := {| status := c; payload := x |}.
Definition error (c : nat) (message : string) : response :=
  status_json c (JObj [("error", JStr message)]).

Definition isUuid (v : jsval) : bool :=
  match v with
  | JStr s => match_classes uuid_regex (chars s)
  | _ => false
  end.

(** [header.match(/^Bearer\s+(.+)$/i)]: the capture, when the header
    matches.  [\s+] takes the longest run of white space that still leaves
    a character for [.+], and [.] is any character but a line
    terminator. *)
Definition match_bearer (header : string) : option string :=
  let l := chars header in
  if ci_eqb (str (firstn 6 l)) "Bearer" then
    let (ws, rest) := span is_space (skipn 6 l) in
    match ws, rest with
    | [], _ => None
    | _ :: _, _ :: _ =>
        if existsb is_line_terminator rest then None else Some (str rest)
    | _ :: _, [] =>
        match rev ws with
        | c :: _ :: _ => if is_line_terminator c then None else Some (str [c])
        | _ => None
        end
    end
  else None.

Definition user_json (u : Pg.user_row) : jsval :=
  JObj [("id", JStr (Pg.users_id u));
        ("display_name", opt_str (Pg.users_display_name u));
        ("created_at", JTime (Pg.users_created_at u))].

Definition problem_fields (p : Pg.problem_row) : list (string * jsval) :=
  [("id", JStr (Pg.problems_id p));
   ("title", JStr (Pg.problems_title p));
   ("description", JStr (Pg.problems_description p));
   ("category", JStr (Pg.problems_category p));
   ("location", JStr (Pg.problems_location p));
   ("country_code", opt_str (Pg.problems_country_code p));
   ("created_at", JTime (Pg.problems_created_at p))].

Definition match_json (m : Pg.match_row) : jsval :=
  JObj [("id", JStr (Pg.pm_id m));
        ("user_id", JStr (Pg.pm_user_id m));
        ("problem_id", JStr (Pg.pm_problem_id m));
        ("role", JStr (Pg.pm_role m));
        ("created_at", JTime (Pg.pm_created_at m))].

Definition nonempty (s : string) : bool := negb (String.eqb s "").

Section Handlers.

(** [jsonwebtoken]: [sign(payload, secret, {expiresIn}] at a given time,
    and [verify(token, secret)] at a given time, [None] when it throws. *)
Variable jwt_sign : jsval -> string -> string -> Z -> string.
Variable jwt_verify : string -> string -> Z -> option jsval.

(** The store's query engine. *)
Variable postgrest : Pg.engine.

(** [process.env.JWT_SECRET] *)
Variable JWT_SECRET : string.

Definition with_userId (req : request) (sub : string) : request :=
  {| params_id := params_id req; query := query req; body := body req;
     authorization := authorization req; userId := Some sub |}.

Definition requireAuth {X} (req : request) (t : tick)
    (res : response -> X) (next : request -> X) : X :=
  let header := match authorization req with Some h => h | None => "" end in
  match match_bearer header with
  | None => res (error 401 "Missing Authorization: Bearer <token>")
  | Some token =>
      match jwt_verify token JWT_SECRET (now t) with
      | Some payload =>
          if negb (truthy (get "sub" payload)) || negb (isUuid (get "sub" payload))
          then res (error 401 "Invalid token payload")
          else next (with_userId req (as_string (get "sub" payload)))
      | None => res (error 401 "Invalid or expired token")
      end
  end.

Definition getUserId (req : request) : string :=
  match userId req with
  | Some s => s
  | None => ""
  end.

Definition select_user (d : Pg.db) (id : string) : Pg.result (option Pg.user_row) :=
  Pg.maybeSingle
    (Pg.select Pg.users_table postgrest (Pg.eq_ "id" id Pg.from) (Pg.users d)).

(** [POST /login] *)
Definition post_login (req : request) (t : tick) (d : Pg.db) : response :=
  let userId := get "userId" (body req) in
  if negb (isUuid userId) then error 400 "userId must be a uuid"
  else
    match select_user d (as_string userId) with
    | inl message => error 500 message
    | inr None => error 404 "User not found"
    | inr (Some user) =>
        let token :=
          jwt_sign (JObj [("sub", userId); ("typ", JStr "access")])
                   JWT_SECRET "30d" (now t) in
        json (JObj [("token", JStr token); ("user", user_json user)])
    end.

(** [GET /me], behind [requireAuth] *)
Definition get_me (req : request) (d : Pg.db) : response :=
  let userId := getUserId req in
  match select_user d userId with
  | inl message => error 500 message
  | inr None => error 404 "User not found"
  | inr (Some user) => json (JObj [("user", user_json user)])
  end.

(** [GET /users] *)
Definition get_users (d : Pg.db) : response :=
  match Pg.select Pg.users_table postgrest
          (Pg.limit_to (of_Z 500) (Pg.order_by "created_at" false Pg.from))
          (Pg.users d) with
  | inl message => error 500 message
  | inr data => json (JObj [("items", JArr (map user_json data))])
  end.

(** [GET /problems] *)
Definition problems_query (req : request) : Pg.query :=
  let search := string_or (query req "search") "" trim in
  let category := string_or (query req "category") "" trim in
  let location := string_or (query req "location") "" trim in
  let country := string_or (query req "country_code") ""
                           (fun s => toUpperCase (trim s)) in
  let q := Pg.limit_to (of_Z 200) (Pg.order_by "created_at" false Pg.from) in
  let q := if nonempty category then Pg.eq_ "category" category q else q in
  let q := if nonempty country then Pg.eq_ "country_code" country q else q in
  let q := if nonempty location
           then Pg.ilike_ "location" ("%" ++ location ++ "%") q else q in
  let q := if nonempty search
           then Pg.or_ ("title.ilike.%" ++ search ++ "%,description.ilike.%"
                        ++ search ++ "%") q
           else q in
  q.

Definition problem_item (p : Pg.problem_row * list nat) : jsval :=
  let collaboratorCount :=
    match snd p with
    | count :: _ => of_Z (Z.of_nat count)
    | [] => of_Z 0
    end in
  JObj (problem_fields (fst p) ++ [("collaboratorCount", JNum collaboratorCount)]).

Definition get_problems (req : request) (d : Pg.db) : response :=
  match Pg.select Pg.problems_table postgrest (problems_query req) (Pg.problems d) with
  | inl message => error 500 message
  | inr data =>
      let data := map (fun p => (p, Pg.embed_count d p)) data in
      json (JObj [("items", JArr (map problem_item data))])
  end.

(** [POST /problems/:id/match], behind [requireAuth] *)
Definition post_problems_id_match (req : request) (t : tick) (d : Pg.db)
    : response * Pg.db :=
  let problemId := params_id req in
  let userId := getUserId req in
  if negb (isUuid (JStr problemId)) then (error 400 "problem id must be a uuid", d)
  else
    let role := get "role" (body req) in
    if negb (strict_eq role "SOLVER") && negb (strict_eq role "AFFECTED")
    then (error 400 "role must be SOLVER or AFFECTED", d)
    else
      match Pg.maybeSingle
              (Pg.select Pg.problems_table postgrest (Pg.eq_ "id" problemId Pg.from)
                         (Pg.problems d)) with
      | inl message => (error 500 message, d)
      | inr None => (error 404 "Problem not found", d)
      | inr (Some _) =>
          match Pg.upsert (now t) (gen_random_uuid t) userId problemId
                          (as_string role) d with
          | inl message => (error 500 message, d)
          | inr (d', rows) =>
              match Pg.single (inr rows) with
              | inl message => (error 500 message, d')
              | inr data =>
                  (json (JObj [("ok", JBool true); ("match", match_json data)]), d')
              end
          end
      end.

(** [DELETE /problems/:id/match], behind [requireAuth] *)
Definition delete_problems_id_match (req : request) (d : Pg.db) : response * Pg.db :=
  let problemId := params_id req in
  let userId := getUserId req in
  if negb (isUuid (JStr problemId)) then (error 400 "problem id must be a uuid", d)
  else
    match Pg.delete Pg.problem_matches_table postgrest
            (Pg.eq_ "problem_id" problemId (Pg.eq_ "user_id" userId Pg.from))
            (Pg.problem_matches d) with
    | inl message => (error 500 message, d)
    | inr rows => (json (JObj [("ok", JBool true)]), Pg.with_matches d rows)
    end.

(** [GET /problems/:id/users] *)
Definition roleFilter (req : request) : option string :=
  let role := string_or (query req "role") "" (fun s => toUpperCase (trim s)) in
  if String.eqb role "SOLVER" || String.eqb role "AFFECTED" then Some role else None.

Definition collaborators_query (req : request) : Pg.query :=
  let q := Pg.limit_to (of_Z 500)
             (Pg.order_by "created_at" false
                (Pg.eq_ "problem_id" (params_id req) Pg.from)) in
  match roleFilter req with
  | Some role => Pg.eq_ "role" role q
  | None => q
  end.

Definition collaborator_item (r : Pg.match_row * option Pg.user_row) : jsval :=
  let user :=
    match snd r with
    | Some u => JObj [("id", JStr (Pg.users_id u));
                      ("display_name", opt_str (Pg.users_display_name u))]
    | None => JObj [("id", JNull); ("display_name", JNull)]
    end in
  JObj [("user", user);
        ("role", JStr (Pg.pm_role (fst r)));
        ("matched_at", JTime (Pg.pm_created_at (fst r)))].

Definition get_problems_id_users (req : request) (d : Pg.db) : response :=
  let problemId := params_id req in
  if negb (isUuid (JStr problemId)) then error 400 "problem id must be a uuid"
  else
    match Pg.select Pg.problem_matches_table postgrest (collaborators_query req)
            (Pg.problem_matches d) with
    | inl message => error 500 message
    | inr data =>
        let data := map (fun m => (m, Pg.embed_user d m)) data in
        json (JObj [("problemId", JStr problemId);
                    ("items", JArr (map collaborator_item data))])
    end.

(** [GET /me/matches], behind [requireAuth] *)
Definition matches_limit (req : request) : jsnum :=
  Math_min (match query req "limit" with
            | Some v => Number v
            | None => of_Z 200
            end)
           (of_Z 500).

Definition my_matches_query (req : request) : Pg.query :=
  Pg.limit_to (matches_limit req)
    (Pg.order_by "created_at" false
       (Pg.eq_ "user_id" (getUserId req) Pg.from)).

Definition resolves (r : Pg.match_row * option Pg.problem_row) : bool :=
  match snd r with
  | Some _ => true
  | None => false
  end.

Definition my_match_item (r : Pg.match_row * option Pg.problem_row) : jsval :=
  JObj [("role", JStr (Pg.pm_role (fst r)));
        ("matched_at", JTime (Pg.pm_created_at (fst r)));
        ("problem", match snd r with
                    | Some p => JObj (problem_fields p)
                    | None => JUndefined
                    end)].

Definition get_me_matches (req : request) (d : Pg.db) : response :=
  match Pg.select Pg.problem_matches_table postgrest (my_matches_query req)
          (Pg.problem_matches d) with
  | inl message => error 500 message
  | inr data =>
      let data := map (fun m => (m, Pg.embed_problem d m)) data in
      json (JObj [("items", JArr (map my_match_item (List.filter resolves data)))])
  end.

(** *** Routes: the handlers behind their middleware *)

Inductive route : Type :=
| GET_health
| POST_login
| GET_me
| GET_users
| GET_problems
| POST_problems_id_match
| DELETE_problems_id_match
| GET_problems_id_users
| GET_me_matches.

Definition serve (r : route) (req : request) (t : tick) (d : Pg.db)
    : response * Pg.db :=
  match r with
  | GET_health => (json (JObj [("ok", JBool true)]), d)
  | POST_login => (post_login req t d, d)
  | GET_me => (requireAuth req t (fun res => res) (fun req => get_me req d), d)
  | GET_users => (get_users d, d)
  | GET_problems => (get_problems req d, d)
  | POST_problems_id_match =>
      requireAuth req t (fun res => (res, d))
                  (fun req => post_problems_id_match req t d)
  | DELETE_problems_id_match =>
      requireAuth req t (fun res => (res, d))
                  (fun req => delete_problems_id_match req d)
  | GET_problems_id_users => (get_problems_id_users req d, d)
  | GET_me_matches =>
      (requireAuth req t (fun res => res) (fun req => get_me_matches req d), d)
  end.

(** The store after a sequence of requests, served one after another. *)
Fixpoint run (trace : list (route * request * tick)) (d : Pg.db) : Pg.db :=
  match trace with
  | [] => d
  | (r, req, t) :: trace' => run trace' (snd (serve r req t d))
  end.

End Handlers.

End App.

(* ===================================================================== *)
(** ** Vocabulary of the properties *)
(* ===================================================================== *)

Import Js.

(** Thirty days, in seconds: the lifetime [expiresIn: '30d'] asks for. *)
Definition thirty_days : Z := 30 * 24 * 3600.

(** The claims [POST /login] signs. *)
Definition access_claims (sub : string) : jsval :=
  JObj [("sub", JStr sub); ("typ", JStr "access")].

(** A token that [Bearer <token>] carries unchanged: not empty, free of
    white space (a compact JWT is base64url text and dots). *)
Definition compact (token : string) : bool :=
  App.nonempty token && negb (existsb is_space (chars token)).

(** *** The uuid pattern, in words

    Five groups of 8, 4, 4, 4 and 12 hexadecimal digits (either case)
    separated by dashes; the third group starts with the version, 1 to 5,
    and the fourth with the RFC 4122 variant, one of 8, 9, a, b. *)

Definition hex_digit (c : ascii) : Prop := In c (chars "0123456789abcdefABCDEF").

Definition rfc4122_v1_5 (s : string) : Prop :=
  exists (a b c d e : list ascii) (version variant : ascii),
    chars s = a ++ "-"%char :: b ++ "-"%char :: (version :: c)
                ++ "-"%char :: (variant :: d) ++ "-"%char :: e
    /\ length a = 8%nat /\ length b = 4%nat /\ length c = 3%nat
    /\ length d = 3%nat /\ length e = 12%nat
    /\ Forall hex_digit (a ++ b ++ c ++ d ++ e)
    /\ In version (chars "12345")
    /\ In variant (chars "89abAB").

(** *** Constraints of the schema on a store *)

(** [unique (user_id, problem_id)]: at most one row per pair. *)
Definition unique_pairs (d : Pg.db) : Prop :=
  forall u p : string,
    (length (filter (Pg.same_pair u p) (Pg.problem_matches d)) <= 1)%nat.

(** [check (role in ('SOLVER', 'AFFECTED'))] *)
Definition roles_checked (d : Pg.db) : Prop :=
  Forall (fun m => Pg.pm_role m = "SOLVER" \/ Pg.pm_role m = "AFFECTED")
         (Pg.problem_matches d).

Definition match_invariant (d : Pg.db) : Prop :=
  unique_pairs d /\ roles_checked d.

(** Primary keys of [users] and [problems]. *)
Definition users_pkey (d : Pg.db) : Prop :=
  forall id : string,
    (length (filter (fun u => String.eqb (Pg.users_id u) id) (Pg.users d)) <= 1)%nat.

Definition problems_pkey (d : Pg.db) : Prop :=
  forall id : string,
    (length (filter (fun p => String.eqb (Pg.problems_id p) id) (Pg.problems d)) <= 1)%nat.

(** [problem_id ... references problems (id)] *)
Definition problem_fkey (d : Pg.db) : Prop :=
  Forall (fun m => Pg.problem_exists d (Pg.pm_problem_id m) = true)
         (Pg.problem_matches d).

(** The rows of one user, of one problem, of one pair. *)
Definition matches_of_user (d : Pg.db) (u : string) : list Pg.match_row :=
  filter (fun m => String.eqb (Pg.pm_user_id m) (Pg.uuid_in u)) (Pg.problem_matches d).

Definition matches_of_problem (d : Pg.db) (p : string) : list Pg.match_row :=
  filter (fun m => String.eqb (Pg.pm_problem_id m) (Pg.uuid_in p)) (Pg.problem_matches d).

Definition matches_of_pair (d : Pg.db) (u p : string) : list Pg.match_row :=
  filter (Pg.same_pair (Pg.uuid_in u) (Pg.uuid_in p)) (Pg.problem_matches d).

(** [ORDER BY created_at DESC] on the rows of a table, as an engine
    returns them. *)
Definition newest {A} (T : Pg.table A) (created_at : A -> Z) (E : Pg.engine)
    (rows : list A) : list A :=
  Pg.sort_by (fun x y => (created_at y <? created_at x)%Z
                         || ((created_at x =? created_at y)%Z
                             && Pg.tie E (Pg.cell T x) (Pg.cell T y)))
             rows.

Definition by_recency : Pg.engine -> list Pg.match_row -> list Pg.match_row :=
  newest Pg.problem_matches_table Pg.pm_created_at.

(** A match row with the problem it refers to, as the store embeds it. *)
Definition with_problem (d : Pg.db) (m : Pg.match_row)
    : Pg.match_row * option Pg.problem_row :=
  (m, Pg.embed_problem d m).

(** A match row with the user it refers to, as the store embeds it. *)
Definition with_user (d : Pg.db) (m : Pg.match_row)
    : Pg.match_row * option Pg.user_row :=
  (m, Pg.embed_user d m).

(** The rows [GET /problems/:id/users] selects from: those of the
    problem, restricted to a role when one is asked for. *)
Definition collaborators (d : Pg.db) (p : string) (role : option string)
    : list Pg.match_row :=
  filter (fun m => match role with
                   | Some r => String.eqb (Pg.pm_role m) r
                   | None => true
                   end)
         (matches_of_problem d p).


(** The role filter as a comparison of the raw parameter, letter case
    aside, with the two role names. *)
Definition role_filter_by_case_only (req : request) (s : string) : Prop :=
  query req "role" = Some (QStr s) ->
  App.roleFilter req
  = (if ci_eqb s "SOLVER" then Some "SOLVER"
     else if ci_eqb s "AFFECTED" then Some "AFFECTED"
     else None).

(** Most recent first. *)
Definition newest_first (rows : list Pg.match_row) : Prop :=
  StronglySorted (fun a b => (Pg.pm_created_at b <= Pg.pm_created_at a)%Z) rows.

(** *** Substrings, for the search filters *)

Fixpoint is_prefix (a b : list ascii) : bool :=
  match a, b with
  | [], _ => true
  | x :: a', y :: b' => Ascii.eqb x y && is_prefix a' b'
  | _ :: _, [] => false
  end.

Fixpoint is_substring (a b : list ascii) : bool :=
  is_prefix a b ||
  match b with
  | [] => false
  | _ :: b' => is_substring a b'
  end.

(** [needle] occurs in [subject], letter case aside. *)
Definition ci_contains (subject needle : string) : bool :=
  is_substring (map lower_char (chars needle)) (map lower_char (chars subject)).

(** The characters a pattern handed to [ilike] does not take literally. *)
Definition is_meta (c : ascii) : bool :=
  is_char "%" c || is_char "_" c || is_char "\" c || is_char "*" c.

(** Case analysis on the 256 characters. *)
Ltac each_char c := destruct c as [[] [] [] [] [] [] [] []].

(** *** ASCII text *)

Definition ascii_text (s : string) : bool :=
  forallb (fun c => (code c <? 128)%nat) (chars s).

(** A query parameter that, when it is a string, is ASCII text. *)
Definition ascii_param (v : option qval) : bool :=
  match v with
  | Some (QStr s) => ascii_text s
  | _ => true
  end.


(** *** Records and answers, as a client reads them

    Written out field by field, independently of the handlers. *)

(** The identity record: id, display name (null when there is none),
    creation time. *)
Definition identity_record (u : Pg.user_row) : jsval :=
  JObj [("id", JStr (Pg.users_id u));
        ("display_name", match Pg.users_display_name u with
                         | Some name => JStr name
                         | None => JNull
                         end);
        ("created_at", JTime (Pg.users_created_at u))].

(** The full problem record. *)
Definition problem_record (p : Pg.problem_row) : jsval :=
  JObj [("id", JStr (Pg.problems_id p));
        ("title", JStr (Pg.problems_title p));
        ("description", JStr (Pg.problems_description p));
        ("category", JStr (Pg.problems_category p));
        ("location", JStr (Pg.problems_location p));
        ("country_code", match Pg.problems_country_code p with
                         | Some c => JStr c
                         | None => JNull
                         end);
        ("created_at", JTime (Pg.problems_created_at p))].

(** A problem record annotated with the number of match rows that
    refer to the problem. *)
Definition problem_entry (d : Pg.db) (p : Pg.problem_row) : jsval :=
  JObj [("id", JStr (Pg.problems_id p));
        ("title", JStr (Pg.problems_title p));
        ("description", JStr (Pg.problems_description p));
        ("category", JStr (Pg.problems_category p));
        ("location", JStr (Pg.problems_location p));
        ("country_code", match Pg.problems_country_code p with
                         | Some c => JStr c
                         | None => JNull
                         end);
        ("created_at", JTime (Pg.problems_created_at p));
        ("collaboratorCount",
         JNum (of_Z (Z.of_nat
                       (length (filter (fun m => String.eqb (Pg.pm_problem_id m)
                                                            (Pg.problems_id p))
                                       (Pg.problem_matches d))))))].

(** The match row. *)
Definition match_record (m : Pg.match_row) : jsval :=
  JObj [("id", JStr (Pg.pm_id m));
        ("user_id", JStr (Pg.pm_user_id m));
        ("problem_id", JStr (Pg.pm_problem_id m));
        ("role", JStr (Pg.pm_role m));
        ("created_at", JTime (Pg.pm_created_at m))].

(** An item of [GET /me/matches]: a match row joined with the full
    record of its problem. *)
Definition my_match_entry (r : Pg.match_row * Pg.problem_row) : jsval :=
  JObj [("role", JStr (Pg.pm_role (fst r)));
        ("matched_at", JTime (Pg.pm_created_at (fst r)));
        ("problem", problem_record (snd r))].

(** An item of [GET /problems/:id/users]: a match row joined with the
    id and display name of its user, both null when there is no such
    user. *)
Definition collaborator_entry (r : Pg.match_row * option Pg.user_row) : jsval :=
  JObj [("user",
         JObj [("id", match snd r with
                      | Some u => JStr (Pg.users_id u)
                      | None => JNull
                      end);
               ("display_name", match snd r with
                                | Some u => match Pg.users_display_name u with
                                            | Some name => JStr name
                                            | None => JNull
                                            end
                                | None => JNull
                                end)]);
        ("role", JStr (Pg.pm_role (fst r)));
        ("matched_at", JTime (Pg.pm_created_at (fst r)))].

(** A match row and a problem it refers to; a match row and the user it
    refers to, or the absence of such a user. *)
Definition refers_to_problem (d : Pg.db) (r : Pg.match_row * Pg.problem_row) : Prop :=
  In (snd r) (Pg.problems d) /\ Pg.problems_id (snd r) = Pg.pm_problem_id (fst r).

Definition refers_to_user (d : Pg.db) (r : Pg.match_row * option Pg.user_row)
    : Prop :=
  match snd r with
  | Some u => In u (Pg.users d) /\ Pg.users_id u = Pg.pm_user_id (fst r)
  | None => forall u, In u (Pg.users d) -> Pg.users_id u <> Pg.pm_user_id (fst r)
  end.

(** *** Requests *)

Definition no_query : string -> option qval := fun _ => None.

Definition one_query (k : string) (v : qval) : string -> option qval :=
  fun x => if String.eqb x k then Some v else None.

Definition bare_request : request :=
  {| params_id := ""; query := no_query; body := JObj [];
     authorization := None; userId := None |}.

Definition with_body (b : jsval) (req : request) : request :=
  {| params_id := params_id req; query := query req; body := b;
     authorization := authorization req; userId := userId req |}.

Definition with_query (q : string -> option qval) (req : request) : request :=
  {| params_id := params_id req; query := q; body := body req;
     authorization := authorization req; userId := userId req |}.

Definition with_id (id : string) (req : request) : request :=
  {| params_id := id; query := query req; body := body req;
     authorization := authorization req; userId := userId req |}.

Definition with_bearer (token : string) (req : request) : request :=
  {| params_id := params_id req; query := query req; body := body req;
     authorization := Some ("Bearer " ++ token)%string; userId := userId req |}.

Definition as_user (u : string) (req : request) : request :=
  {| params_id := params_id req; query := query req; body := body req;
     authorization := authorization req; userId := Some u |}.

Definition role_body (role : string) : jsval := JObj [("role", JStr role)].

(** *** A small JWT library satisfying the contract assumed of
    [jsonwebtoken], used to instantiate the statements below *)

Module ToyJwt.

Fixpoint bits (p : positive) : list ascii :=
  match p with
  | xH => []
  | xO p' => "0"%char :: bits p'
  | xI p' => "1"%char :: bits p'
  end.

Fixpoint unbits (l : list ascii) : option positive :=
  match l with
  | [] => Some xH
  | c :: l' =>
      if is_char "0" c then option_map xO (unbits l')
      else if is_char "1" c then option_map xI (unbits l')
      else None
  end.

Definition encode (z : Z) : list ascii :=
  match z with
  | Z0 => ["z"%char]
  | Zpos p => "p"%char :: bits p
  | Zneg p => "n"%char :: bits p
  end.

Definition decode (l : list ascii) : option Z :=
  match l with
  | c :: l' =>
      if is_char "z" c then match l' with [] => Some 0%Z | _ => None end
      else if is_char "p" c then option_map Zpos (unbits l')
      else if is_char "n" c then option_map Zneg (unbits l')
      else None
  | [] => None
  end.

Definition not_dot (c : ascii) : bool := negb (is_char "." c).

Definition sign (claims : jsval) (secret expiresIn : string) (now : Z) : string :=
  str (chars (as_string (get "sub" claims)) ++ "."%char :: encode (now + thirty_days)).

Definition verify (token secret : string) (now : Z) : option jsval :=
  let (sub, rest) := span not_dot (chars token) in
  match rest with
  | _ :: e =>
      match decode e with
      | Some exp =>
          if (now <? exp)%Z
          then Some (JObj [("sub", JStr (str sub)); ("typ", JStr "access");
                           ("exp", JNum (of_Z exp))])
          else None
      | None => None
      end
  | [] => None
  end.

Definition secret : string := "s3cret".

End ToyJwt.

(** A character that is neither white space nor a dot. *)
Definition plain_char (c : ascii) : Prop :=
  is_space c = false /\ ToyJwt.not_dot c = true.

(** *** A small store *)

Module Sample.

Definition U1 : string := "11111111-1111-4111-8111-111111111111".
Definition U2 : string := "22222222-2222-4222-9222-222222222222".
Definition P1 : string := "aaaaaaaa-aaaa-4aaa-8aaa-aaaaaaaaaaaa".
Definition P2 : string := "bbbbbbbb-bbbb-4bbb-8bbb-bbbbbbbbbbbb".
Definition user1 : Pg.user_row :=
  {| Pg.users_id := U1; Pg.users_display_name := Some "Alex 01"; Pg.users_created_at := 10 |}.
Definition user2 : Pg.user_row :=
  {| Pg.users_id := U2; Pg.users_display_name := None; Pg.users_created_at := 11 |}.
Definition problem1 : Pg.problem_row :=
  {| Pg.problems_id := P1; Pg.problems_title := "Food waste in cities";
     Pg.problems_description := "Redistribute surplus edible food from shops to communities.";
     Pg.problems_category := "Sustainability"; Pg.problems_location := "Paris, FR";
     Pg.problems_country_code := Some "FR"; Pg.problems_created_at := 20 |}.
Definition problem2 : Pg.problem_row :=
  {| Pg.problems_id := P2; Pg.problems_title := "Noise at night";
     Pg.problems_description := "Traffic noise keeps residents awake.";
     Pg.problems_category := "Health"; Pg.problems_location := "New York, US";
     Pg.problems_country_code := Some "US"; Pg.problems_created_at := 21 |}.

Definition a_match (id u p role : string) (t : Z) : Pg.match_row :=
  {| Pg.pm_id := id; Pg.pm_user_id := u; Pg.pm_problem_id := p;
     Pg.pm_role := role; Pg.pm_created_at := t |}.

Definition store0 : Pg.db :=
  {| Pg.users := [user1; user2]; Pg.problems := [problem1; problem2];
     Pg.problem_matches := [] |}.

Definition engine : Pg.engine :=
  {| Pg.logic := fun _ => None; Pg.odd_limit := fun _ => inl "limit";
     Pg.tie := fun _ _ => false |}.

Definition at_ (t : Z) (id : string) : tick := {| now := t; gen_random_uuid := id |}.

(** Seven problems, all matched by user 1. *)
Definition P3 : string := "cccccccc-cccc-4ccc-8ccc-cccccccccccc".
Definition P4 : string := "dddddddd-dddd-4ddd-8ddd-dddddddddddd".
Definition P5 : string := "eeeeeeee-eeee-4eee-8eee-eeeeeeeeeeee".
Definition P6 : string := "ffffffff-ffff-4fff-8fff-ffffffffffff".
Definition P7 : string := "12345678-1234-4234-8234-123456789abc".

Definition a_problem (id title : string) (t : Z) : Pg.problem_row :=
  {| Pg.problems_id := id; Pg.problems_title := title;
     Pg.problems_description := "-"; Pg.problems_category := "Health";
     Pg.problems_location := "Lima, PE"; Pg.problems_country_code := Some "PE";
     Pg.problems_created_at := t |}.

Definition store7 : Pg.db :=
  {| Pg.users := [user1; user2];
     Pg.problems := [problem1; problem2; a_problem P3 "three" 22;
                     a_problem P4 "four" 23; a_problem P5 "five" 24;
                     a_problem P6 "six" 25; a_problem P7 "seven" 26];
     Pg.problem_matches :=
       [a_match "m1" U1 P1 "SOLVER" 105; a_match "m2" U1 P2 "AFFECTED" 101;
        a_match "m3" U1 P3 "SOLVER" 107; a_match "m4" U1 P4 "SOLVER" 102;
        a_match "m5" U1 P5 "AFFECTED" 106; a_match "m6" U1 P6 "SOLVER" 103;
        a_match "m7" U1 P7 "SOLVER" 104; a_match "m8" U2 P1 "AFFECTED" 108] |}.

(** [GET /problems?location=New_York] *)
Definition underscore_request : request :=
  with_query (one_query "location" (QStr "New_York")) bare_request.

(** [GET /problems/<P1>/users?role=%20solver] *)
Definition padded_role_request : request :=
  with_query (one_query "role" (QStr " solver")) (with_id P1 bare_request).

(** A store whose foreign keys have been broken from outside: one match
    row names a user that is gone, another a problem that is gone. *)
Definition U9 : string := "99999999-9999-4999-8999-999999999999".
Definition P9 : string := "98989898-9898-4898-8898-989898989898".

Definition store_orphans : Pg.db :=
  {| Pg.users := [user1; user2];
     Pg.problems := [problem1; problem2];
     Pg.problem_matches :=
       [a_match "m1" U1 P1 "SOLVER" 100; a_match "m2" U2 P1 "AFFECTED" 110;
        a_match "m3" U9 P1 "SOLVER" 120; a_match "m4" U1 P9 "SOLVER" 130] |}.

(** User 1 logs in, matches problem 1 as SOLVER, then as AFFECTED, then
    removes the match. *)
Definition token1 : string := ToyJwt.sign (access_claims U1) ToyJwt.secret "30d" 100.

Definition match_request (role : string) : request :=
  with_id P1 (with_body (role_body role) (with_bearer token1 bare_request)).

Definition trace0 : list (App.route * request * tick) :=
  [(App.POST_login, with_body (JObj [("userId", JStr U1)]) bare_request, at_ 100 "");
   (App.POST_problems_id_match, match_request "SOLVER", at_ 110 "m1");
   (App.POST_problems_id_match, match_request "AFFECTED", at_ 120 "m2");
   (App.DELETE_problems_id_match, with_id P1 (with_bearer token1 bare_request), at_ 130 "")].

End Sample.


(* ===================================================================== *)
(** ** The seeding script *)
(* ===================================================================== *)

Module Seed.

(** *** [xorshift32]

    The state is a 32-bit integer; it is kept here as the unsigned word
    with the same bits, which is also the numerator [x >>> 0] of the
    value a call returns.  The division by [0xffffffff] is floating-point
    arithmetic and is left out. *)

Definition word : Z := 2 ^ 32.

(** [seed | 0], for an integer seed. *)
Definition to_word (seed : Z) : Z := (seed mod word)%Z.

(** One call of the closure: the new state. *)
Definition next (x : Z) : Z :=
  let x := (Z.lxor x (Z.shiftl x 13) mod word)%Z in
  let x := Z.lxor x (Z.shiftr x 17) in
  let x := (Z.lxor x (Z.shiftl x 5) mod word)%Z in
  x.

(** The state after [n] calls of [xorshift32(seed)]. *)
Fixpoint state_after (n : nat) (seed : Z) : Z :=
  match n with
  | O => to_word seed
  | S n' => next (state_after n' seed)
  end.

(** *** [shuffle]

    An array is a list of slots, an empty slot reading as [undefined].
    [Math.floor(rnd() * (i + 1))] is floating-point arithmetic: the index
    it yields at step [i] is the parameter [j_at i]. *)

(** [a[i]] *)
Definition at_index {A} (a : list (option A)) (i : nat) : option A :=
  nth i a None.

(** [a[i] = v]: past the end, the array grows and the gap stays empty. *)
Fixpoint set_index {A} (a : list (option A)) (i : nat) (v : option A)
    : list (option A) :=
  match a, i with
  | [], O => [v]
  | [], S i' => None :: set_index [] i' v
  | _ :: a', O => v :: a'
  | x :: a', S i' => x :: set_index a' i' v
  end.

(** [[a[i], a[j]] = [a[j], a[i]]] *)
Definition swap {A} (i j : nat) (a : list (option A)) : list (option A) :=
  let ai := at_index a i in
  let aj := at_index a j in
  set_index (set_index a i aj) j ai.

Section Shuffle.

Context {A : Type}.
Variable j_at : nat -> nat.

(** [for (let i = a.length - 1; i > 0; i--)], from [i] down. *)
Fixpoint shuffle_from (i : nat) (a : list (option A)) : list (option A) :=
  match i with
  | O => a
  | S i' => shuffle_from i' (swap i (j_at i) a)
  end.

Definition shuffle (arr : list A) : list (option A) :=
  shuffle_from (length arr - 1) (map Some arr).

End Shuffle.

(** *** [insertMatches] *)

Record UserInserted : Type := {
  user_id : string;
  user_display_name : option string
}.

Record ProblemInserted : Type := {
  problem_id : string;
  problem_title : string;
  problem_country_code : option string
}.

Record match_values : Type := {
  row_user_id : string;
  row_problem_id : string;
  row_role : string
}.

(** [`${u.id}:${p.id}`] *)
Definition key (u : UserInserted) (p : ProblemInserted) : string :=
  (user_id u ++ ":" ++ problem_id p)%string.

(** [used.has(key)] *)
Definition has (used : list string) (k : string) : bool :=
  existsb (String.eqb k) used.

Section InsertMatches.

(** What depends on [rnd]: the problems chosen for the user at a position
    ([shuffle(problems, rnd).slice(0, linkCount)]), and the outcome of
    [rnd() < 0.65] when the row at a position is pushed. *)
Variable chosen_for : nat -> list ProblemInserted.
Variable solver_at : nat -> bool.

(** The body of [for (const p of chosen)] on the pair ([used], [rows]). *)
Definition link (u : UserInserted)
    (acc : list string * list match_values) (p : ProblemInserted)
    : list string * list match_values :=
  let (used, rows) := acc in
  let key := key u p in
  if has used key then acc
  else
    let role := if solver_at (length rows) then "SOLVER" else "AFFECTED" in
    (key :: used,
     rows ++ [{| row_user_id := user_id u; row_problem_id := problem_id p;
                 row_role := role |}]).

(** [for (const u of users)], the user at position [k] first. *)
Fixpoint link_users (k : nat) (users : list UserInserted)
    (acc : list string * list match_values) : list string * list match_values :=
  match users with
  | [] => acc
  | u :: users' => link_users (S k) users' (fold_left (link u) (chosen_for k) acc)
  end.

(** The rows [insertMatches] builds before it inserts them. *)
Definition match_rows (users : list UserInserted) : list match_values :=
  snd (link_users 0 users ([], [])).

End InsertMatches.

(** [rows.slice(i, j)] for [i <= j] *)
Definition slice {A} (i j : nat) (rows : list A) : list A :=
  firstn (j - i) (skipn i rows).

Definition batchSize : nat := 500.

(** [for (let i = 0; i < rows.length; i += batchSize)]: the batches handed
    to [insert], one after the other; [fuel] bounds the number of turns. *)
Fixpoint batches_from {A} (fuel i : nat) (rows : list A) : list (list A) :=
  match fuel with
  | O => []
  | S fuel' =>
      if (i <? length rows)%nat
      then slice i (i + batchSize) rows :: batches_from fuel' (i + batchSize) rows
      else []
  end.

Definition batches {A} (rows : list A) : list (list A) :=
  batches_from (length rows) 0 rows.

End Seed.

(* ===================================================================== *)
(** ** Vocabulary of the further properties *)
(* ===================================================================== *)

(** [user_id ... references users (id)] *)
Definition user_fkey (d : Pg.db) : Prop :=
  Forall (fun m => Pg.user_exists d (Pg.pm_user_id m) = true)
         (Pg.problem_matches d).

(** The routes registered with [requireAuth]. *)
Definition protected (r : App.route) : bool :=
  match r with
  | App.GET_me | App.POST_problems_id_match
  | App.DELETE_problems_id_match | App.GET_me_matches => true
  | _ => false
  end.

(** [req.header('authorization') || ''] *)
Definition header_of (req : request) : string :=
  match authorization req with
  | Some h => h
  | None => ""
  end.


Definition problems_by_recency
    : Pg.engine -> list Pg.problem_row -> list Pg.problem_row :=
  newest Pg.problems_table Pg.problems_created_at.

(** The filters of [GET /problems] other than [search], as conditions on
    a problem: each applies only when its text is not empty. *)
Definition problem_passes (category country location : string)
    (p : Pg.problem_row) : bool :=
  (String.eqb category "" || String.eqb (Pg.problems_category p) category)
  && (String.eqb country ""
      || match Pg.problems_country_code p with
         | Some c => String.eqb c country
         | None => false
         end)
  && (String.eqb location ""
      || ci_contains (Pg.problems_location p) location).

(** The four texts [GET /problems] reads from the query string. *)
Definition search_text (req : request) : string :=
  string_or (query req "search") "" trim.

Definition category_text (req : request) : string :=
  string_or (query req "category") "" trim.

Definition location_text (req : request) : string :=
  string_or (query req "location") "" trim.

Definition country_text (req : request) : string :=
  string_or (query req "country_code") "" (fun s => toUpperCase (trim s)).

(** A problem with the count the store embeds. *)
Definition with_count (d : Pg.db) (p : Pg.problem_row) : Pg.problem_row * list nat :=
  (p, Pg.embed_count d p).

(** The text under which [insertMatches] remembers the pair of a row. *)
Definition row_key (r : Seed.match_values) : string :=
  (Seed.row_user_id r ++ ":" ++ Seed.row_problem_id r)%string.

(** The decimal numeral of a natural number. *)
Definition decimal (n : nat) : string :=
  DecimalString.NilZero.string_of_uint (Nat.to_uint n).

(** One step of a digit-by-digit reading in base ten. *)
Definition read_digit (acc : Z) (c : ascii) : Z := (acc * 10 + digit_value c)%Z.


(* ===================================================================== *)
(** ** Properties *)
(* ===================================================================== *)

(** *** Strings and lists *)

Lemma chars_str (l : list ascii) : chars (str l) = l.
Proof. apply list_ascii_of_string_of_list_ascii. Qed.

Lemma str_chars (s : string) : str (chars s) = s.
Proof. apply string_of_list_ascii_of_string. Qed.

Lemma chars_append (a b : string) : chars (a ++ b)%string = chars a ++ chars b.
Proof.
  induction a as [| c a IH]; simpl; [reflexivity |].
  unfold chars in *. simpl. now rewrite IH.
Qed.

Lemma chars_inj (a b : string) : chars a = chars b -> a = b.
Proof.
  intros H. rewrite <- (str_chars a), <- (str_chars b). now rewrite H.
Qed.

Lemma line_terminator_is_space (c : ascii) :
  is_line_terminator c = true -> is_space c = true.
Proof.
  each_char c; intros H;
    solve [reflexivity | discriminate H].
Qed.

Lemma span_none (p : ascii -> bool) (l : list ascii) :
  existsb p l = false -> span (fun c => negb (p c)) l = (l, []).
Proof.
  induction l as [| c l IH]; simpl; [reflexivity |].
  rewrite orb_false_iff. intros [Hc Hl]. rewrite Hc. simpl. now rewrite IH.
Qed.

Lemma span_stops (p : ascii -> bool) (c : ascii) (l : list ascii) :
  p c = false -> span p (c :: l) = ([], c :: l).
Proof. intros H. simpl. now rewrite H. Qed.

Lemma filter_map_swap {A} (P : A -> bool) (f : A -> A) (l : list A) :
  (forall x, P (f x) = P x) -> filter P (map f l) = map f (filter P l).
Proof.
  intros H. induction l as [| x l IH]; simpl; [reflexivity |].
  rewrite H. destruct (P x); simpl; now rewrite IH.
Qed.

Lemma existsb_filter {A} (P : A -> bool) (l : list A) :
  existsb P l = false -> filter P l = [].
Proof.
  induction l as [| x l IH]; simpl; [reflexivity |].
  rewrite orb_false_iff. intros [Hx Hl]. rewrite Hx. now apply IH.
Qed.

Lemma existsb_filter_cons {A} (P : A -> bool) (l : list A) :
  existsb P l = true -> exists x rest, filter P l = x :: rest.
Proof.
  induction l as [| x l IH]; simpl; [discriminate |].
  destruct (P x) eqn:Hx; simpl; [now eauto | exact IH].
Qed.

Lemma filter_at_most_one {A} (P : A -> bool) (l : list A) :
  (length (filter P l) <= 1)%nat -> existsb P l = true ->
  exists x, filter P l = [x].
Proof.
  intros Hlen Hex. destruct (existsb_filter_cons P l Hex) as (x & rest & Heq).
  rewrite Heq in Hlen. destruct rest; simpl in Hlen; [eauto | lia].
Qed.


Lemma filter_all {A} (P : A -> bool) (l : list A) :
  Forall (fun x => P x = true) l -> filter P l = l.
Proof.
  induction 1 as [| x l Hx _ IH]; simpl; [reflexivity |].
  rewrite Hx. now f_equal.
Qed.


Lemma filter_filter_length {A} (P Q : A -> bool) (l : list A) :
  (length (filter P (filter Q l)) <= length (filter P l))%nat.
Proof.
  induction l as [| x l IH]; simpl; [lia |].
  destruct (Q x), (P x) eqn:Hp; simpl; rewrite ?Hp; simpl; lia.
Qed.

(** *** Ordering of the rows of a select *)

Section Ordering.

Context {A : Type} (key : A -> Z) (tie : A -> A -> bool).

Local Abbreviation before :=
  (fun x y : A => (key y <? key x)%Z || ((key x =? key y)%Z && tie x y)).
Local Abbreviation newer := (fun x y : A => (key y <= key x)%Z).

Lemma insert_by_perm (x : A) (l : list A) :
  Permutation (Pg.insert_by before x l) (x :: l).
Proof.
  induction l as [| y l IH]; simpl; [reflexivity |].
  destruct (before x y); [reflexivity |].
  rewrite IH. apply perm_swap.
Qed.

Lemma sort_by_perm (l : list A) : Permutation (Pg.sort_by before l) l.
Proof.
  induction l as [| x l IH]; simpl; [reflexivity |].
  rewrite insert_by_perm. now constructor.
Qed.

Lemma insert_by_sorted (x : A) (l : list A) :
  StronglySorted newer l -> StronglySorted newer (Pg.insert_by before x l).
Proof.
  induction 1 as [| y l Hs IH Hy]; simpl.
  - repeat constructor.
  - destruct ((key y <? key x)%Z || ((key x =? key y)%Z && tie x y)) eqn:Hc.
    + assert (Hle : (key y <= key x)%Z).
      { apply orb_true_iff in Hc. destruct Hc as [Hc | Hc].
        - apply Z.ltb_lt in Hc. lia.
        - apply andb_true_iff in Hc. destruct Hc as [Hc _].
          apply Z.eqb_eq in Hc. lia. }
      constructor; [now constructor |].
      constructor; [exact Hle |].
      eapply Forall_impl; [| exact Hy]. intros z Hz. simpl in Hz. lia.
    + apply orb_false_iff in Hc. destruct Hc as [Hc _]. apply Z.ltb_ge in Hc.
      constructor; [exact IH |].
      eapply Permutation_Forall; [symmetry; apply insert_by_perm |].
      constructor; [lia | exact Hy].
Qed.

Lemma sort_by_sorted (l : list A) : StronglySorted newer (Pg.sort_by before l).
Proof.
  induction l as [| x l IH]; simpl; [constructor | now apply insert_by_sorted].
Qed.

End Ordering.

(** *** The queries of the handlers, read on the tables *)

Section Store.

Variable E : Pg.engine.

Lemma newest_perm {A} (T : Pg.table A) (created_at : A -> Z) (rows : list A) :
  Permutation (newest T created_at E rows) rows.
Proof. apply (sort_by_perm created_at). Qed.

Lemma newest_sorted {A} (T : Pg.table A) (created_at : A -> Z) (rows : list A) :
  StronglySorted (fun a b => (created_at b <= created_at a)%Z)
                 (newest T created_at E rows).
Proof. apply (sort_by_sorted created_at). Qed.

Lemma by_recency_perm (rows : list Pg.match_row) : Permutation (by_recency E rows) rows.
Proof. apply newest_perm. Qed.

Lemma by_recency_sorted (rows : list Pg.match_row) : newest_first (by_recency E rows).
Proof. apply newest_sorted. Qed.

Lemma select_by_user (uid : string) (l : jsnum) (rows : list Pg.match_row) :
  Pg.select Pg.problem_matches_table E
    (Pg.limit_to l (Pg.order_by "created_at" false (Pg.eq_ "user_id" uid Pg.from)))
    rows
  = Pg.limit_rows E (Some l)
      (by_recency E (filter (fun m => String.eqb (Pg.pm_user_id m) (Pg.uuid_in uid)) rows)).
Proof.
  unfold Pg.select. cbn -[Pg.limit_rows Pg.sort_by filter].
  erewrite filter_ext; [reflexivity |].
  intros m. unfold Pg.holds_all. simpl. now rewrite andb_true_r.
Qed.

Lemma select_by_problem (pid : string) (l : jsnum) (rows : list Pg.match_row) :
  Pg.select Pg.problem_matches_table E
    (Pg.limit_to l (Pg.order_by "created_at" false (Pg.eq_ "problem_id" pid Pg.from)))
    rows
  = Pg.limit_rows E (Some l)
      (by_recency E (filter (fun m => String.eqb (Pg.pm_problem_id m) (Pg.uuid_in pid)) rows)).
Proof.
  unfold Pg.select. cbn -[Pg.limit_rows Pg.sort_by filter].
  erewrite filter_ext; [reflexivity |].
  intros m. unfold Pg.holds_all. simpl. now rewrite andb_true_r.
Qed.

Lemma select_by_problem_role (pid role : string) (l : jsnum) (rows : list Pg.match_row) :
  Pg.select Pg.problem_matches_table E
    (Pg.eq_ "role" role
       (Pg.limit_to l (Pg.order_by "created_at" false (Pg.eq_ "problem_id" pid Pg.from))))
    rows
  = Pg.limit_rows E (Some l)
      (by_recency E
         (filter (fun m => String.eqb (Pg.pm_problem_id m) (Pg.uuid_in pid)
                           && String.eqb (Pg.pm_role m) role) rows)).
Proof.
  unfold Pg.select. cbn -[Pg.limit_rows Pg.sort_by filter].
  erewrite filter_ext; [reflexivity |].
  intros m. unfold Pg.holds_all. simpl. now rewrite andb_true_r.
Qed.

Lemma limit_rows_count {A} (l : jsnum) (n : nat) (rows : list A) :
  Pg.as_count l = Some n -> Pg.limit_rows E (Some l) rows = inr (firstn n rows).
Proof. intros H. unfold Pg.limit_rows. now rewrite H. Qed.

Lemma as_count_of_nat (n : nat) : Pg.as_count (of_Z (Z.of_nat n)) = Some n.
Proof.
  unfold Pg.as_count, of_Z. simpl. rewrite Z.div_1_r.
  assert (H : Qeq_bool (inject_Z (Z.of_nat n)) (inject_Z (Z.of_nat n)) = true)
    by (apply Qeq_bool_iff; reflexivity).
  rewrite H. simpl.
  assert (H0 : (0 <=? Z.of_nat n)%Z = true) by (apply Z.leb_le; lia).
  rewrite H0. now rewrite Nat2Z.id.
Qed.

Lemma select_user_by_id (d : Pg.db) (id : string) :
  Pg.select Pg.users_table E (Pg.eq_ "id" id Pg.from) (Pg.users d)
  = inr (filter (fun u => String.eqb (Pg.users_id u) (Pg.uuid_in id)) (Pg.users d)).
Proof.
  unfold Pg.select. cbn -[filter].
  erewrite filter_ext; [reflexivity |].
  intros u. unfold Pg.holds_all. simpl. now rewrite andb_true_r.
Qed.

Lemma select_problem_by_id (d : Pg.db) (id : string) :
  Pg.select Pg.problems_table E (Pg.eq_ "id" id Pg.from) (Pg.problems d)
  = inr (filter (fun p => String.eqb (Pg.problems_id p) (Pg.uuid_in id)) (Pg.problems d)).
Proof.
  unfold Pg.select. cbn -[filter].
  erewrite filter_ext; [reflexivity |].
  intros u. unfold Pg.holds_all. simpl. now rewrite andb_true_r.
Qed.

Lemma select_user_absent (d : Pg.db) (id : string) :
  Pg.user_exists d (Pg.uuid_in id) = false ->
  App.select_user E d id = inr None.
Proof.
  intros H. unfold App.select_user. rewrite select_user_by_id.
  unfold Pg.user_exists in H. now rewrite (existsb_filter _ _ H).
Qed.

Lemma select_user_present (d : Pg.db) (id : string) :
  users_pkey d -> Pg.user_exists d (Pg.uuid_in id) = true ->
  exists u, App.select_user E d id = inr (Some u)
            /\ In u (Pg.users d) /\ Pg.users_id u = Pg.uuid_in id.
Proof.
  intros Hpk H. unfold App.select_user. rewrite select_user_by_id.
  destruct (filter_at_most_one _ _ (Hpk (Pg.uuid_in id)) H) as (u & Hu).
  rewrite Hu. exists u. split; [reflexivity |].
  assert (Hin : In u (filter (fun u => String.eqb (Pg.users_id u) (Pg.uuid_in id))
                             (Pg.users d))) by (rewrite Hu; now left).
  apply filter_In in Hin. destruct Hin as [Hin Heq].
  split; [exact Hin | now apply String.eqb_eq].
Qed.

Lemma select_problem_absent (d : Pg.db) (id : string) :
  Pg.problem_exists d (Pg.uuid_in id) = false ->
  Pg.maybeSingle (Pg.select Pg.problems_table E (Pg.eq_ "id" id Pg.from) (Pg.problems d))
  = inr None.
Proof.
  intros H. rewrite select_problem_by_id.
  unfold Pg.problem_exists in H. now rewrite (existsb_filter _ _ H).
Qed.

Lemma select_problem_present (d : Pg.db) (id : string) :
  problems_pkey d -> Pg.problem_exists d (Pg.uuid_in id) = true ->
  exists p,
    Pg.maybeSingle (Pg.select Pg.problems_table E (Pg.eq_ "id" id Pg.from) (Pg.problems d))
    = inr (Some p).
Proof.
  intros Hpk H. rewrite select_problem_by_id.
  destruct (filter_at_most_one _ _ (Hpk (Pg.uuid_in id)) H) as (p & Hp).
  rewrite Hp. now exists p.
Qed.

End Store.

(** *** The statements that write [problem_matches] keep its constraints *)

Lemma role_check_sound (role : string) :
  Pg.role_check role = true -> role = "SOLVER" \/ role = "AFFECTED".
Proof.
  unfold Pg.role_check. rewrite orb_true_iff, !String.eqb_eq. tauto.
Qed.

Lemma same_pair_eq (u p : string) (m : Pg.match_row) :
  Pg.same_pair u p m = true <-> Pg.pm_user_id m = u /\ Pg.pm_problem_id m = p.
Proof.
  unfold Pg.same_pair. now rewrite andb_true_iff, !String.eqb_eq.
Qed.

Lemma upsert_unchanged_tables (t : Z) (id u p role : string) (d d' : Pg.db)
    (rows : list Pg.match_row) :
  Pg.upsert t id u p role d = inr (d', rows) ->
  Pg.users d' = Pg.users d /\ Pg.problems d' = Pg.problems d.
Proof.
  unfold Pg.upsert. intros H.
  destruct (Pg.role_check role); simpl in H; [| discriminate].
  destruct (Pg.user_exists d (Pg.uuid_in u)); simpl in H; [| discriminate].
  destruct (Pg.problem_exists d (Pg.uuid_in p)); simpl in H; [| discriminate].
  destruct (existsb _ _); inversion H; subst; simpl; auto.
Qed.

Lemma upsert_unique (t : Z) (id u p role : string) (d d' : Pg.db)
    (rows : list Pg.match_row) :
  unique_pairs d ->
  Pg.upsert t id u p role d = inr (d', rows) ->
  unique_pairs d'.
Proof.
  intros Huniq. unfold Pg.upsert.
  destruct (Pg.role_check role); simpl; [| discriminate].
  destruct (Pg.user_exists d (Pg.uuid_in u)); simpl; [| discriminate].
  destruct (Pg.problem_exists d (Pg.uuid_in p)); simpl; [| discriminate].
  destruct (existsb _ _) eqn:Hex; intros H; inversion H; subst; clear H;
    intros u' p'; simpl.
  - (* a row in conflict: its role is overwritten in place *)
    rewrite filter_map_swap.
    + rewrite length_map. apply Huniq.
    + intros m. destruct (Pg.same_pair _ _ m); reflexivity.
  - (* no conflict: one row is added *)
    rewrite filter_app, length_app. simpl.
    destruct (Pg.same_pair u' p' _) eqn:Hsame; simpl.
    + apply same_pair_eq in Hsame. simpl in Hsame. destruct Hsame as [<- <-].
      rewrite (existsb_filter _ _ Hex). simpl. lia.
    + rewrite Nat.add_0_r. apply Huniq.
Qed.

Lemma upsert_roles (t : Z) (id u p role : string) (d d' : Pg.db)
    (rows : list Pg.match_row) :
  roles_checked d ->
  Pg.upsert t id u p role d = inr (d', rows) ->
  roles_checked d'.
Proof.
  intros Hroles. unfold Pg.upsert.
  destruct (Pg.role_check role) eqn:Hrole; simpl; [| discriminate].
  destruct (Pg.user_exists d (Pg.uuid_in u)); simpl; [| discriminate].
  destruct (Pg.problem_exists d (Pg.uuid_in p)); simpl; [| discriminate].
  apply role_check_sound in Hrole.
  destruct (existsb _ _); intros H; inversion H; subst; clear H;
    unfold roles_checked in *; simpl.
  - apply Forall_map. eapply Forall_impl; [| exact Hroles]. intros m Hm. simpl.
    destruct (Pg.same_pair _ _ m); [exact Hrole | exact Hm].
  - apply Forall_app. split; [exact Hroles |].
    constructor; [exact Hrole | constructor].
Qed.

Lemma upsert_invariant (t : Z) (id u p role : string) (d d' : Pg.db)
    (rows : list Pg.match_row) :
  match_invariant d ->
  Pg.upsert t id u p role d = inr (d', rows) ->
  match_invariant d'.
Proof.
  intros [Huniq Hroles] H. split.
  - exact (upsert_unique _ _ _ _ _ _ _ _ Huniq H).
  - exact (upsert_roles _ _ _ _ _ _ _ _ Hroles H).
Qed.

Lemma filter_invariant (keep : Pg.match_row -> bool) (d : Pg.db) :
  match_invariant d ->
  match_invariant (Pg.with_matches d (filter keep (Pg.problem_matches d))).
Proof.
  intros [Huniq Hroles]. split.
  - intros u p. simpl.
    eapply Nat.le_trans; [apply filter_filter_length | apply Huniq].
  - unfold roles_checked in *. simpl.
    apply Forall_forall. intros m Hm. apply filter_In in Hm.
    rewrite Forall_forall in Hroles. now apply Hroles.
Qed.

Section Invariant.

Variable jwt_sign : jsval -> string -> string -> Z -> string.
Variable jwt_verify : string -> string -> Z -> option jsval.
Variable E : Pg.engine.
Variable JWT_SECRET : string.

Lemma requireAuth_cases {X} (req : request) (t : tick)
    (res : response -> X) (next : request -> X) :
  (exists r, App.requireAuth jwt_verify JWT_SECRET req t res next = res r)
  \/ (exists sub, App.requireAuth jwt_verify JWT_SECRET req t res next
                  = next (App.with_userId req sub)).
Proof.
  unfold App.requireAuth.
  destruct (App.match_bearer _); [| now eauto].
  destruct (jwt_verify _ _ _); [| now eauto].
  destruct (_ || _); now eauto.
Qed.

Lemma post_match_invariant (req : request) (t : tick) (d : Pg.db) :
  match_invariant d ->
  match_invariant (snd (App.post_problems_id_match E req t d)).
Proof.
  intros Hinv. unfold App.post_problems_id_match.
  destruct (negb (App.isUuid _)); [exact Hinv |].
  destruct (_ && _); [exact Hinv |].
  destruct (Pg.maybeSingle _) as [e | [p |]]; try exact Hinv.
  destruct (Pg.upsert _ _ _ _ _ _) as [e | [d' rows]] eqn:Hup; [exact Hinv |].
  apply (upsert_invariant _ _ _ _ _ _ _ _ Hinv) in Hup.
  destruct (Pg.single _); exact Hup.
Qed.

Lemma delete_match_invariant (req : request) (d : Pg.db) :
  match_invariant d ->
  match_invariant (snd (App.delete_problems_id_match E req d)).
Proof.
  intros Hinv. unfold App.delete_problems_id_match.
  destruct (negb (App.isUuid _)); [exact Hinv |].
  unfold Pg.delete. destruct (forallb _ _); [| exact Hinv].
  simpl. now apply filter_invariant.
Qed.

Lemma serve_invariant (r : App.route) (req : request) (t : tick) (d : Pg.db) :
  match_invariant d ->
  match_invariant (snd (App.serve jwt_sign jwt_verify E JWT_SECRET r req t d)).
Proof.
  intros Hinv. destruct r; simpl; try exact Hinv.
  - destruct (requireAuth_cases req t (fun res => (res, d))
                (fun req => App.post_problems_id_match E req t d))
      as [[r Hr] | [sub Hr]]; rewrite Hr; [exact Hinv |].
    now apply post_match_invariant.
  - destruct (requireAuth_cases req t (fun res => (res, d))
                (fun req => App.delete_problems_id_match E req d))
      as [[r Hr] | [sub Hr]]; rewrite Hr; [exact Hinv |].
    now apply delete_match_invariant.
Qed.

End Invariant.

(** C1.  Starting from a store that meets the constraints of the schema,
    after any sequence of requests there is at most one match row for each
    (user, problem) pair and every match row has role SOLVER or AFFECTED;
    the match and unmatch operations each preserve this. *)
Theorem match_invariant_reachable
    (jwt_sign : jsval -> string -> string -> Z -> string)
    (jwt_verify : string -> string -> Z -> option jsval)
    (E : Pg.engine) (JWT_SECRET : string)
    (trace : list (App.route * request * tick)) (d0 : Pg.db) :
  match_invariant d0 ->
  match_invariant (App.run jwt_sign jwt_verify E JWT_SECRET trace d0)
  /\ (forall req t d, match_invariant d ->
        match_invariant (snd (App.post_problems_id_match E req t d)))
  /\ (forall req d, match_invariant d ->
        match_invariant (snd (App.delete_problems_id_match E req d))).
Proof.
  intros H0. split; [| split].
  - revert d0 H0. induction trace as [| [[r req] t] trace IH]; intros d0 H0.
    + exact H0.
    + simpl. apply IH. now apply serve_invariant.
  - intros req t d. apply post_match_invariant.
  - intros req d. apply delete_match_invariant.
Qed.

Lemma match_invariant_reachable_witness :
  match_invariant Sample.store0
  /\ match_invariant
       (App.run ToyJwt.sign ToyJwt.verify Sample.engine ToyJwt.secret Sample.trace0 Sample.store0).
Proof.
  assert (H0 : match_invariant Sample.store0)
    by (split; [intros u p; simpl; lia | constructor]).
  split; [exact H0 |].
  exact (proj1 (match_invariant_reachable ToyJwt.sign ToyJwt.verify Sample.engine
                  ToyJwt.secret Sample.trace0 Sample.store0 H0)).
Defined.

(** *** Match (upsert) *)

Lemma map_fixed {A} (f : A -> A) (l : list A) :
  Forall (fun x => f x = x) l -> map f l = l.
Proof.
  induction 1 as [| x l Hx _ IH]; simpl; [reflexivity | now rewrite Hx, IH].
Qed.

Lemma upsert_result (t : Z) (id u p role : string) (d : Pg.db) :
  unique_pairs d ->
  Pg.role_check role = true ->
  Pg.user_exists d (Pg.uuid_in u) = true ->
  Pg.problem_exists d (Pg.uuid_in p) = true ->
  exists d' m,
    Pg.upsert t id u p role d = inr (d', [m])
    /\ Pg.pm_user_id m = Pg.uuid_in u
    /\ Pg.pm_problem_id m = Pg.uuid_in p
    /\ Pg.pm_role m = role
    /\ matches_of_pair d' u p = [m]
    /\ (forall u' p', Pg.same_pair u' p' m = false ->
          filter (Pg.same_pair u' p') (Pg.problem_matches d')
          = filter (Pg.same_pair u' p') (Pg.problem_matches d)).
Proof.
  intros Huniq Hrole Hu Hp. unfold Pg.upsert. rewrite Hrole, Hu, Hp. simpl.
  set (same := Pg.same_pair (Pg.uuid_in u) (Pg.uuid_in p)).
  destruct (existsb same (Pg.problem_matches d)) eqn:Hex.
  - destruct (filter_at_most_one _ _ (Huniq (Pg.uuid_in u) (Pg.uuid_in p)) Hex)
      as (x & Hx).
    fold same in Hx.
    assert (Hsx : same x = true).
    { assert (Hin : In x (filter same (Pg.problem_matches d))) by (rewrite Hx; now left).
      now apply filter_In in Hin. }
    set (f := fun r => if same r then Pg.set_role role r else r).
    assert (Hkeep : forall u' p' r, Pg.same_pair u' p' (f r) = Pg.same_pair u' p' r).
    { intros u' p' r. unfold f. destruct (same r); reflexivity. }
    assert (Hrows : filter same (map f (Pg.problem_matches d)) = [Pg.set_role role x]).
    { unfold same at 1. rewrite filter_map_swap by (intros; apply Hkeep).
      fold same. rewrite Hx. simpl. unfold f. now rewrite Hsx. }
    exists (Pg.with_matches d (map f (Pg.problem_matches d))), (Pg.set_role role x).
    apply same_pair_eq in Hsx. destruct Hsx as [Hxu Hxp].
    rewrite Hrows. repeat split; try assumption.
    intros u' p' Hne. simpl. rewrite filter_map_swap by (intros; apply Hkeep).
    apply map_fixed. apply Forall_forall. intros r Hr.
    apply filter_In in Hr. destruct Hr as [_ Hr]. unfold f.
    destruct (same r) eqn:Hsr; [| reflexivity].
    apply same_pair_eq in Hsr. destruct Hsr as [Hru Hrp].
    apply same_pair_eq in Hr. destruct Hr as [Hru' Hrp'].
    assert (Hc : Pg.same_pair u' p' (Pg.set_role role x) = true).
    { apply same_pair_eq. simpl. split; congruence. }
    congruence.
  - set (r := {| Pg.pm_id := id; Pg.pm_user_id := Pg.uuid_in u;
                 Pg.pm_problem_id := Pg.uuid_in p; Pg.pm_role := role;
                 Pg.pm_created_at := t |}).
    exists (Pg.with_matches d (Pg.problem_matches d ++ [r])), r.
    repeat split.
    + unfold matches_of_pair. simpl. fold same. rewrite filter_app.
      rewrite (existsb_filter _ _ Hex). simpl.
      assert (Hr : same r = true)
        by (apply same_pair_eq; split; reflexivity).
      now rewrite Hr.
    + intros u' p' Hne. simpl. rewrite filter_app. simpl. rewrite Hne.
      apply app_nil_r.
Qed.

Lemma isUuid_nonempty (s : string) : App.isUuid (JStr s) = true -> s <> "".
Proof. intros H ->. discriminate H. Qed.

Lemma strict_eq_false (v : jsval) (s : string) :
  v <> JStr s -> strict_eq v s = false.
Proof.
  intros H. destruct v; try reflexivity. simpl.
  destruct (String.eqb s0 s) eqn:He; [| reflexivity].
  apply String.eqb_eq in He. now subst.
Qed.

Section SetMatch.

Variable E : Pg.engine.

Lemma post_match_bad_id (req : request) (t : tick) (d : Pg.db) :
  App.isUuid (JStr (params_id req)) = false ->
  App.post_problems_id_match E req t d
  = (App.error 400 "problem id must be a uuid", d).
Proof. intros H. unfold App.post_problems_id_match. now rewrite H. Qed.

Lemma post_match_bad_role (req : request) (t : tick) (d : Pg.db) :
  App.isUuid (JStr (params_id req)) = true ->
  get "role" (body req) <> JStr "SOLVER" ->
  get "role" (body req) <> JStr "AFFECTED" ->
  App.post_problems_id_match E req t d
  = (App.error 400 "role must be SOLVER or AFFECTED", d).
Proof.
  intros Hid H1 H2. unfold App.post_problems_id_match. rewrite Hid. simpl.
  now rewrite (strict_eq_false _ _ H1), (strict_eq_false _ _ H2).
Qed.

Lemma post_match_no_problem (req : request) (t : tick) (d : Pg.db) :
  App.isUuid (JStr (params_id req)) = true ->
  get "role" (body req) = JStr "SOLVER" \/ get "role" (body req) = JStr "AFFECTED" ->
  Pg.problem_exists d (Pg.uuid_in (params_id req)) = false ->
  App.post_problems_id_match E req t d = (App.error 404 "Problem not found", d).
Proof.
  intros Hid Hrole Hp. unfold App.post_problems_id_match.
  rewrite Hid, (select_problem_absent E d _ Hp).
  destruct Hrole as [-> | ->]; reflexivity.
Qed.

Lemma post_match_upserts (req : request) (t : tick) (d : Pg.db) (role : string) :
  App.isUuid (JStr (params_id req)) = true ->
  get "role" (body req) = JStr role ->
  role = "SOLVER" \/ role = "AFFECTED" ->
  problems_pkey d -> unique_pairs d ->
  Pg.user_exists d (Pg.uuid_in (App.getUserId req)) = true ->
  Pg.problem_exists d (Pg.uuid_in (params_id req)) = true ->
  exists d' m,
    App.post_problems_id_match E req t d
    = (App.json (JObj [("ok", JBool true); ("match", App.match_json m)]), d')
    /\ Pg.pm_role m = role
    /\ matches_of_pair d' (App.getUserId req) (params_id req) = [m]
    /\ Pg.users d' = Pg.users d /\ Pg.problems d' = Pg.problems d
    /\ unique_pairs d'
    /\ (forall u' p', Pg.same_pair u' p' m = false ->
          filter (Pg.same_pair u' p') (Pg.problem_matches d')
          = filter (Pg.same_pair u' p') (Pg.problem_matches d)).
Proof.
  intros Hid Hbody Hrole Hpk Huniq Hu Hp.
  assert (Hcheck : Pg.role_check role = true)
    by (destruct Hrole as [-> | ->]; reflexivity).
  destruct (upsert_result (now t) (gen_random_uuid t) (App.getUserId req)
              (params_id req) role d Huniq Hcheck Hu Hp)
    as (d' & m & Hup & _ & _ & Hr & Hpair & Hothers).
  destruct (select_problem_present E d _ Hpk Hp) as (p & Hsel).
  exists d', m. unfold App.post_problems_id_match.
  rewrite Hid, Hbody, Hsel. cbn [negb strict_eq as_string].
  assert (Hs : negb (String.eqb role "SOLVER") && negb (String.eqb role "AFFECTED") = false)
    by (destruct Hrole as [-> | ->]; reflexivity).
  rewrite Hs, Hup. cbn [Pg.single].
  destruct (upsert_unchanged_tables _ _ _ _ _ _ _ _ Hup) as [Hus Hps].
  repeat split; try assumption.
  exact (upsert_unique _ _ _ _ _ _ _ _ Huniq Hup).
Qed.

Lemma sample_problems_pkey : problems_pkey Sample.store0.
Proof.
  intros id. unfold Sample.store0. cbn [Pg.problems filter].
  change (Pg.problems_id Sample.problem1) with Sample.P1.
  change (Pg.problems_id Sample.problem2) with Sample.P2.
  destruct (String.eqb Sample.P1 id) eqn:H1, (String.eqb Sample.P2 id) eqn:H2;
    cbn [length]; try lia.
  apply String.eqb_eq in H1, H2. rewrite <- H2 in H1. discriminate H1.
Qed.

Lemma sample_users_pkey : users_pkey Sample.store0.
Proof.
  intros id. unfold Sample.store0. cbn [Pg.users filter].
  change (Pg.users_id Sample.user1) with Sample.U1.
  change (Pg.users_id Sample.user2) with Sample.U2.
  destruct (String.eqb Sample.U1 id) eqn:H1, (String.eqb Sample.U2 id) eqn:H2;
    cbn [length]; try lia.
  apply String.eqb_eq in H1, H2. rewrite <- H2 in H1. discriminate H1.
Qed.

Lemma sample_unique_pairs : unique_pairs Sample.store0.
Proof. intros u p. simpl. lia. Qed.

End SetMatch.

(** C2, as stated, fails: with a well-formed id of an existing problem
    and a valid role, the request is not always an upsert that returns
    the row.  Sent under the id of a user whose row is gone (a token
    outlives its user), it is answered 500 and no row is written. *)
Lemma set_match_missing_user_counterexample :
  App.isUuid (JStr Sample.P1) = true
  /\ get "role" (body (with_body (role_body "SOLVER")
                         (with_id Sample.P1 (as_user Sample.U9 bare_request))))
     = JStr "SOLVER"
  /\ Pg.problem_exists Sample.store0 (Pg.uuid_in Sample.P1) = true
  /\ status (fst (App.post_problems_id_match Sample.engine
                    (with_body (role_body "SOLVER")
                       (with_id Sample.P1 (as_user Sample.U9 bare_request)))
                    (Sample.at_ 110 "m1") Sample.store0))
     = 500%nat
  /\ snd (App.post_problems_id_match Sample.engine
            (with_body (role_body "SOLVER")
               (with_id Sample.P1 (as_user Sample.U9 bare_request)))
            (Sample.at_ 110 "m1") Sample.store0)
     = Sample.store0
  /\ matches_of_pair Sample.store0 Sample.U9 Sample.P1 = [].
Proof. repeat split; reflexivity. Qed.

(** C2, amended.  [POST /problems/:id/match] answers 400 when the problem
    id is not a uuid or the role is neither SOLVER nor AFFECTED, and 404
    when no problem has that id; otherwise, when the user of the token
    still exists, it upserts on (user, problem) and answers 200 with the
    row written, which is then the only row of the pair, the rows of the
    other pairs being left as they were.  In particular SOLVER followed by
    AFFECTED leaves exactly one row, with role AFFECTED. *)
Theorem set_match_contract (E : Pg.engine) :
  (forall req t d,
     App.isUuid (JStr (params_id req)) = false ->
     App.post_problems_id_match E req t d
     = ({| status := 400%nat;
           payload := JObj [("error", JStr "problem id must be a uuid")] |}, d))
  /\ (forall req t d,
        App.isUuid (JStr (params_id req)) = true ->
        get "role" (body req) <> JStr "SOLVER" ->
        get "role" (body req) <> JStr "AFFECTED" ->
        App.post_problems_id_match E req t d
        = ({| status := 400%nat;
              payload := JObj [("error", JStr "role must be SOLVER or AFFECTED")] |},
           d))
  /\ (forall req t d,
        App.isUuid (JStr (params_id req)) = true ->
        get "role" (body req) = JStr "SOLVER"
        \/ get "role" (body req) = JStr "AFFECTED" ->
        Pg.problem_exists d (Pg.uuid_in (params_id req)) = false ->
        App.post_problems_id_match E req t d
        = ({| status := 404%nat;
              payload := JObj [("error", JStr "Problem not found")] |}, d))
  /\ (forall req t d role,
        App.isUuid (JStr (params_id req)) = true ->
        get "role" (body req) = JStr role ->
        role = "SOLVER" \/ role = "AFFECTED" ->
        problems_pkey d -> unique_pairs d ->
        Pg.user_exists d (Pg.uuid_in (App.getUserId req)) = true ->
        Pg.problem_exists d (Pg.uuid_in (params_id req)) = true ->
        exists d' m,
          App.post_problems_id_match E req t d
          = ({| status := 200%nat;
                payload := JObj [("ok", JBool true); ("match", match_record m)] |},
             d')
          /\ Pg.pm_user_id m = Pg.uuid_in (App.getUserId req)
          /\ Pg.pm_problem_id m = Pg.uuid_in (params_id req)
          /\ Pg.pm_role m = role
          /\ matches_of_pair d' (App.getUserId req) (params_id req) = [m]
          /\ (forall u' p', Pg.same_pair u' p' m = false ->
                filter (Pg.same_pair u' p') (Pg.problem_matches d')
                = filter (Pg.same_pair u' p') (Pg.problem_matches d)))
  /\ (forall req t1 t2 d,
        App.isUuid (JStr (params_id req)) = true ->
        problems_pkey d -> unique_pairs d ->
        Pg.user_exists d (Pg.uuid_in (App.getUserId req)) = true ->
        Pg.problem_exists d (Pg.uuid_in (params_id req)) = true ->
        exists d1 d2 m1 m2,
          App.post_problems_id_match E (with_body (role_body "SOLVER") req) t1 d
          = ({| status := 200%nat;
                payload := JObj [("ok", JBool true); ("match", match_record m1)] |},
             d1)
          /\ App.post_problems_id_match E (with_body (role_body "AFFECTED") req) t2 d1
             = ({| status := 200%nat;
                   payload := JObj [("ok", JBool true); ("match", match_record m2)] |},
                d2)
          /\ Pg.pm_role m1 = "SOLVER"
          /\ matches_of_pair d1 (App.getUserId req) (params_id req) = [m1]
          /\ Pg.pm_role m2 = "AFFECTED"
          /\ matches_of_pair d2 (App.getUserId req) (params_id req) = [m2]).
Proof.
  split; [| split; [| split; [| split]]].
  - apply post_match_bad_id.
  - apply post_match_bad_role.
  - apply post_match_no_problem.
  - intros req t d role Hid Hbody Hrole Hpk Huniq Hu Hp.
    destruct (post_match_upserts E req t d role Hid Hbody Hrole Hpk Huniq Hu Hp)
      as (d' & m & H1 & H2 & H3 & _ & _ & _ & H4).
    exists d', m. split; [exact H1 |].
    assert (Hin : In m (matches_of_pair d' (App.getUserId req) (params_id req)))
      by (rewrite H3; now left).
    unfold matches_of_pair in Hin. apply filter_In in Hin.
    destruct Hin as [_ Hpair]. apply same_pair_eq in Hpair.
    destruct Hpair as [Hmu Hmp]. auto.
  - intros req t1 t2 d Hid Hpk Huniq Hu Hp.
    destruct (post_match_upserts E (with_body (role_body "SOLVER") req) t1 d "SOLVER")
      as (d1 & m1 & Hr1 & Hrole1 & Hpair1 & Hus & Hps & Huniq1 & _); auto.
    destruct (post_match_upserts E (with_body (role_body "AFFECTED") req) t2 d1 "AFFECTED")
      as (d2 & m2 & Hr2 & Hrole2 & Hpair2 & _); auto.
    + unfold problems_pkey. rewrite Hps. exact Hpk.
    + simpl. unfold Pg.user_exists. rewrite Hus. exact Hu.
    + simpl. unfold Pg.problem_exists. rewrite Hps. exact Hp.
    + exists d1, d2, m1, m2. auto 10.
Qed.

Lemma set_match_contract_witness :
  exists d1 d2 m1 m2,
    App.post_problems_id_match Sample.engine
      (with_body (role_body "SOLVER") (with_id Sample.P1 (as_user Sample.U1 bare_request)))
      (Sample.at_ 110 "m1") Sample.store0
    = ({| status := 200%nat;
          payload := JObj [("ok", JBool true); ("match", match_record m1)] |}, d1)
    /\ App.post_problems_id_match Sample.engine
         (with_body (role_body "AFFECTED") (with_id Sample.P1 (as_user Sample.U1 bare_request)))
         (Sample.at_ 120 "m2") d1
       = ({| status := 200%nat;
             payload := JObj [("ok", JBool true); ("match", match_record m2)] |}, d2)
    /\ Pg.pm_role m1 = "SOLVER"
    /\ matches_of_pair d1 Sample.U1 Sample.P1 = [m1]
    /\ Pg.pm_role m2 = "AFFECTED"
    /\ matches_of_pair d2 Sample.U1 Sample.P1 = [m2].
Proof.
  apply (proj2 (proj2 (proj2 (proj2 (set_match_contract Sample.engine))))
           (with_id Sample.P1 (as_user Sample.U1 bare_request))).
  - reflexivity.
  - exact sample_problems_pkey.
  - exact sample_unique_pairs.
  - reflexivity.
  - reflexivity.
Defined.

(** *** Unmatch (delete) *)

Lemma filter_none {A} (P : A -> bool) (l : list A) :
  filter P l = [] -> filter (fun x => negb (P x)) l = l.
Proof.
  induction l as [| x l IH]; simpl; [reflexivity |].
  destruct (P x); simpl; [discriminate | intros H; now rewrite IH].
Qed.



Lemma delete_by_pair (E : Pg.engine) (uid pid : string) (rows : list Pg.match_row) :
  Pg.delete Pg.problem_matches_table E
    (Pg.eq_ "problem_id" pid (Pg.eq_ "user_id" uid Pg.from)) rows
  = inr (filter (fun m => negb (Pg.same_pair (Pg.uuid_in uid) (Pg.uuid_in pid) m)) rows).
Proof.
  unfold Pg.delete. cbn -[filter].
  erewrite filter_ext; [reflexivity |].
  intros m. unfold Pg.holds_all, Pg.same_pair. simpl. now rewrite andb_true_r.
Qed.



(** *** The bearer header and the token *)

Lemma no_space_no_line_terminator (l : list ascii) :
  existsb is_space l = false -> existsb is_line_terminator l = false.
Proof.
  induction l as [| c l IH]; simpl; [reflexivity |].
  rewrite !orb_false_iff. intros [Hc Hl]. split; [| now apply IH].
  destruct (is_line_terminator c) eqn:H; [| reflexivity].
  apply line_terminator_is_space in H. congruence.
Qed.

Lemma match_bearer_compact (token : string) :
  compact token = true ->
  App.match_bearer ("Bearer " ++ token) = Some token.
Proof.
  unfold compact, App.nonempty. rewrite andb_true_iff, !negb_true_iff.
  intros [Hne Hsp]. unfold App.match_bearer. rewrite chars_append.
  remember (chars token) as l0 eqn:Hl. destruct l0 as [| c l].
  - rewrite <- (str_chars token), <- Hl in Hne. discriminate Hne.
  - assert (Hlt : existsb is_line_terminator (c :: l) = false)
      by now apply no_space_no_line_terminator.
    simpl in Hsp. apply orb_false_iff in Hsp. destruct Hsp as [Hc Hrest].
    change (chars "Bearer ") with (chars "Bearer" ++ [" "%char]).
    rewrite <- app_assoc.
    change (firstn 6 (chars "Bearer" ++ [" "%char] ++ c :: l)) with (chars "Bearer").
    change (skipn 6 (chars "Bearer" ++ [" "%char] ++ c :: l)) with (" "%char :: c :: l).
    replace (ci_eqb (str (chars "Bearer")) "Bearer") with true by reflexivity.
    cbn [span]. change (is_space " ") with true. rewrite Hc. cbv iota beta.
    now rewrite Hlt, Hl, str_chars.
Qed.

Section Auth.

Variable jwt_verify : string -> string -> Z -> option jsval.
Variable JWT_SECRET : string.

Lemma requireAuth_accepts {X} (req : request) (t : tick) (token sub : string)
    (claims : jsval) (res : response -> X) (next : request -> X) :
  authorization req = Some ("Bearer " ++ token)%string ->
  compact token = true ->
  jwt_verify token JWT_SECRET (now t) = Some claims ->
  get "sub" claims = JStr sub ->
  App.isUuid (JStr sub) = true ->
  App.requireAuth jwt_verify JWT_SECRET req t res next
  = next (App.with_userId req sub).
Proof.
  intros Hh Hc Hv Hsub Hid. unfold App.requireAuth.
  rewrite Hh, (match_bearer_compact _ Hc), Hv, Hsub, Hid.
  assert (Ht : truthy (JStr sub) = true).
  { simpl. destruct (String.eqb sub "") eqn:He; [| reflexivity].
    apply String.eqb_eq in He. now apply isUuid_nonempty in Hid. }
  now rewrite Ht.
Qed.

Lemma requireAuth_rejects {X} (req : request) (t : tick) (token : string)
    (res : response -> X) (next : request -> X) :
  authorization req = Some ("Bearer " ++ token)%string ->
  compact token = true ->
  jwt_verify token JWT_SECRET (now t) = None ->
  App.requireAuth jwt_verify JWT_SECRET req t res next
  = res (App.error 401 "Invalid or expired token").
Proof.
  intros Hh Hc Hv. unfold App.requireAuth.
  now rewrite Hh, (match_bearer_compact _ Hc), Hv.
Qed.

Lemma requireAuth_status {X} (req : request) (t : tick)
    (res : response -> X) (next : request -> X) :
  (exists r, status r = 401%nat
             /\ App.requireAuth jwt_verify JWT_SECRET req t res next = res r)
  \/ (exists sub, App.isUuid (JStr sub) = true
                  /\ App.requireAuth jwt_verify JWT_SECRET req t res next
                     = next (App.with_userId req sub)).
Proof.
  unfold App.requireAuth.
  destruct (App.match_bearer _); [| left; eexists; split; [| reflexivity]; reflexivity].
  destruct (jwt_verify _ _ _) as [claims |];
    [| left; eexists; split; [| reflexivity]; reflexivity].
  destruct (negb (truthy _)) eqn:Ht; simpl;
    [left; eexists; split; [| reflexivity]; reflexivity |].
  destruct (App.isUuid (get "sub" claims)) eqn:Hid; simpl;
    [| left; eexists; split; [| reflexivity]; reflexivity].
  right. exists (as_string (get "sub" claims)). split; [| reflexivity].
  destruct (get "sub" claims); try discriminate Hid. exact Hid.
Qed.

End Auth.

(** *** [isUuid] is the uuid pattern *)

Lemma in_existsb (c : ascii) (l : list ascii) :
  existsb (Ascii.eqb c) l = true <-> In c l.
Proof.
  rewrite existsb_exists. split.
  - intros (x & Hin & Heq). apply Ascii.eqb_eq in Heq. now subst.
  - intros H. exists c. split; [exact H | apply Ascii.eqb_refl].
Qed.

Lemma hex_i_digit (c : ascii) : hex_i c = true <-> hex_digit c.
Proof.
  unfold hex_digit. rewrite <- in_existsb.
  each_char c; split; intros H; exact H.
Qed.

Lemma ver_1_5_digit (c : ascii) : ver_1_5 c = true <-> In c (chars "12345").
Proof.
  rewrite <- in_existsb.
  each_char c; split; intros H; exact H.
Qed.

Lemma var_89ab_digit (c : ascii) : var_89ab c = true <-> In c (chars "89abAB").
Proof.
  rewrite <- in_existsb.
  each_char c; split; intros H; exact H.
Qed.

Lemma dash_char (c : ascii) : dash c = true <-> c = "-"%char.
Proof.
  each_char c; split; intros H;
    solve [discriminate H | reflexivity].
Qed.

Lemma match_classes_length (ps : list (ascii -> bool)) (l : list ascii) :
  match_classes ps l = true -> length l = length ps.
Proof.
  revert l. induction ps as [| k ps IH]; intros [| c l] H; simpl in H;
    try discriminate H; [reflexivity |].
  apply andb_true_iff in H. simpl. f_equal. now apply IH.
Qed.

Lemma isUuid_pattern (s : string) : App.isUuid (JStr s) = true <-> rfc4122_v1_5 s.
Proof.
  unfold App.isUuid, rfc4122_v1_5. split.
  - intros H. remember (chars s) as l eqn:Hl. clear Hl.
    pose proof (match_classes_length _ _ H) as Hlen.
    unfold uuid_regex in H, Hlen. cbn [repeat app length] in H, Hlen.
    do 36 (destruct l as [| ? l]; [discriminate Hlen |]).
    destruct l; [| discriminate Hlen]. clear Hlen.
    cbn [match_classes] in H. rewrite !andb_true_iff in H.
    repeat match goal with H : _ /\ _ |- _ => destruct H end.
    repeat match goal with
           | H : hex_i _ = true |- _ => apply hex_i_digit in H
           | H : dash _ = true |- _ => apply dash_char in H; subst
           | H : ver_1_5 _ = true |- _ => apply ver_1_5_digit in H
           | H : var_89ab _ = true |- _ => apply var_89ab_digit in H
           end.
    eexists [_; _; _; _; _; _; _; _], [_; _; _; _], [_; _; _], [_; _; _],
            [_; _; _; _; _; _; _; _; _; _; _; _], _, _.
    split; [cbn [app]; reflexivity |].
    repeat (split; [reflexivity |]).
    split; [| split; assumption].
    cbn [app]. repeat (apply Forall_cons; [assumption |]). apply Forall_nil.
  - intros (a & b & c & d & e & ver & var & Hs & Ha & Hb & Hc & Hd & He & Hhex & Hver & Hvar).
    rewrite Hs.
    do 8 (destruct a as [| ? a]; [discriminate Ha |]).
    destruct a; [| discriminate Ha].
    do 4 (destruct b as [| ? b]; [discriminate Hb |]).
    destruct b; [| discriminate Hb].
    do 3 (destruct c as [| ? c]; [discriminate Hc |]).
    destruct c; [| discriminate Hc].
    do 3 (destruct d as [| ? d]; [discriminate Hd |]).
    destruct d; [| discriminate Hd].
    do 12 (destruct e as [| ? e]; [discriminate He |]).
    destruct e; [| discriminate He].
    cbn [app] in Hhex.
    repeat match goal with
           | H : Forall _ (_ :: _) |- _ =>
               apply Forall_cons_iff in H;
               let Hx := fresh "Hx" in
               destruct H as [Hx H]; apply hex_i_digit in Hx
           end.
    apply ver_1_5_digit in Hver. apply var_89ab_digit in Hvar.
    unfold uuid_regex. cbn [repeat app match_classes].
    repeat match goal with H : _ = true |- _ => rewrite H; clear H end.
    reflexivity.
Qed.

(** *** Login *)

Section Login.

Variable jwt_sign : jsval -> string -> string -> Z -> string.
Variable E : Pg.engine.
Variable JWT_SECRET : string.

Lemma login_bad_id (req : request) (t : tick) (d : Pg.db) :
  App.isUuid (get "userId" (body req)) = false ->
  App.post_login jwt_sign E JWT_SECRET req t d = App.error 400 "userId must be a uuid".
Proof. intros H. unfold App.post_login. now rewrite H. Qed.

Lemma login_unknown (req : request) (t : tick) (d : Pg.db) (id : string) :
  get "userId" (body req) = JStr id ->
  App.isUuid (JStr id) = true ->
  Pg.user_exists d (Pg.uuid_in id) = false ->
  App.post_login jwt_sign E JWT_SECRET req t d = App.error 404 "User not found".
Proof.
  intros Hb Hid Hu. unfold App.post_login. rewrite Hb, Hid. cbn [negb as_string].
  now rewrite (select_user_absent E d id Hu).
Qed.

Lemma login_known (req : request) (t : tick) (d : Pg.db) (id : string) :
  get "userId" (body req) = JStr id ->
  App.isUuid (JStr id) = true ->
  users_pkey d ->
  Pg.user_exists d (Pg.uuid_in id) = true ->
  exists u,
    In u (Pg.users d) /\ Pg.users_id u = Pg.uuid_in id
    /\ App.select_user E d id = inr (Some u)
    /\ App.post_login jwt_sign E JWT_SECRET req t d
       = App.json (JObj [("token", JStr (jwt_sign (access_claims id) JWT_SECRET
                                                   "30d" (now t)));
                         ("user", App.user_json u)]).
Proof.
  intros Hb Hid Hpk Hu.
  destruct (select_user_present E d id Hpk Hu) as (u & Hsel & Hin & Heq).
  exists u. repeat split; try assumption.
  unfold App.post_login. rewrite Hb, Hid. cbn [negb as_string].
  now rewrite Hsel.
Qed.

End Login.

Lemma isUuid_examples :
  App.isUuid (JStr "123e4567-e89b-42d3-a456-426614174000") = true
  /\ App.isUuid (JStr "123E4567-E89B-12D3-B456-42661417400F") = true
  /\ App.isUuid (JStr "123e4567-e89b-62d3-a456-426614174000") = false
  /\ App.isUuid (JStr "123e4567-e89b-42d3-c456-426614174000") = false
  /\ App.isUuid (JStr "123e4567e89b42d3a456426614174000") = false
  /\ App.isUuid (JStr " 123e4567-e89b-42d3-a456-426614174000") = false
  /\ App.isUuid (JNum (of_Z 7)) = false
  /\ App.isUuid JUndefined = false.
Proof. repeat split; reflexivity. Qed.

Lemma isUuid_not_pattern (v : jsval) :
  (forall s, v = JStr s -> ~ rfc4122_v1_5 s) -> App.isUuid v = false.
Proof.
  intros H. destruct (App.isUuid v) eqn:Hv; [| reflexivity].
  destruct v; try discriminate Hv.
  exfalso. apply (H s eq_refl). now apply isUuid_pattern.
Qed.

(** C4.  [POST /login] answers 400 whenever [userId] does not match the
    uuid pattern of RFC 4122, versions 1 to 5 (in particular when it is
    not a string), 404 when it matches and no user has that id, and
    otherwise 200 with the signed token and the user's record. *)
Theorem login_contract
    (jwt_sign : jsval -> string -> string -> Z -> string)
    (E : Pg.engine) (JWT_SECRET : string) :
  (forall req t d,
     (forall s, get "userId" (body req) = JStr s -> ~ rfc4122_v1_5 s) ->
     App.post_login jwt_sign E JWT_SECRET req t d
     = {| status := 400%nat;
          payload := JObj [("error", JStr "userId must be a uuid")] |})
  /\ (forall req t d id,
        get "userId" (body req) = JStr id ->
        rfc4122_v1_5 id ->
        Pg.user_exists d (Pg.uuid_in id) = false ->
        App.post_login jwt_sign E JWT_SECRET req t d
        = {| status := 404%nat;
             payload := JObj [("error", JStr "User not found")] |})
  /\ (forall req t d id,
        get "userId" (body req) = JStr id ->
        rfc4122_v1_5 id ->
        users_pkey d ->
        Pg.user_exists d (Pg.uuid_in id) = true ->
        exists u,
          In u (Pg.users d) /\ Pg.users_id u = Pg.uuid_in id
          /\ App.post_login jwt_sign E JWT_SECRET req t d
             = {| status := 200%nat;
                  payload :=
                    JObj [("token",
                           JStr (jwt_sign (JObj [("sub", JStr id); ("typ", JStr "access")])
                                          JWT_SECRET "30d" (now t)));
                          ("user", identity_record u)] |}).
Proof.
  split; [| split].
  - intros req t d H. apply login_bad_id. now apply isUuid_not_pattern.
  - intros req t d id Hb Hid. apply login_unknown; [exact Hb |].
    now apply isUuid_pattern.
  - intros req t d id Hb Hid Hpk Hu. apply isUuid_pattern in Hid.
    destruct (login_known jwt_sign E JWT_SECRET req t d id Hb Hid Hpk Hu)
      as (u & Hin & Heq & _ & Hr).
    exists u. auto.
Qed.

Lemma login_contract_witness :
  exists u,
    In u (Pg.users Sample.store0) /\ Pg.users_id u = Pg.uuid_in Sample.U1
    /\ App.post_login ToyJwt.sign Sample.engine ToyJwt.secret
         (with_body (JObj [("userId", JStr Sample.U1)]) bare_request)
         (Sample.at_ 100 "") Sample.store0
       = {| status := 200%nat;
            payload :=
              JObj [("token",
                     JStr (ToyJwt.sign (JObj [("sub", JStr Sample.U1);
                                              ("typ", JStr "access")])
                                       ToyJwt.secret "30d" 100));
                    ("user", identity_record u)] |}.
Proof.
  apply (proj2 (proj2 (login_contract ToyJwt.sign Sample.engine ToyJwt.secret))
           (with_body (JObj [("userId", JStr Sample.U1)]) bare_request)
           (Sample.at_ 100 "") Sample.store0 Sample.U1).
  - reflexivity.
  - apply isUuid_pattern. reflexivity.
  - exact sample_users_pkey.
  - reflexivity.
Defined.

(** *** The characters of a uuid *)

Lemma hex_i_plain (c : ascii) : hex_i c = true -> plain_char c.
Proof.
  each_char c; intros H;
    solve [split; reflexivity | discriminate H].
Qed.

Lemma dash_plain (c : ascii) : dash c = true -> plain_char c.
Proof.
  each_char c; intros H;
    solve [split; reflexivity | discriminate H].
Qed.

Lemma ver_1_5_plain (c : ascii) : ver_1_5 c = true -> plain_char c.
Proof.
  each_char c; intros H;
    solve [split; reflexivity | discriminate H].
Qed.

Lemma var_89ab_plain (c : ascii) : var_89ab c = true -> plain_char c.
Proof.
  each_char c; intros H;
    solve [split; reflexivity | discriminate H].
Qed.

Lemma match_classes_Forall (P : ascii -> Prop) (ps : list (ascii -> bool))
    (l : list ascii) :
  Forall (fun k => forall c, k c = true -> P c) ps ->
  match_classes ps l = true -> Forall P l.
Proof.
  intros Hps. revert l. induction Hps as [| k ps Hk _ IH]; intros [| c l] H;
    simpl in H; try discriminate H; constructor.
  - apply andb_true_iff in H. now apply Hk.
  - apply andb_true_iff in H. now apply IH.
Qed.

Lemma uuid_plain (s : string) :
  App.isUuid (JStr s) = true -> Forall plain_char (chars s).
Proof.
  unfold App.isUuid. apply match_classes_Forall. unfold uuid_regex.
  cbn [repeat app].
  repeat (apply Forall_cons;
          [first [exact hex_i_plain | exact dash_plain | exact ver_1_5_plain
                  | exact var_89ab_plain] |]).
  apply Forall_nil.
Qed.

Lemma plain_no_space (l : list ascii) :
  Forall plain_char l -> existsb is_space l = false.
Proof.
  induction 1 as [| c l [Hc _] _ IH]; simpl; [reflexivity | now rewrite Hc].
Qed.

Lemma span_plain (l rest : list ascii) :
  Forall plain_char l ->
  span ToyJwt.not_dot (l ++ "."%char :: rest) = (l, "."%char :: rest).
Proof.
  induction 1 as [| c l [_ Hc] _ IH]; simpl; [reflexivity |].
  now rewrite Hc, IH.
Qed.

(** *** The small JWT library keeps the contract *)

Lemma unbits_bits (p : positive) : ToyJwt.unbits (ToyJwt.bits p) = Some p.
Proof. induction p as [p IH | p IH |]; simpl; now rewrite ?IH. Qed.

Lemma decode_encode (z : Z) : ToyJwt.decode (ToyJwt.encode z) = Some z.
Proof. destruct z; simpl; now rewrite ?unbits_bits. Qed.

Lemma bits_no_space (p : positive) : existsb is_space (ToyJwt.bits p) = false.
Proof. induction p as [p IH | p IH |]; simpl; now rewrite ?IH. Qed.

Lemma encode_no_space (z : Z) : existsb is_space (ToyJwt.encode z) = false.
Proof. destruct z; simpl; now rewrite ?bits_no_space. Qed.

Lemma toy_sign_chars (sub secret e : string) (t : Z) :
  chars (ToyJwt.sign (access_claims sub) secret e t)
  = chars sub ++ "."%char :: ToyJwt.encode (t + thirty_days).
Proof. unfold ToyJwt.sign. now rewrite chars_str. Qed.

Lemma toy_verify_signed (secret sub : string) (t0 t1 : Z) :
  App.isUuid (JStr sub) = true ->
  (t1 < t0 + thirty_days)%Z ->
  exists claims,
    ToyJwt.verify (ToyJwt.sign (access_claims sub) secret "30d" t0) secret t1
    = Some claims
    /\ get "sub" claims = JStr sub.
Proof.
  intros Hid Ht. unfold ToyJwt.verify.
  rewrite toy_sign_chars, (span_plain _ _ (uuid_plain _ Hid)), decode_encode.
  apply Z.ltb_lt in Ht. rewrite Ht. eexists. split; [reflexivity |].
  simpl. now rewrite str_chars.
Qed.

Lemma toy_verify_expired (secret sub : string) (t0 t1 : Z) :
  App.isUuid (JStr sub) = true ->
  (t0 + thirty_days <= t1)%Z ->
  ToyJwt.verify (ToyJwt.sign (access_claims sub) secret "30d" t0) secret t1 = None.
Proof.
  intros Hid Ht. unfold ToyJwt.verify.
  rewrite toy_sign_chars, (span_plain _ _ (uuid_plain _ Hid)), decode_encode.
  apply Z.ltb_ge in Ht. now rewrite Ht.
Qed.

Lemma toy_sign_compact (secret sub : string) (t0 : Z) :
  App.isUuid (JStr sub) = true ->
  compact (ToyJwt.sign (access_claims sub) secret "30d" t0) = true.
Proof.
  intros Hid. unfold compact. rewrite toy_sign_chars.
  rewrite existsb_app, (plain_no_space _ (uuid_plain _ Hid)). simpl.
  rewrite encode_no_space. rewrite andb_true_r.
  unfold App.nonempty, ToyJwt.sign.
  destruct (chars (as_string (get "sub" (access_claims sub)))); reflexivity.
Qed.

(** *** Login, then an authenticated request *)

Section TokenRoundTrip.

Variable jwt_sign : jsval -> string -> string -> Z -> string.
Variable jwt_verify : string -> string -> Z -> option jsval.
Variable E : Pg.engine.
Variable JWT_SECRET : string.

(** The contract of [jsonwebtoken] on the tokens [POST /login] signs:
    until the expiry, [verify] returns claims that carry the subject that
    was signed; from the expiry on, it throws; and a token is compact. *)
Hypothesis verify_signed :
  forall (sub : string) (t0 t1 : Z),
    App.isUuid (JStr sub) = true ->
    (t1 < t0 + thirty_days)%Z ->
    exists claims,
      jwt_verify (jwt_sign (access_claims sub) JWT_SECRET "30d" t0) JWT_SECRET t1
      = Some claims
      /\ get "sub" claims = JStr sub.

Hypothesis verify_expired :
  forall (sub : string) (t0 t1 : Z),
    App.isUuid (JStr sub) = true ->
    (t0 + thirty_days <= t1)%Z ->
    jwt_verify (jwt_sign (access_claims sub) JWT_SECRET "30d" t0) JWT_SECRET t1 = None.

Hypothesis signed_compact :
  forall (sub : string) (t0 : Z),
    App.isUuid (JStr sub) = true ->
    compact (jwt_sign (access_claims sub) JWT_SECRET "30d" t0) = true.

(** C3.  For a user that exists, [POST /login] answers 200 with the
    user's record and a token signed over subject = the user id, type
    access, lifetime 30 days.  Until it expires, [requireAuth] accepts
    that token and hands the handler a request that carries the very id
    used at login, and [GET /me] answers 200 with the same user record;
    once expired the answer is 401, as it is for any token that [verify]
    rejects (a tampered signature among them). *)
Theorem token_round_trip (req : request) (t0 : tick) (d : Pg.db) (id : string) :
  get "userId" (body req) = JStr id ->
  App.isUuid (JStr id) = true ->
  users_pkey d ->
  Pg.user_exists d (Pg.uuid_in id) = true ->
  exists token u,
    In u (Pg.users d) /\ Pg.users_id u = Pg.uuid_in id
    /\ App.post_login jwt_sign E JWT_SECRET req t0 d
       = {| status := 200%nat;
            payload := JObj [("token", JStr token); ("user", identity_record u)] |}
    /\ token = jwt_sign (JObj [("sub", JStr id); ("typ", JStr "access")])
                        JWT_SECRET "30d" (now t0)
    /\ (forall req1 t1,
          (now t1 < now t0 + thirty_days)%Z ->
          (exists req2,
             userId req2 = Some id
             /\ forall X (res : response -> X) (next : request -> X),
                  App.requireAuth jwt_verify JWT_SECRET (with_bearer token req1) t1
                                  res next
                  = next req2)
          /\ App.serve jwt_sign jwt_verify E JWT_SECRET App.GET_me
               (with_bearer token req1) t1 d
             = ({| status := 200%nat;
                   payload := JObj [("user", identity_record u)] |}, d))
    /\ (forall req1 t1,
          (now t0 + thirty_days <= now t1)%Z ->
          App.serve jwt_sign jwt_verify E JWT_SECRET App.GET_me
            (with_bearer token req1) t1 d
          = ({| status := 401%nat;
                payload := JObj [("error", JStr "Invalid or expired token")] |}, d))
    /\ (forall req1 t1 other,
          compact other = true ->
          jwt_verify other JWT_SECRET (now t1) = None ->
          App.serve jwt_sign jwt_verify E JWT_SECRET App.GET_me
            (with_bearer other req1) t1 d
          = ({| status := 401%nat;
                payload := JObj [("error", JStr "Invalid or expired token")] |}, d)).
Proof.
  intros Hb Hid Hpk Hu.
  destruct (login_known jwt_sign E JWT_SECRET req t0 d id Hb Hid Hpk Hu)
    as (u & Hin & Hu_id & Hsel & Hlogin).
  exists (jwt_sign (access_claims id) JWT_SECRET "30d" (now t0)), u.
  split; [exact Hin |]. split; [exact Hu_id |].
  split; [exact Hlogin |]. split; [reflexivity |].
  pose proof (signed_compact id (now t0) Hid) as Hc.
  split; [| split].
  - intros req1 t1 Ht.
    destruct (verify_signed id (now t0) (now t1) Hid Ht) as (claims & Hv & Hsub).
    assert (Hacc : forall X (res : response -> X) (next : request -> X),
               App.requireAuth jwt_verify JWT_SECRET
                 (with_bearer (jwt_sign (access_claims id) JWT_SECRET "30d" (now t0)) req1)
                 t1 res next
               = next (App.with_userId
                         (with_bearer (jwt_sign (access_claims id) JWT_SECRET "30d" (now t0))
                                      req1) id)).
    { intros X res next.
      apply requireAuth_accepts
        with (token := jwt_sign (access_claims id) JWT_SECRET "30d" (now t0))
             (claims := claims); auto. }
    split.
    + eexists. split; [| exact Hacc]. reflexivity.
    + cbn [App.serve]. rewrite Hacc. unfold App.get_me.
      change (App.getUserId (App.with_userId _ id)) with id.
      now rewrite Hsel.
  - intros req1 t1 Ht. cbn [App.serve].
    rewrite (requireAuth_rejects jwt_verify JWT_SECRET _ t1
               (jwt_sign (access_claims id) JWT_SECRET "30d" (now t0)));
      auto.
  - intros req1 t1 other Hco Hv. cbn [App.serve].
    rewrite (requireAuth_rejects jwt_verify JWT_SECRET _ t1 other); auto.
Qed.

End TokenRoundTrip.

Lemma token_round_trip_witness :
  exists token u,
    In u (Pg.users Sample.store0) /\ Pg.users_id u = Pg.uuid_in Sample.U1
    /\ App.post_login ToyJwt.sign Sample.engine ToyJwt.secret
         (with_body (JObj [("userId", JStr Sample.U1)]) bare_request)
         (Sample.at_ 100 "") Sample.store0
       = {| status := 200%nat;
            payload := JObj [("token", JStr token); ("user", identity_record u)] |}
    /\ token = ToyJwt.sign (JObj [("sub", JStr Sample.U1); ("typ", JStr "access")])
                           ToyJwt.secret "30d" 100
    /\ (forall req1 t1,
          (now t1 < 100 + thirty_days)%Z ->
          (exists req2,
             userId req2 = Some Sample.U1
             /\ forall X (res : response -> X) (next : request -> X),
                  App.requireAuth ToyJwt.verify ToyJwt.secret (with_bearer token req1) t1
                                  res next
                  = next req2)
          /\ App.serve ToyJwt.sign ToyJwt.verify Sample.engine ToyJwt.secret App.GET_me
               (with_bearer token req1) t1 Sample.store0
             = ({| status := 200%nat;
                   payload := JObj [("user", identity_record u)] |}, Sample.store0))
    /\ (forall req1 t1,
          (100 + thirty_days <= now t1)%Z ->
          App.serve ToyJwt.sign ToyJwt.verify Sample.engine ToyJwt.secret App.GET_me
            (with_bearer token req1) t1 Sample.store0
          = ({| status := 401%nat;
                payload := JObj [("error", JStr "Invalid or expired token")] |},
             Sample.store0))
    /\ (forall req1 t1 other,
          compact other = true ->
          ToyJwt.verify other ToyJwt.secret (now t1) = None ->
          App.serve ToyJwt.sign ToyJwt.verify Sample.engine ToyJwt.secret App.GET_me
            (with_bearer other req1) t1 Sample.store0
          = ({| status := 401%nat;
                payload := JObj [("error", JStr "Invalid or expired token")] |},
             Sample.store0)).
Proof.
  apply (token_round_trip ToyJwt.sign ToyJwt.verify Sample.engine ToyJwt.secret
           (toy_verify_signed ToyJwt.secret) (toy_verify_expired ToyJwt.secret)
           (toy_sign_compact ToyJwt.secret)
           (with_body (JObj [("userId", JStr Sample.U1)]) bare_request)
           (Sample.at_ 100 "") Sample.store0 Sample.U1).
  - reflexivity.
  - reflexivity.
  - exact sample_users_pkey.
  - reflexivity.
Defined.

(** *** The limit of [GET /me/matches] *)

Lemma matches_limit_absent (req : request) :
  query req "limit" = None -> App.matches_limit req = of_Z 200.
Proof. intros H. unfold App.matches_limit. now rewrite H. Qed.

Lemma matches_limit_given (req : request) (v : qval) :
  query req "limit" = Some v ->
  App.matches_limit req = Math_min (Number v) (of_Z 500).
Proof. intros H. unfold App.matches_limit. now rewrite H. Qed.

Lemma Math_min_NaN (b : jsnum) : Math_min NaN b = NaN.
Proof. reflexivity. Qed.


Lemma Math_min_clamped (a : jsnum) (z : Z) :
  Math_min a (of_Z z) <> PInf
  /\ forall q, Math_min a (of_Z z) = Fin q -> q <= inject_Z z.
Proof.
  destruct a as [| | | p]; simpl.
  - split; [discriminate | intros q H; discriminate H].
  - split; [discriminate | intros q H; inversion H; apply Qle_refl].
  - split; [discriminate | intros q H; discriminate H].
  - destruct (Qle_bool p (inject_Z z)) eqn:Hc.
    + split; [discriminate | intros q H; inversion H; subst].
      now apply Qle_bool_iff.
    + split; [discriminate | intros q H; inversion H; apply Qle_refl].
Qed.

(** [Number] on a few literals: rounding to the nearest double, overflow
    to an infinity, the white space skipped, and what is not a literal. *)
Lemma Number_examples :
  Number (QStr "499.99999999999999999999") = of_Z 500
  /\ Number (QStr "0.1") = Fin (3602879701896397 # 36028797018963968)
  /\ Number (QStr "9007199254740993") = of_Z 9007199254740992
  /\ Number (QStr "1e400") = PInf
  /\ Number (QStr "-1e400") = NInf
  /\ Number (QStr "-Infinity") = NInf
  /\ Number (QStr "1e-400") = of_Z 0
  /\ Number (QStr "0x1f") = of_Z 31
  /\ Number (QStr " 12 ") = of_Z 12
  /\ Number (QStr (String (ascii_of_nat 160) "5")) = of_Z 5
  /\ Number (QStr "1 2") = NaN
  /\ Number (QStr "1,5") = NaN
  /\ Number (QObj []) = NaN
  /\ Number (QArr [QStr "7"]) = of_Z 7.
Proof. vm_compute. repeat split; reflexivity. Qed.



(** *** [GET /me/matches] *)

Lemma existsb_find {A} (P : A -> bool) (l : list A) :
  existsb P l = true -> exists x, find P l = Some x.
Proof.
  induction l as [| x l IH]; simpl; [discriminate |].
  destruct (P x); [now eauto | exact IH].
Qed.

Lemma embed_problem_some (d : Pg.db) (m : Pg.match_row) (p : Pg.problem_row) :
  Pg.embed_problem d m = Some p ->
  In p (Pg.problems d) /\ Pg.problems_id p = Pg.pm_problem_id m.
Proof.
  intros H. apply find_some in H. destruct H as [Hin Heq].
  split; [exact Hin | now apply String.eqb_eq].
Qed.

Lemma resolved_rows (d : Pg.db) (rows : list Pg.match_row) :
  Forall (fun r => exists p, snd r = Some p /\ In p (Pg.problems d)
                             /\ Pg.problems_id p = Pg.pm_problem_id (fst r))
         (filter App.resolves (map (with_problem d) rows)).
Proof.
  apply Forall_forall. intros [m o] Hr. apply filter_In in Hr.
  destruct Hr as [Hin Hres]. apply in_map_iff in Hin.
  destruct Hin as (m' & Heq & _). unfold with_problem in Heq.
  inversion Heq; subst. unfold App.resolves in Hres. simpl in *.
  destruct (Pg.embed_problem d m) as [p |] eqn:He; [| discriminate Hres].
  exists p. split; [reflexivity |]. now apply embed_problem_some.
Qed.

Lemma fkey_resolves (d : Pg.db) (rows : list Pg.match_row) :
  problem_fkey d ->
  (forall m, In m rows -> In m (Pg.problem_matches d)) ->
  filter App.resolves (map (with_problem d) rows) = map (with_problem d) rows.
Proof.
  intros Hfk Hsub. apply filter_all. apply Forall_forall. intros [m o] Hin.
  apply in_map_iff in Hin. destruct Hin as (m' & Heq & Hm').
  unfold with_problem in Heq. inversion Heq; subst.
  unfold problem_fkey in Hfk. rewrite Forall_forall in Hfk.
  specialize (Hfk m (Hsub m Hm')). unfold Pg.problem_exists in Hfk.
  destruct (existsb_find _ _ Hfk) as (p & Hp).
  unfold App.resolves, Pg.embed_problem. simpl. now rewrite Hp.
Qed.

Lemma in_firstn {A} (n : nat) (l : list A) (x : A) : In x (firstn n l) -> In x l.
Proof.
  intros H. rewrite <- (firstn_skipn n l). apply in_or_app. now left.
Qed.

Lemma in_matches_of_user (d : Pg.db) (u : string) (m : Pg.match_row) :
  In m (matches_of_user d u) <->
  In m (Pg.problem_matches d) /\ Pg.pm_user_id m = Pg.uuid_in u.
Proof.
  unfold matches_of_user. rewrite filter_In. now rewrite String.eqb_eq.
Qed.

Lemma existsb_of_find {A} (P : A -> bool) (l : list A) :
  existsb P l = match find P l with Some _ => true | None => false end.
Proof.
  induction l as [| x l IH]; simpl; [reflexivity |].
  destruct (P x); [reflexivity | exact IH].
Qed.

(** The items of [GET /me/matches], read off the rows selected. *)
Lemma my_match_entries (d : Pg.db) (rows : list Pg.match_row) :
  exists kept,
    map App.my_match_item (filter App.resolves (map (with_problem d) rows))
    = map my_match_entry kept
    /\ map fst kept
       = filter (fun m => Pg.problem_exists d (Pg.pm_problem_id m)) rows
    /\ Forall (refers_to_problem d) kept.
Proof.
  unfold with_problem.
  induction rows as [| m rows (kept & Hitems & Hfst & Hall)].
  - exists []. repeat split. constructor.
  - cbn [map filter]. unfold Pg.problem_exists at 1.
    rewrite existsb_of_find. unfold App.resolves at 1.
    cbn [snd]. fold (Pg.embed_problem d m).
    destruct (Pg.embed_problem d m) as [p |] eqn:Hp.
    + exists ((m, p) :: kept). cbn [map fst]. rewrite Hitems, Hfst.
      split; [reflexivity |]. split; [reflexivity |].
      constructor; [| exact Hall]. now apply embed_problem_some.
    + exists kept. auto.
Qed.

Section MyMatches.

Variable E : Pg.engine.

Lemma get_me_matches_rows (req : request) (d : Pg.db) (n : nat) :
  Pg.as_count (App.matches_limit req) = Some n ->
  App.get_me_matches E req d
  = App.json
      (JObj [("items",
              JArr (map App.my_match_item
                      (filter App.resolves
                         (map (with_problem d)
                            (firstn n (by_recency E
                                         (matches_of_user d (App.getUserId req))))))))]).
Proof.
  intros Hn. unfold App.get_me_matches, App.my_matches_query.
  rewrite select_by_user, (limit_rows_count E _ n _ Hn). reflexivity.
Qed.

(** With a limit of [n] rows: the rows selected, and the items made of
    them. *)
Lemma get_me_matches_listing (req : request) (d : Pg.db) (n : nat) :
  Pg.as_count (App.matches_limit req) = Some n ->
  exists rows rest kept,
    App.get_me_matches E req d
    = {| status := 200%nat;
         payload := JObj [("items", JArr (map my_match_entry kept))] |}
    /\ length rows = Nat.min n (length (matches_of_user d (App.getUserId req)))
    /\ Permutation (rows ++ rest) (matches_of_user d (App.getUserId req))
    /\ newest_first (rows ++ rest)
    /\ map fst kept
       = filter (fun m => Pg.problem_exists d (Pg.pm_problem_id m)) rows
    /\ Forall (refers_to_problem d) kept
    /\ (problem_fkey d -> map fst kept = rows).
Proof.
  intros Hn.
  set (all := by_recency E (matches_of_user d (App.getUserId req))).
  destruct (my_match_entries d (firstn n all)) as (kept & Hitems & Hfst & Hall).
  exists (firstn n all), (skipn n all), kept.
  split.
  { rewrite (get_me_matches_rows req d n Hn). fold all. unfold App.json.
    now rewrite Hitems. }
  split.
  { rewrite length_firstn. unfold all.
    now rewrite (Permutation_length (by_recency_perm E _)). }
  rewrite firstn_skipn.
  split; [apply by_recency_perm |].
  split; [apply by_recency_sorted |].
  split; [exact Hfst |].
  split; [exact Hall |].
  intros Hfk. rewrite Hfst. apply filter_all. apply Forall_forall.
  intros m Hm. apply in_firstn in Hm.
  apply (Permutation_in _ (by_recency_perm E _)) in Hm.
  apply in_matches_of_user in Hm. destruct Hm as [Hm _].
  unfold problem_fkey in Hfk. rewrite Forall_forall in Hfk. now apply Hfk.
Qed.

End MyMatches.

(** C6.  [GET /me/matches] takes 200 as its limit when none is given and
    never more than 500.  With a limit of [n] rows it selects the [n]
    most recent match rows of the user (all of them if there are fewer),
    most recent first, and answers 200 with one item per row selected, in
    that order, made of the role and time of the row and of the full
    record of its problem, leaving out the rows whose problem does not
    resolve; under the foreign key of the schema none is left out, so
    that [limit=3] on a user with 7 matches yields exactly 3 items. *)
Theorem my_matches_contract (E : Pg.engine) (req : request) (d : Pg.db) :
  (query req "limit" = None -> App.matches_limit req = of_Z 200)
  /\ App.matches_limit req <> PInf
  /\ (forall q, App.matches_limit req = Fin q -> q <= 500)
  /\ (forall n,
        Pg.as_count (App.matches_limit req) = Some n ->
        exists rows rest kept,
          App.get_me_matches E req d
          = {| status := 200%nat;
               payload := JObj [("items", JArr (map my_match_entry kept))] |}
          /\ length rows = Nat.min n (length (matches_of_user d (App.getUserId req)))
          /\ Permutation (rows ++ rest) (matches_of_user d (App.getUserId req))
          /\ newest_first (rows ++ rest)
          /\ map fst kept
             = filter (fun m => Pg.problem_exists d (Pg.pm_problem_id m)) rows
          /\ Forall (refers_to_problem d) kept
          /\ (problem_fkey d -> map fst kept = rows))
  /\ (query req "limit" = Some (QStr "3") ->
      length (matches_of_user d (App.getUserId req)) = 7%nat ->
      problem_fkey d ->
      exists r1 r2 r3 rest,
        App.get_me_matches E req d
        = {| status := 200%nat;
             payload := JObj [("items", JArr [my_match_entry r1; my_match_entry r2;
                                              my_match_entry r3])] |}
        /\ Forall (refers_to_problem d) [r1; r2; r3]
        /\ Permutation ([fst r1; fst r2; fst r3] ++ rest)
                       (matches_of_user d (App.getUserId req))
        /\ newest_first ([fst r1; fst r2; fst r3] ++ rest)).
Proof.
  split; [apply matches_limit_absent |].
  split; [| split; [| split; [apply get_me_matches_listing |]]].
  - unfold App.matches_limit. apply Math_min_clamped.
  - unfold App.matches_limit. apply Math_min_clamped.
  - intros Hq Hlen Hfk.
    assert (Hn : Pg.as_count (App.matches_limit req) = Some 3%nat)
      by (rewrite (matches_limit_given req _ Hq); reflexivity).
    destruct (get_me_matches_listing E req d 3%nat Hn)
      as (rows & rest & kept & Hr & Hl & Hperm & Hsort & _ & Hrefs & Hall).
    specialize (Hall Hfk). rewrite Hlen in Hl. simpl in Hl. subst rows.
    destruct kept as [| r1 [| r2 [| r3 [| r4 kept]]]]; try discriminate Hl.
    exists r1, r2, r3, rest. auto.
Qed.

Lemma my_matches_contract_witness :
  exists r1 r2 r3 rest,
    App.get_me_matches Sample.engine
      (with_query (one_query "limit" (QStr "3")) (as_user Sample.U1 bare_request))
      Sample.store7
    = {| status := 200%nat;
         payload := JObj [("items", JArr [my_match_entry r1; my_match_entry r2;
                                          my_match_entry r3])] |}
    /\ Forall (refers_to_problem Sample.store7) [r1; r2; r3]
    /\ Permutation ([fst r1; fst r2; fst r3] ++ rest)
                   (matches_of_user Sample.store7 Sample.U1)
    /\ newest_first ([fst r1; fst r2; fst r3] ++ rest).
Proof.
  apply (proj2 (proj2 (proj2 (proj2
           (my_matches_contract Sample.engine
              (with_query (one_query "limit" (QStr "3")) (as_user Sample.U1 bare_request))
              Sample.store7))))).
  - reflexivity.
  - reflexivity.
  - unfold problem_fkey. simpl. repeat constructor.
Defined.

(** *** The role filter of [GET /problems/:id/users] *)

Lemma upper_of_lower (c : ascii) : upper_char (lower_char c) = upper_char c.
Proof. each_char c; reflexivity. Qed.

Lemma lower_of_upper (c : ascii) : lower_char (upper_char c) = lower_char c.
Proof. each_char c; reflexivity. Qed.

Lemma upper_fixed (w : list ascii) :
  forallb (fun x => negb (is_lower x)) w = true -> map upper_char w = w.
Proof.
  induction w as [| x w IH]; simpl; [reflexivity |].
  rewrite andb_true_iff, negb_true_iff. intros [Hx Hw].
  unfold upper_char at 1. rewrite Hx. f_equal. now apply IH.
Qed.

Lemma upper_lower_word (l w : list ascii) :
  forallb (fun x => negb (is_lower x)) w = true ->
  (map upper_char l = w <-> map lower_char l = map lower_char w).
Proof.
  intros Hw. split; intros H.
  - rewrite <- H, map_map. apply map_ext. intros c. symmetry. apply lower_of_upper.
  - apply (f_equal (map upper_char)) in H. rewrite !map_map in H.
    rewrite (map_ext _ _ upper_of_lower l), (map_ext _ _ upper_of_lower w) in H.
    rewrite H. now apply upper_fixed.
Qed.

(** Against a word without lower-case letters, comparing the upper-cased
    text is comparing letter case aside. *)
Lemma upper_is_ci (t w : string) :
  forallb (fun x => negb (is_lower x)) (chars w) = true ->
  String.eqb (toUpperCase t) w = ci_eqb t w.
Proof.
  intros Hw. unfold ci_eqb, toUpperCase, toLowerCase.
  pose proof (upper_lower_word (chars t) (chars w) Hw) as [Hto Hfrom].
  apply eq_true_iff_eq. rewrite !String.eqb_eq. split; intros H.
  - f_equal. apply Hto. rewrite <- H. symmetry. apply chars_str.
  - apply chars_inj. rewrite chars_str. apply Hfrom.
    apply (f_equal chars) in H. rewrite !chars_str in H. exact H.
Qed.

Lemma roleFilter_string (req : request) (s : string) :
  query req "role" = Some (QStr s) ->
  App.roleFilter req
  = (if ci_eqb (trim s) "SOLVER" then Some "SOLVER"
     else if ci_eqb (trim s) "AFFECTED" then Some "AFFECTED"
     else None).
Proof.
  intros H. unfold App.roleFilter. rewrite H. cbn [string_or].
  rewrite <- (upper_is_ci (trim s) "SOLVER" eq_refl).
  rewrite <- (upper_is_ci (trim s) "AFFECTED" eq_refl).
  destruct (String.eqb (toUpperCase (trim s)) "SOLVER") eqn:H1.
  - apply String.eqb_eq in H1. now rewrite H1.
  - destruct (String.eqb (toUpperCase (trim s)) "AFFECTED") eqn:H2; [| reflexivity].
    apply String.eqb_eq in H2. now rewrite H2.
Qed.

Lemma roleFilter_other (req : request) :
  (forall s, query req "role" <> Some (QStr s)) -> App.roleFilter req = None.
Proof.
  intros H. unfold App.roleFilter.
  destruct (query req "role") as [[s | |] |]; try reflexivity.
  now destruct (H s).
Qed.

Lemma roleFilter_values (req : request) (r : string) :
  App.roleFilter req = Some r -> r = "SOLVER" \/ r = "AFFECTED".
Proof.
  unfold App.roleFilter.
  destruct (String.eqb _ "SOLVER") eqn:H1; simpl.
  - intros H. inversion H. left. now apply String.eqb_eq.
  - destruct (String.eqb _ "AFFECTED") eqn:H2; [| discriminate].
    intros H. inversion H. right. now apply String.eqb_eq.
Qed.

Lemma filter_andb {A} (P Q : A -> bool) (l : list A) :
  filter (fun x => P x && Q x) l = filter Q (filter P l).
Proof.
  induction l as [| x l IH]; simpl; [reflexivity |].
  destruct (P x); simpl; [destruct (Q x); now rewrite IH | exact IH].
Qed.

Lemma embed_user_some (d : Pg.db) (m : Pg.match_row) (u : Pg.user_row) :
  Pg.embed_user d m = Some u ->
  In u (Pg.users d) /\ Pg.users_id u = Pg.pm_user_id m.
Proof.
  intros H. apply find_some in H. destruct H as [Hin Heq].
  split; [exact Hin | now apply String.eqb_eq].
Qed.

Lemma embed_user_none (d : Pg.db) (m : Pg.match_row) :
  Pg.embed_user d m = None ->
  forall u, In u (Pg.users d) -> Pg.users_id u <> Pg.pm_user_id m.
Proof.
  intros H u Hin Heq.
  apply (find_none _ _ H) in Hin. apply String.eqb_neq in Hin. contradiction.
Qed.

Section Collaborators.

Variable E : Pg.engine.

Lemma collaborators_bad_id (req : request) (d : Pg.db) :
  App.isUuid (JStr (params_id req)) = false ->
  App.get_problems_id_users E req d = App.error 400 "problem id must be a uuid".
Proof. intros H. unfold App.get_problems_id_users. now rewrite H. Qed.

Lemma select_collaborators (req : request) (d : Pg.db) :
  Pg.select Pg.problem_matches_table E (App.collaborators_query req)
            (Pg.problem_matches d)
  = inr (firstn 500 (by_recency E
                       (collaborators d (params_id req) (App.roleFilter req)))).
Proof.
  unfold App.collaborators_query, collaborators, matches_of_problem.
  destruct (App.roleFilter req) as [r |].
  - rewrite select_by_problem_role, filter_andb.
    now rewrite (limit_rows_count E _ 500%nat _ (as_count_of_nat 500)).
  - rewrite select_by_problem.
    rewrite (limit_rows_count E _ 500%nat _ (as_count_of_nat 500)).
    do 3 f_equal. symmetry. apply filter_all. now apply Forall_forall.
Qed.

Lemma collaborators_rows (req : request) (d : Pg.db) :
  App.isUuid (JStr (params_id req)) = true ->
  App.get_problems_id_users E req d
  = App.json
      (JObj [("problemId", JStr (params_id req));
             ("items",
              JArr (map App.collaborator_item
                      (map (with_user d)
                         (firstn 500
                            (by_recency E
                               (collaborators d (params_id req)
                                              (App.roleFilter req)))))))]).
Proof.
  intros H. unfold App.get_problems_id_users.
  rewrite H, select_collaborators. reflexivity.
Qed.

End Collaborators.

Lemma in_collaborators (d : Pg.db) (p : string) (role : option string)
    (m : Pg.match_row) :
  In m (collaborators d p role) <->
  In m (Pg.problem_matches d)
  /\ Pg.pm_problem_id m = Pg.uuid_in p
  /\ (forall r, role = Some r -> Pg.pm_role m = r).
Proof.
  unfold collaborators, matches_of_problem. rewrite !filter_In, String.eqb_eq.
  destruct role as [r |].
  - rewrite String.eqb_eq. split.
    + intros [[H1 H2] H3]. repeat split; auto. intros r' Hr'. congruence.
    + intros (H1 & H2 & H3). repeat split; auto.
  - split.
    + intros [[H1 H2] _]. repeat split; auto. discriminate.
    + intros (H1 & H2 & _). repeat split; auto.
Qed.


(** C7, as stated, fails: a role parameter that is not SOLVER or AFFECTED
    in any letter case, because it is padded with blanks, is not ignored.
    [role=" solver"] selects the SOLVER rows, where ignoring it would
    return every row of the problem. *)
Lemma role_filter_padded_counterexample :
  query Sample.padded_role_request "role" = Some (QStr " solver")
  /\ ci_eqb " solver" "SOLVER" = false
  /\ ci_eqb " solver" "AFFECTED" = false
  /\ App.roleFilter Sample.padded_role_request = Some "SOLVER"
  /\ (role_filter_by_case_only Sample.padded_role_request " solver" -> False)
  /\ App.get_problems_id_users Sample.engine Sample.padded_role_request
       Sample.store_orphans
     <> App.get_problems_id_users Sample.engine (with_id Sample.P1 bare_request)
          Sample.store_orphans.
Proof.
  repeat split; try reflexivity.
  - intros H. specialize (H eq_refl). vm_compute in H. discriminate H.
  - intros H. vm_compute in H. discriminate H.
Qed.

Lemma collaborator_item_entry (r : Pg.match_row * option Pg.user_row) :
  App.collaborator_item r = collaborator_entry r.
Proof. destruct r as [m [u |]]; reflexivity. Qed.

Lemma with_user_refers (d : Pg.db) (rows : list Pg.match_row) :
  map fst (map (with_user d) rows) = rows
  /\ Forall (refers_to_user d) (map (with_user d) rows).
Proof.
  split.
  - rewrite map_map. unfold with_user. cbn [fst]. apply map_id.
  - apply Forall_forall. intros [m o] Hin. apply in_map_iff in Hin.
    destruct Hin as (m' & Heq & _). unfold with_user in Heq.
    inversion Heq; subst. unfold refers_to_user. cbn [fst snd].
    destruct (Pg.embed_user d m) as [u |] eqn:He.
    + now apply embed_user_some.
    + now apply embed_user_none.
Qed.

(** C7, amended.  [GET /problems/:id/users] answers 400 when the problem
    id is not a uuid.  Its role parameter, when it is ASCII text, is first
    trimmed of surrounding white space and then compared, letter case
    aside, with SOLVER and AFFECTED; any other value, or a parameter that
    is not a string, is ignored.  The answer is 200 with one item per row
    selected, in order: the (at most 500) most recent match rows of the
    problem, restricted to the role when one is in force, most recent
    first, each with the id and display name of its user. *)
Theorem collaborators_contract (E : Pg.engine) (req : request) (d : Pg.db) :
  ascii_param (query req "role") = true ->
  (App.isUuid (JStr (params_id req)) = false ->
   App.get_problems_id_users E req d
   = {| status := 400%nat;
        payload := JObj [("error", JStr "problem id must be a uuid")] |})
  /\ (forall s,
        query req "role" = Some (QStr s) ->
        App.roleFilter req
        = (if ci_eqb (trim s) "SOLVER" then Some "SOLVER"
           else if ci_eqb (trim s) "AFFECTED" then Some "AFFECTED"
           else None))
  /\ ((forall s, query req "role" <> Some (QStr s)) -> App.roleFilter req = None)
  /\ (App.isUuid (JStr (params_id req)) = true ->
      exists rows rest joined,
        App.get_problems_id_users E req d
        = {| status := 200%nat;
             payload := JObj [("problemId", JStr (params_id req));
                              ("items", JArr (map collaborator_entry joined))] |}
        /\ map fst joined = rows
        /\ Forall (refers_to_user d) joined
        /\ length rows
           = Nat.min 500 (length (collaborators d (params_id req) (App.roleFilter req)))
        /\ Permutation (rows ++ rest)
                       (collaborators d (params_id req) (App.roleFilter req))
        /\ newest_first (rows ++ rest)
        /\ Forall (fun m => In m (Pg.problem_matches d)
                            /\ Pg.pm_problem_id m = Pg.uuid_in (params_id req)
                            /\ (forall r, App.roleFilter req = Some r -> Pg.pm_role m = r))
                  rows).
Proof.
  intros _.
  split; [apply collaborators_bad_id |].
  split; [apply roleFilter_string |].
  split; [apply roleFilter_other |].
  intros Hid.
  set (all := by_recency E (collaborators d (params_id req) (App.roleFilter req))).
  destruct (with_user_refers d (firstn 500 all)) as [Hfst Hrefs].
  exists (firstn 500 all), (skipn 500 all), (map (with_user d) (firstn 500 all)).
  split.
  { rewrite (collaborators_rows E req d Hid). fold all. unfold App.json.
    now rewrite (map_ext _ _ collaborator_item_entry). }
  split; [exact Hfst |].
  split; [exact Hrefs |].
  split.
  { rewrite length_firstn. unfold all.
    now rewrite (Permutation_length (by_recency_perm E _)). }
  rewrite firstn_skipn.
  split; [apply by_recency_perm |].
  split; [apply by_recency_sorted |].
  apply Forall_forall. intros m Hm. apply in_firstn in Hm.
  apply (Permutation_in _ (by_recency_perm E _)) in Hm.
  now apply in_collaborators in Hm.
Qed.

Lemma collaborators_contract_witness :
  exists rows rest joined,
    App.get_problems_id_users Sample.engine Sample.padded_role_request
      Sample.store_orphans
    = {| status := 200%nat;
         payload := JObj [("problemId", JStr Sample.P1);
                          ("items", JArr (map collaborator_entry joined))] |}
    /\ map fst joined = rows
    /\ Forall (refers_to_user Sample.store_orphans) joined
    /\ length rows
       = Nat.min 500 (length (collaborators Sample.store_orphans Sample.P1
                                            (App.roleFilter Sample.padded_role_request)))
    /\ Permutation (rows ++ rest)
                   (collaborators Sample.store_orphans Sample.P1
                                  (App.roleFilter Sample.padded_role_request))
    /\ newest_first (rows ++ rest)
    /\ Forall (fun m => In m (Pg.problem_matches Sample.store_orphans)
                        /\ Pg.pm_problem_id m = Pg.uuid_in Sample.P1
                        /\ (forall r, App.roleFilter Sample.padded_role_request = Some r ->
                                      Pg.pm_role m = r))
              rows.
Proof.
  apply (proj2 (proj2 (proj2 (collaborators_contract Sample.engine
                                Sample.padded_role_request Sample.store_orphans
                                eq_refl)))).
  reflexivity.
Defined.



(** *** The filters of [GET /problems] *)

Lemma like_percent (p s : list ascii) :
  Pg.like ("%"%char :: p) s
  = Pg.like p s || match s with
                   | [] => false
                   | _ :: s' => Pg.like ("%"%char :: p) s'
                   end.
Proof. destruct s; reflexivity. Qed.

Lemma like_percent_only (s : list ascii) : Pg.like ["%"%char] s = true.
Proof.
  induction s as [| x s IH]; [reflexivity |].
  rewrite like_percent. rewrite IH. apply orb_true_r.
Qed.

Lemma like_literal (c : ascii) (p s : list ascii) :
  is_meta c = false ->
  Pg.like (c :: p) s
  = match s with
    | [] => false
    | x :: s' => Ascii.eqb c x && Pg.like p s'
    end.
Proof.
  unfold is_meta. rewrite !orb_false_iff. intros [[[H1 H2] H3] _].
  cbn [Pg.like]. now rewrite H1, H2, H3.
Qed.

Lemma like_prefix (lit s : list ascii) :
  existsb is_meta lit = false ->
  Pg.like (lit ++ ["%"%char]) s = is_prefix lit s.
Proof.
  revert s. induction lit as [| c lit IH]; intros s H.
  - apply like_percent_only.
  - simpl in H. apply orb_false_iff in H. destruct H as [Hc Hl].
    cbn [app]. rewrite (like_literal c _ s Hc).
    destruct s as [| x s]; [reflexivity |]. simpl. now rewrite IH.
Qed.

Lemma like_substring (lit s : list ascii) :
  existsb is_meta lit = false ->
  Pg.like ("%"%char :: lit ++ ["%"%char]) s = is_substring lit s.
Proof.
  intros H. induction s as [| x s IH].
  - rewrite like_percent, (like_prefix _ _ H). simpl. now rewrite orb_false_r.
  - rewrite like_percent, (like_prefix _ _ H), IH. reflexivity.
Qed.

Lemma lower_keeps_meta (c : ascii) : is_meta (lower_char c) = is_meta c.
Proof. each_char c; reflexivity. Qed.

Lemma star_plain (l : list ascii) :
  existsb is_meta l = false ->
  map (fun c => if is_char "*" c then "%"%char else c) l = l.
Proof.
  induction l as [| c l IH]; [reflexivity |]. cbn [existsb map].
  rewrite orb_false_iff. intros [Hc Hl]. unfold is_meta in Hc.
  rewrite !orb_false_iff in Hc. destruct Hc as [_ Hstar].
  rewrite Hstar. now rewrite IH.
Qed.

(** Where the text has no pattern character, the location filter is the
    substring test, letter case aside. *)
Lemma ilike_contains (text subject : string) :
  existsb is_meta (chars text) = false ->
  Pg.ilike ("%" ++ text ++ "%") subject = ci_contains subject text.
Proof.
  intros H. unfold Pg.ilike, ci_contains, Pg.star.
  rewrite !chars_append. change (chars "%") with ["%"%char].
  rewrite !map_app, (star_plain _ H).
  change (map (fun c => if is_char "*" c then "%"%char else c) ["%"%char])
    with ["%"%char].
  change (map lower_char ["%"%char]) with ["%"%char]. cbn [app].
  apply like_substring. revert H.
  induction (chars text) as [| c l IH]; [reflexivity |]. cbn [existsb map].
  rewrite lower_keeps_meta, !orb_false_iff. intros [Hc Hl].
  split; [exact Hc | now apply IH].
Qed.

(** C5 (the code departs from it).  [GET /problems?location=New_York]
    returns the problem located in "New York, US": the underscore of the
    parameter is read by [ilike] as "any one character", although
    "New_York" does not occur in "New York, US" in any letter case. *)
Theorem location_filter_reads_pattern (E : Pg.engine) :
  App.get_problems E Sample.underscore_request Sample.store0
  = App.json (JObj [("items", JArr [App.problem_item (Sample.problem2, [0%nat])])])
  /\ Pg.filters (App.problems_query Sample.underscore_request)
     = [Pg.Ilike "location" "%New_York%"]
  /\ ci_contains (Pg.problems_location Sample.problem2) "New_York" = false.
Proof. repeat split; reflexivity. Qed.

(* ===================================================================== *)
(** ** Further properties of the application *)
(* ===================================================================== *)

(** *** What no request changes *)

Section Frame.

Variable jwt_sign : jsval -> string -> string -> Z -> string.
Variable jwt_verify : string -> string -> Z -> option jsval.
Variable E : Pg.engine.
Variable JWT_SECRET : string.

Lemma post_match_tables (req : request) (t : tick) (d : Pg.db) :
  Pg.users (snd (App.post_problems_id_match E req t d)) = Pg.users d
  /\ Pg.problems (snd (App.post_problems_id_match E req t d)) = Pg.problems d.
Proof.
  unfold App.post_problems_id_match.
  destruct (negb (App.isUuid _)); [now split |].
  destruct (_ && _); [now split |].
  destruct (Pg.maybeSingle _) as [e | [p |]]; try (now split).
  destruct (Pg.upsert _ _ _ _ _ _) as [e | [d' rows]] eqn:Hup; [now split |].
  apply upsert_unchanged_tables in Hup.
  destruct (Pg.single _); exact Hup.
Qed.

Lemma delete_match_tables (req : request) (d : Pg.db) :
  Pg.users (snd (App.delete_problems_id_match E req d)) = Pg.users d
  /\ Pg.problems (snd (App.delete_problems_id_match E req d)) = Pg.problems d.
Proof.
  unfold App.delete_problems_id_match.
  destruct (negb (App.isUuid _)); [now split |].
  destruct (Pg.delete _ _ _ _); now split.
Qed.

Lemma serve_tables (r : App.route) (req : request) (t : tick) (d : Pg.db) :
  Pg.users (snd (App.serve jwt_sign jwt_verify E JWT_SECRET r req t d)) = Pg.users d
  /\ Pg.problems (snd (App.serve jwt_sign jwt_verify E JWT_SECRET r req t d))
     = Pg.problems d.
Proof.
  destruct r; simpl; try (now split).
  - destruct (requireAuth_cases jwt_verify JWT_SECRET req t (fun res => (res, d))
                (fun req => App.post_problems_id_match E req t d))
      as [[r Hr] | [sub Hr]]; rewrite Hr; [now split |].
    apply post_match_tables.
  - destruct (requireAuth_cases jwt_verify JWT_SECRET req t (fun res => (res, d))
                (fun req => App.delete_problems_id_match E req d))
      as [[r Hr] | [sub Hr]]; rewrite Hr; [now split |].
    apply delete_match_tables.
Qed.

(** X1.  No sequence of requests adds, removes or alters a user or a
    problem: the two tables are the same after as before. *)
Theorem users_and_problems_untouched
    (trace : list (App.route * request * tick)) (d : Pg.db) :
  Pg.users (App.run jwt_sign jwt_verify E JWT_SECRET trace d) = Pg.users d
  /\ Pg.problems (App.run jwt_sign jwt_verify E JWT_SECRET trace d) = Pg.problems d.
Proof.
  revert d. induction trace as [| [[r req] t] trace IH]; intros d; [now split |].
  simpl. destruct (IH (snd (App.serve jwt_sign jwt_verify E JWT_SECRET r req t d)))
    as [Hu Hp].
  destruct (serve_tables r req t d) as [Hu' Hp'].
  split; congruence.
Qed.

End Frame.

(** *** The foreign keys of [problem_matches] *)

Lemma fkeys_same_tables (d d' : Pg.db) :
  Pg.users d' = Pg.users d -> Pg.problems d' = Pg.problems d ->
  Pg.problem_matches d' = Pg.problem_matches d ->
  user_fkey d /\ problem_fkey d -> user_fkey d' /\ problem_fkey d'.
Proof.
  unfold user_fkey, problem_fkey, Pg.user_exists, Pg.problem_exists.
  intros -> -> ->. auto.
Qed.

Lemma upsert_fkeys (t : Z) (id u p role : string) (d d' : Pg.db)
    (rows : list Pg.match_row) :
  user_fkey d /\ problem_fkey d ->
  Pg.upsert t id u p role d = inr (d', rows) ->
  user_fkey d' /\ problem_fkey d'.
Proof.
  intros [Hu Hp]. unfold Pg.upsert.
  destruct (Pg.role_check role); simpl; [| discriminate].
  destruct (Pg.user_exists d (Pg.uuid_in u)) eqn:Heu; simpl; [| discriminate].
  destruct (Pg.problem_exists d (Pg.uuid_in p)) eqn:Hep; simpl; [| discriminate].
  unfold user_fkey, problem_fkey, Pg.user_exists, Pg.problem_exists in *.
  destruct (existsb _ (Pg.problem_matches d)); intros H; inversion H; subst; clear H;
    simpl.
  - split; apply Forall_map.
    + eapply Forall_impl; [| exact Hu]. intros m Hm. simpl.
      destruct (Pg.same_pair _ _ m); exact Hm.
    + eapply Forall_impl; [| exact Hp]. intros m Hm. simpl.
      destruct (Pg.same_pair _ _ m); exact Hm.
  - split; apply Forall_app; (split; [assumption |]);
      (constructor; [assumption | constructor]).
Qed.

Section ForeignKeys.

Variable jwt_sign : jsval -> string -> string -> Z -> string.
Variable jwt_verify : string -> string -> Z -> option jsval.
Variable E : Pg.engine.
Variable JWT_SECRET : string.

Lemma post_match_fkeys (req : request) (t : tick) (d : Pg.db) :
  user_fkey d /\ problem_fkey d ->
  user_fkey (snd (App.post_problems_id_match E req t d))
  /\ problem_fkey (snd (App.post_problems_id_match E req t d)).
Proof.
  intros H. unfold App.post_problems_id_match.
  destruct (negb (App.isUuid _)); [exact H |].
  destruct (_ && _); [exact H |].
  destruct (Pg.maybeSingle _) as [e | [p |]]; try exact H.
  destruct (Pg.upsert _ _ _ _ _ _) as [e | [d' rows]] eqn:Hup; [exact H |].
  apply (upsert_fkeys _ _ _ _ _ _ _ _ H) in Hup.
  destruct (Pg.single _); exact Hup.
Qed.

Lemma delete_match_fkeys (req : request) (d : Pg.db) :
  user_fkey d /\ problem_fkey d ->
  user_fkey (snd (App.delete_problems_id_match E req d))
  /\ problem_fkey (snd (App.delete_problems_id_match E req d)).
Proof.
  intros [Hu Hp]. unfold App.delete_problems_id_match.
  destruct (negb (App.isUuid _)); [now split |].
  unfold Pg.delete. destruct (forallb _ _); [| now split].
  unfold user_fkey, problem_fkey, Pg.user_exists, Pg.problem_exists in *. simpl.
  split; apply Forall_forall; intros m Hm; apply filter_In in Hm;
    [rewrite Forall_forall in Hu; now apply Hu
    | rewrite Forall_forall in Hp; now apply Hp].
Qed.

Lemma serve_fkeys (r : App.route) (req : request) (t : tick) (d : Pg.db) :
  user_fkey d /\ problem_fkey d ->
  user_fkey (snd (App.serve jwt_sign jwt_verify E JWT_SECRET r req t d))
  /\ problem_fkey (snd (App.serve jwt_sign jwt_verify E JWT_SECRET r req t d)).
Proof.
  intros H. destruct r; simpl; try exact H.
  - destruct (requireAuth_cases jwt_verify JWT_SECRET req t (fun res => (res, d))
                (fun req => App.post_problems_id_match E req t d))
      as [[r Hr] | [sub Hr]]; rewrite Hr; [exact H |].
    now apply post_match_fkeys.
  - destruct (requireAuth_cases jwt_verify JWT_SECRET req t (fun res => (res, d))
                (fun req => App.delete_problems_id_match E req d))
      as [[r Hr] | [sub Hr]]; rewrite Hr; [exact H |].
    now apply delete_match_fkeys.
Qed.

(** X2.  Starting from a store whose match rows all refer to an existing
    user and an existing problem, every sequence of requests leaves such a
    store: the application never writes a dangling reference. *)
Theorem foreign_keys_reachable
    (trace : list (App.route * request * tick)) (d0 : Pg.db) :
  user_fkey d0 -> problem_fkey d0 ->
  user_fkey (App.run jwt_sign jwt_verify E JWT_SECRET trace d0)
  /\ problem_fkey (App.run jwt_sign jwt_verify E JWT_SECRET trace d0).
Proof.
  intros Hu Hp. assert (H : user_fkey d0 /\ problem_fkey d0) by now split.
  clear Hu Hp. revert d0 H.
  induction trace as [| [[r req] t] trace IH]; intros d0 H; [exact H |].
  simpl. apply IH. now apply serve_fkeys.
Qed.

End ForeignKeys.

Lemma foreign_keys_reachable_witness :
  user_fkey (App.run ToyJwt.sign ToyJwt.verify Sample.engine ToyJwt.secret
               Sample.trace0 Sample.store7)
  /\ problem_fkey (App.run ToyJwt.sign ToyJwt.verify Sample.engine ToyJwt.secret
                     Sample.trace0 Sample.store7).
Proof.
  apply (foreign_keys_reachable ToyJwt.sign ToyJwt.verify Sample.engine
           ToyJwt.secret Sample.trace0 Sample.store7).
  - unfold user_fkey. simpl. repeat constructor.
  - unfold problem_fkey. simpl. repeat constructor.
Defined.

(** *** Requests without a valid token *)

Section Protected.

Variable jwt_sign : jsval -> string -> string -> Z -> string.
Variable jwt_verify : string -> string -> Z -> option jsval.
Variable E : Pg.engine.
Variable JWT_SECRET : string.

Lemma requireAuth_denies {X} (req : request) (t : tick)
    (res : response -> X) (next : request -> X) :
  (forall token claims,
     App.match_bearer (header_of req) = Some token ->
     jwt_verify token JWT_SECRET (now t) = Some claims ->
     App.isUuid (get "sub" claims) = false) ->
  exists r, status r = 401%nat
            /\ App.requireAuth jwt_verify JWT_SECRET req t res next = res r.
Proof.
  intros H. unfold App.requireAuth. fold (header_of req).
  destruct (App.match_bearer (header_of req)) as [token |] eqn:Hm;
    [| eexists; split; [| reflexivity]; reflexivity].
  destruct (jwt_verify token JWT_SECRET (now t)) as [claims |] eqn:Hv;
    [| eexists; split; [| reflexivity]; reflexivity].
  rewrite (H token claims eq_refl Hv). rewrite orb_true_r.
  eexists; split; [| reflexivity]; reflexivity.
Qed.

(** X3.  On each of the four routes behind [requireAuth], a request whose
    Authorization header carries no token that verifies with a uuid
    subject (no header, another scheme, a rejected token, a subject that
    is not a uuid) is answered 401 and changes nothing in the store. *)
Theorem protected_routes_need_token
    (r : App.route) (req : request) (t : tick) (d : Pg.db) :
  protected r = true ->
  (forall token claims,
     App.match_bearer (header_of req) = Some token ->
     jwt_verify token JWT_SECRET (now t) = Some claims ->
     App.isUuid (get "sub" claims) = false) ->
  status (fst (App.serve jwt_sign jwt_verify E JWT_SECRET r req t d)) = 401%nat
  /\ snd (App.serve jwt_sign jwt_verify E JWT_SECRET r req t d) = d.
Proof.
  intros Hr H. destruct r; try discriminate Hr; cbn [App.serve].
  - destruct (requireAuth_denies req t (fun res => res)
                (fun req => App.get_me E req d) H) as (x & Hs & ->). now split.
  - destruct (requireAuth_denies req t (fun res => (res, d))
                (fun req => App.post_problems_id_match E req t d) H)
      as (x & Hs & ->). now split.
  - destruct (requireAuth_denies req t (fun res => (res, d))
                (fun req => App.delete_problems_id_match E req d) H)
      as (x & Hs & ->). now split.
  - destruct (requireAuth_denies req t (fun res => res)
                (fun req => App.get_me_matches E req d) H) as (x & Hs & ->).
    now split.
Qed.

End Protected.

Lemma protected_routes_need_token_witness :
  status (fst (App.serve ToyJwt.sign ToyJwt.verify Sample.engine ToyJwt.secret
                 App.DELETE_problems_id_match (with_id Sample.P1 bare_request)
                 (Sample.at_ 100 "") Sample.store7)) = 401%nat
  /\ snd (App.serve ToyJwt.sign ToyJwt.verify Sample.engine ToyJwt.secret
            App.DELETE_problems_id_match (with_id Sample.P1 bare_request)
            (Sample.at_ 100 "") Sample.store7) = Sample.store7.
Proof.
  apply (protected_routes_need_token ToyJwt.sign ToyJwt.verify Sample.engine
           ToyJwt.secret App.DELETE_problems_id_match
           (with_id Sample.P1 bare_request) (Sample.at_ 100 "") Sample.store7).
  - reflexivity.
  - intros token claims Hm. discriminate Hm.
Defined.

(** *** [GET /me] *)

(** X4.  [GET /me], once the token is accepted, looks the user up again:
    it answers 404 when no user has the token's subject as id (a token
    outlives its user), and 200 with the user's record otherwise. *)
Theorem me_contract (E : Pg.engine) (req : request) (d : Pg.db) :
  (Pg.user_exists d (Pg.uuid_in (App.getUserId req)) = false ->
   App.get_me E req d
   = {| status := 404%nat; payload := JObj [("error", JStr "User not found")] |})
  /\ (users_pkey d ->
      Pg.user_exists d (Pg.uuid_in (App.getUserId req)) = true ->
      exists u,
        In u (Pg.users d)
        /\ Pg.users_id u = Pg.uuid_in (App.getUserId req)
        /\ App.get_me E req d
           = {| status := 200%nat;
                payload := JObj [("user", identity_record u)] |}).
Proof.
  split.
  - intros H. unfold App.get_me. now rewrite (select_user_absent E d _ H).
  - intros Hpk H.
    destruct (select_user_present E d _ Hpk H) as (u & Hsel & Hin & Heq).
    exists u. repeat split; try assumption.
    unfold App.get_me. now rewrite Hsel.
Qed.

Lemma me_contract_witness :
  exists u,
    In u (Pg.users Sample.store0)
    /\ Pg.users_id u = Pg.uuid_in Sample.U2
    /\ App.get_me Sample.engine (as_user Sample.U2 bare_request) Sample.store0
       = {| status := 200%nat; payload := JObj [("user", identity_record u)] |}.
Proof.
  apply (proj2 (me_contract Sample.engine (as_user Sample.U2 bare_request)
                  Sample.store0)).
  - exact sample_users_pkey.
  - reflexivity.
Defined.

(** *** Match by a user that is gone *)

(** X5.  [POST /problems/:id/match] with a valid problem and role, sent
    with the token of a user whose row no longer exists, is answered 500
    (the store refuses the row for its foreign key) and writes nothing. *)
Theorem match_by_missing_user (E : Pg.engine) (req : request) (t : tick) (d : Pg.db) :
  App.isUuid (JStr (params_id req)) = true ->
  get "role" (body req) = JStr "SOLVER" \/ get "role" (body req) = JStr "AFFECTED" ->
  problems_pkey d ->
  Pg.problem_exists d (Pg.uuid_in (params_id req)) = true ->
  Pg.user_exists d (Pg.uuid_in (App.getUserId req)) = false ->
  status (fst (App.post_problems_id_match E req t d)) = 500%nat
  /\ snd (App.post_problems_id_match E req t d) = d.
Proof.
  intros Hid Hrole Hpk Hp Hu.
  destruct (select_problem_present E d _ Hpk Hp) as (p & Hsel).
  unfold App.post_problems_id_match. rewrite Hid, Hsel.
  unfold Pg.upsert. rewrite Hu.
  destruct Hrole as [-> | ->]; split; reflexivity.
Qed.

Lemma match_by_missing_user_witness :
  status (fst (App.post_problems_id_match Sample.engine
                 (with_body (role_body "SOLVER")
                    (with_id Sample.P1 (as_user Sample.U9 bare_request)))
                 (Sample.at_ 100 "m") Sample.store0)) = 500%nat
  /\ snd (App.post_problems_id_match Sample.engine
            (with_body (role_body "SOLVER")
               (with_id Sample.P1 (as_user Sample.U9 bare_request)))
            (Sample.at_ 100 "m") Sample.store0) = Sample.store0.
Proof.
  apply (match_by_missing_user Sample.engine
           (with_body (role_body "SOLVER")
              (with_id Sample.P1 (as_user Sample.U9 bare_request)))
           (Sample.at_ 100 "m") Sample.store0).
  - reflexivity.
  - left. reflexivity.
  - exact sample_problems_pkey.
  - reflexivity.
  - reflexivity.
Defined.

(** *** [GET /users] *)


(** *** Match, then unmatch *)

Lemma filter_nil_existsb {A} (P : A -> bool) (l : list A) :
  filter P l = [] -> existsb P l = false.
Proof.
  induction l as [| x l IH]; simpl; [reflexivity |].
  destruct (P x); [discriminate | exact IH].
Qed.

(** X7.  When the pair has no row, matching and then unmatching gives the
    store back exactly as it was. *)
Theorem match_then_unmatch (E : Pg.engine) (req : request) (t : tick) (d : Pg.db) :
  App.isUuid (JStr (params_id req)) = true ->
  get "role" (body req) = JStr "SOLVER" \/ get "role" (body req) = JStr "AFFECTED" ->
  problems_pkey d ->
  Pg.user_exists d (Pg.uuid_in (App.getUserId req)) = true ->
  Pg.problem_exists d (Pg.uuid_in (params_id req)) = true ->
  matches_of_pair d (App.getUserId req) (params_id req) = [] ->
  status (fst (App.post_problems_id_match E req t d)) = 200%nat
  /\ snd (App.delete_problems_id_match E req
            (snd (App.post_problems_id_match E req t d))) = d.
Proof.
  intros Hid Hrole Hpk Hu Hp Hnone.
  destruct (select_problem_present E d _ Hpk Hp) as (p & Hsel).
  assert (Hex : existsb (Pg.same_pair (Pg.uuid_in (App.getUserId req))
                                      (Pg.uuid_in (params_id req)))
                        (Pg.problem_matches d) = false)
    by now apply filter_nil_existsb.
  assert (Hpost : exists role r,
             App.post_problems_id_match E req t d
             = (App.json (JObj [("ok", JBool true); ("match", App.match_json r)]),
                Pg.with_matches d (Pg.problem_matches d ++ [r]))
             /\ r = {| Pg.pm_id := gen_random_uuid t;
                       Pg.pm_user_id := Pg.uuid_in (App.getUserId req);
                       Pg.pm_problem_id := Pg.uuid_in (params_id req);
                       Pg.pm_role := role; Pg.pm_created_at := now t |}).
  { unfold App.post_problems_id_match. rewrite Hid, Hsel.
    unfold Pg.upsert. rewrite Hu, Hp, Hex.
    destruct Hrole as [-> | ->]; do 2 eexists; split; reflexivity. }
  destruct Hpost as (role & r & Hpost & Hr). rewrite Hpost. split; [reflexivity |].
  cbn [snd]. unfold App.delete_problems_id_match.
  rewrite Hid, delete_by_pair. cbn [negb snd Pg.with_matches Pg.problem_matches].
  rewrite filter_app. unfold matches_of_pair in Hnone.
  rewrite (filter_none _ _ Hnone). cbn [filter].
  assert (Hsame : Pg.same_pair (Pg.uuid_in (App.getUserId req))
                               (Pg.uuid_in (params_id req)) r = true)
    by (rewrite Hr; apply same_pair_eq; split; reflexivity).
  rewrite Hsame. cbn [negb]. rewrite app_nil_r. now destruct d.
Qed.

Lemma match_then_unmatch_witness :
  status (fst (App.post_problems_id_match Sample.engine
                 (with_body (role_body "SOLVER")
                    (with_id Sample.P2 (as_user Sample.U2 bare_request)))
                 (Sample.at_ 200 "m9") Sample.store0)) = 200%nat
  /\ snd (App.delete_problems_id_match Sample.engine
            (with_body (role_body "SOLVER")
               (with_id Sample.P2 (as_user Sample.U2 bare_request)))
            (snd (App.post_problems_id_match Sample.engine
                    (with_body (role_body "SOLVER")
                       (with_id Sample.P2 (as_user Sample.U2 bare_request)))
                    (Sample.at_ 200 "m9") Sample.store0))) = Sample.store0.
Proof.
  apply (match_then_unmatch Sample.engine
           (with_body (role_body "SOLVER")
              (with_id Sample.P2 (as_user Sample.U2 bare_request)))
           (Sample.at_ 200 "m9") Sample.store0).
  - reflexivity.
  - left. reflexivity.
  - exact sample_problems_pkey.
  - reflexivity.
  - reflexivity.
  - reflexivity.
Defined.

(** *** Match, then list *)



(** *** The spelling of a uuid *)

Lemma hex_i_upper (c : ascii) : hex_i (upper_char c) = hex_i c.
Proof. each_char c; reflexivity. Qed.

Lemma dash_upper (c : ascii) : dash (upper_char c) = dash c.
Proof. each_char c; reflexivity. Qed.

Lemma ver_1_5_upper (c : ascii) : ver_1_5 (upper_char c) = ver_1_5 c.
Proof. each_char c; reflexivity. Qed.

Lemma var_89ab_upper (c : ascii) : var_89ab (upper_char c) = var_89ab c.
Proof. each_char c; reflexivity. Qed.

Lemma match_classes_map (f : ascii -> ascii) (ps : list (ascii -> bool))
    (l : list ascii) :
  Forall (fun k => forall c, k (f c) = k c) ps ->
  match_classes ps (map f l) = match_classes ps l.
Proof.
  intros H. revert l. induction H as [| k ps Hk _ IH]; intros [| c l]; simpl;
    try reflexivity.
  now rewrite Hk, IH.
Qed.

Lemma isUuid_upper (s : string) :
  App.isUuid (JStr (toUpperCase s)) = App.isUuid (JStr s).
Proof.
  unfold App.isUuid, toUpperCase. rewrite chars_str.
  apply match_classes_map. unfold uuid_regex. cbn [repeat app].
  repeat (apply Forall_cons;
          [first [exact hex_i_upper | exact dash_upper | exact ver_1_5_upper
                  | exact var_89ab_upper] |]).
  apply Forall_nil.
Qed.

Lemma uuid_in_upper (s : string) : Pg.uuid_in (toUpperCase s) = Pg.uuid_in s.
Proof.
  unfold Pg.uuid_in, toLowerCase, toUpperCase. rewrite chars_str, map_map.
  f_equal. apply map_ext. apply lower_of_upper.
Qed.

Lemma upsert_spelling (t : Z) (id u p role : string) (d : Pg.db) :
  Pg.upsert t id (toUpperCase u) (toUpperCase p) role d = Pg.upsert t id u p role d.
Proof. unfold Pg.upsert. now rewrite !uuid_in_upper. Qed.

(** X9.  Letter case in a uuid is immaterial: the upper-case spelling of
    a uuid is accepted exactly when the uuid is, and match and unmatch
    answer and write the same whether the problem id of the URL or the
    user id of the token comes in upper case or not. *)
Theorem uuid_spelling (E : Pg.engine) (req : request) (t : tick) (d : Pg.db) :
  App.isUuid (JStr (toUpperCase (params_id req))) = App.isUuid (JStr (params_id req))
  /\ App.post_problems_id_match E
       (as_user (toUpperCase (App.getUserId req))
          (with_id (toUpperCase (params_id req)) req)) t d
     = App.post_problems_id_match E req t d
  /\ App.delete_problems_id_match E
       (as_user (toUpperCase (App.getUserId req))
          (with_id (toUpperCase (params_id req)) req)) d
     = App.delete_problems_id_match E req d.
Proof.
  split; [apply isUuid_upper |]. split.
  - unfold App.post_problems_id_match.
    cbn [params_id body as_user with_id App.getUserId userId].
    rewrite isUuid_upper, !select_problem_by_id, uuid_in_upper, upsert_spelling.
    reflexivity.
  - unfold App.delete_problems_id_match.
    cbn [params_id body as_user with_id App.getUserId userId].
    rewrite isUuid_upper, !delete_by_pair, !uuid_in_upper. reflexivity.
Qed.

(** *** [GET /problems] on plain text *)

Lemma pattern_ok_plain (l : list ascii) :
  existsb is_meta l = false -> Pg.pattern_ok (l ++ ["%"%char]) = true.
Proof.
  induction l as [| c l IH]; [reflexivity |]. cbn [existsb app].
  rewrite orb_false_iff. intros [Hc Hl]. unfold is_meta in Hc.
  rewrite !orb_false_iff in Hc. destruct Hc as [[[_ _] Hb] _].
  cbn [Pg.pattern_ok]. rewrite Hb. now apply IH.
Qed.

Lemma wrapped_pattern_ok (text : string) :
  existsb is_meta (chars text) = false ->
  Pg.pattern_ok (Pg.star ("%" ++ text ++ "%")) = true.
Proof.
  intros H. unfold Pg.star. rewrite !chars_append. change (chars "%") with ["%"%char].
  rewrite !map_app, (star_plain _ H).
  change (map (fun c => if is_char "*" c then "%"%char else c) ["%"%char])
    with ["%"%char].
  cbn [app Pg.pattern_ok is_char Ascii.eqb]. now apply pattern_ok_plain.
Qed.

Section Problems.

Variable E : Pg.engine.

Lemma select_problems (fs : list Pg.filter) (rows : list Pg.problem_row) :
  forallb (Pg.filter_ok Pg.problems_table E) fs = true ->
  Pg.select Pg.problems_table E
    {| Pg.filters := fs; Pg.order := Some ("created_at", false);
       Pg.limit := Some (of_Z 200) |} rows
  = inr (firstn 200 (problems_by_recency E
                       (filter (Pg.holds_all Pg.problems_table E fs) rows))).
Proof.
  intros H. unfold Pg.select. cbn [Pg.filters Pg.order Pg.limit]. rewrite H.
  cbn -[Pg.limit_rows Pg.sort_by filter].
  match goal with
  | |- context [Pg.sort_by ?f ?l] =>
      change (Pg.sort_by f l) with (problems_by_recency E l)
  end.
  now rewrite (limit_rows_count E _ 200%nat _ (as_count_of_nat 200)).
Qed.

Lemma problems_query_plain (req : request) (rows : list Pg.problem_row) :
  search_text req = "" ->
  existsb is_meta (chars (location_text req)) = false ->
  Pg.select Pg.problems_table E (App.problems_query req) rows
  = inr (firstn 200
           (problems_by_recency E
              (filter (problem_passes (category_text req) (country_text req)
                                      (location_text req)) rows))).
Proof.
  intros Hs Hl. unfold App.problems_query.
  fold (search_text req) (category_text req) (location_text req) (country_text req).
  rewrite Hs. change (App.nonempty "") with false. cbv iota.
  pose proof (wrapped_pattern_ok _ Hl) as Hok.
  pose proof (ilike_contains (location_text req)) as Hlike.
  specialize (fun subject => Hlike subject Hl).
  unfold problem_passes, App.nonempty.
  destruct (String.eqb (category_text req) ""),
           (String.eqb (country_text req) ""),
           (String.eqb (location_text req) "");
    cbn [negb];
    unfold Pg.eq_, Pg.ilike_, Pg.where_, Pg.limit_to, Pg.order_by, Pg.from;
    cbn [Pg.filters Pg.order Pg.limit app];
    (rewrite select_problems;
     [ do 3 f_equal; apply filter_ext; intros p; unfold Pg.holds_all;
       cbn [forallb Pg.holds Pg.cell Pg.problems_table String.eqb Ascii.eqb
            Bool.eqb negb orb andb Pg.opt_text];
       rewrite ?Hlike;
       destruct (Pg.problems_country_code p); cbn [Pg.opt_text];
       repeat match goal with
              | |- context [String.eqb ?a ?b] => destruct (String.eqb a b)
              end;
       repeat match goal with
              | |- context [ci_contains ?a ?b] => destruct (ci_contains a b)
              end;
       reflexivity
     | cbn [forallb Pg.filter_ok Pg.columns Pg.problems_table assoc String.eqb
            Ascii.eqb Bool.eqb andb];
       rewrite ?Hok; reflexivity ]).
Qed.

End Problems.

Lemma problem_item_entry (d : Pg.db) (p : Pg.problem_row) :
  App.problem_item (with_count d p) = problem_entry d p.
Proof. reflexivity. Qed.

(** X10.  When no search text is given, the category, country and
    location parameters are ASCII text and the location text holds none
    of the pattern characters, [GET /problems] answers 200 with the (at
    most 200) most recent problems whose category equals the trimmed
    category text,
    whose country code equals the trimmed, upper-cased country text and
    whose location contains the trimmed location text, letter case aside
    (a filter applying only when its text is not empty), most recent
    first, each as its record with [collaboratorCount], the number of
    match rows of the problem. *)
Theorem problems_listing (E : Pg.engine) (req : request) (d : Pg.db) :
  search_text req = "" ->
  ascii_param (query req "category") = true ->
  ascii_param (query req "country_code") = true ->
  ascii_param (query req "location") = true ->
  existsb is_meta (chars (location_text req)) = false ->
  exists rows rest,
    App.get_problems E req d
    = {| status := 200%nat;
         payload := JObj [("items", JArr (map (problem_entry d) rows))] |}
    /\ length rows
       = Nat.min 200 (length (filter (problem_passes (category_text req)
                                        (country_text req) (location_text req))
                                     (Pg.problems d)))
    /\ Permutation (rows ++ rest)
                   (filter (problem_passes (category_text req) (country_text req)
                                           (location_text req))
                           (Pg.problems d))
    /\ StronglySorted
         (fun a b => (Pg.problems_created_at b <= Pg.problems_created_at a)%Z)
         (rows ++ rest).
Proof.
  intros Hs _ _ _ Hl.
  set (passing := filter (problem_passes (category_text req) (country_text req)
                                         (location_text req)) (Pg.problems d)).
  set (all := problems_by_recency E passing).
  assert (Hperm : Permutation all passing) by apply newest_perm.
  exists (firstn 200 all), (skipn 200 all).
  split.
  { unfold App.get_problems. rewrite (problems_query_plain E req _ Hs Hl).
    fold passing. fold all. unfold App.json.
    fold (with_count d). rewrite map_map.
    now rewrite (map_ext _ _ (problem_item_entry d)). }
  split; [rewrite length_firstn; now rewrite (Permutation_length Hperm) |].
  rewrite firstn_skipn. split; [exact Hperm |].
  apply newest_sorted.
Qed.

Lemma problems_listing_witness :
  exists rows rest,
    App.get_problems Sample.engine
      (with_query (one_query "location" (QStr " paris ")) bare_request) Sample.store7
    = {| status := 200%nat;
         payload := JObj [("items", JArr (map (problem_entry Sample.store7) rows))] |}
    /\ length rows
       = Nat.min 200 (length (filter (problem_passes "" "" "paris")
                                     (Pg.problems Sample.store7)))
    /\ Permutation (rows ++ rest)
                   (filter (problem_passes "" "" "paris") (Pg.problems Sample.store7))
    /\ StronglySorted
         (fun a b => (Pg.problems_created_at b <= Pg.problems_created_at a)%Z)
         (rows ++ rest).
Proof.
  apply (problems_listing Sample.engine
           (with_query (one_query "location" (QStr " paris ")) bare_request)
           Sample.store7); reflexivity.
Defined.

(** *** A decimal [limit] for [GET /me/matches] *)

Lemma digit_facts (c : ascii) :
  is_digit c = true ->
  is_space c = false
  /\ is_char "-" c = false /\ is_char "+" c = false
  /\ Ascii.eqb c "I" = false
  /\ is_char "x" (lower_char c) = false
  /\ is_char "o" (lower_char c) = false
  /\ is_char "b" (lower_char c) = false.
Proof. each_char c; intros H; try discriminate H; repeat split. Qed.

Lemma drop_while_digit (l : list ascii) :
  l <> [] -> forallb is_digit l = true -> drop_while is_space l = l.
Proof.
  destruct l as [| c l]; [congruence |]. intros _ H. cbn [forallb] in H.
  apply andb_true_iff in H. destruct H as [Hc _].
  cbn [drop_while]. now rewrite (proj1 (digit_facts c Hc)).
Qed.

Lemma forallb_rev {A} (p : A -> bool) (l : list A) :
  forallb p (rev l) = forallb p l.
Proof.
  induction l as [| x l IH]; [reflexivity |]. cbn [rev forallb].
  rewrite forallb_app, IH. cbn [forallb]. rewrite andb_true_r. apply andb_comm.
Qed.

Lemma trim_digits (l : list ascii) :
  l <> [] -> forallb is_digit l = true -> trim (str l) = str l.
Proof.
  intros Hne Hd. unfold trim. rewrite chars_str, (drop_while_digit l Hne Hd).
  rewrite (drop_while_digit (rev l)).
  - now rewrite rev_involutive.
  - intros H. apply Hne. rewrite <- (rev_involutive l), H. reflexivity.
  - now rewrite forallb_rev.
Qed.

Lemma span_all (p : ascii -> bool) (l : list ascii) :
  forallb p l = true -> span p l = (l, []).
Proof.
  induction l as [| c l IH]; [reflexivity |]. cbn [forallb span].
  intros H. apply andb_true_iff in H. destruct H as [Hc Hl].
  now rewrite Hc, (IH Hl).
Qed.

(** Rounding to a double leaves an integer below [2 ^ 53] as it is. *)

Lemma round_exact (a d : Z) : (0 < d)%Z -> round_half_even (a * d) d = a.
Proof.
  intros Hd. unfold round_half_even. rewrite Z_mod_mult, Z_div_mult by lia.
  cbn. destruct d; try lia. reflexivity.
Qed.

Lemma round_scale (n d c : Z) :
  (0 < d)%Z -> (0 < c)%Z -> round_half_even (n * c) (d * c) = round_half_even n d.
Proof.
  intros Hd Hc. unfold round_half_even.
  rewrite Z.div_mul_cancel_r by lia.
  rewrite Z.mul_mod_distr_r by lia.
  replace (2 * (n mod d * c))%Z with ((2 * (n mod d)) * c)%Z by ring.
  assert (H1 : ((2 * (n mod d)) * c <? d * c)%Z = (2 * (n mod d) <? d)%Z).
  { apply eq_true_iff_eq. rewrite !Z.ltb_lt. nia. }
  assert (H2 : (d * c <? (2 * (n mod d)) * c)%Z = (d <? 2 * (n mod d))%Z).
  { apply eq_true_iff_eq. rewrite !Z.ltb_lt. nia. }
  now rewrite H1, H2.
Qed.

Lemma nearest_Qeq (q r : Q) : q == r -> nearest q = nearest r.
Proof.
  unfold Qeq, nearest. intros H.
  rewrite <- (round_scale (Qnum q) (Zpos (Qden q)) (Zpos (Qden r))) by lia.
  rewrite <- (round_scale (Qnum r) (Zpos (Qden r)) (Zpos (Qden q))) by lia.
  rewrite H. f_equal. apply Z.mul_comm.
Qed.

Lemma nearest_inject (a : Z) : nearest (inject_Z a) = a.
Proof.
  unfold nearest. cbn [inject_Z Qnum Qden].
  rewrite <- (Z.mul_1_r a) at 1. apply round_exact. lia.
Qed.

Lemma two_pow_Z (k : Z) : (0 <= k)%Z -> (2 ^ k)%Q == inject_Z (2 ^ k).
Proof. intros H. symmetry. apply (Qpower.Zpower_Qpower 2 k H). Qed.

Lemma two_pow_inverse (k : Z) : (0 <= k)%Z -> inject_Z (2 ^ k) * (2 ^ (- k))%Q == 1.
Proof.
  intros H. rewrite <- (two_pow_Z k H), <- Qpower.Qpower_plus by discriminate.
  now rewrite Z.add_opp_diag_r.
Qed.

Lemma two_pow_nonzero (k : Z) : ~ (2 ^ k)%Q == 0.
Proof. apply Qpower.Qpower_not_0. discriminate. Qed.

Lemma to_double_int (q : Q) (v : Z) :
  Qnum q = v -> Qden q = 1%positive -> (0 <= v < 2 ^ 53)%Z ->
  to_double q = of_Z v.
Proof.
  destruct q as [n d]. cbn [Qnum Qden]. intros -> -> Hv.
  change (v # 1) with (inject_Z v). unfold to_double, of_Z.
  destruct (Qeq_bool (inject_Z v) 0) eqn:H0.
  { apply Qeq_bool_iff in H0. unfold Qeq in H0. cbn in H0.
    replace v with 0%Z by lia. reflexivity. }
  assert (Hpos : (0 < v)%Z).
  { destruct (Z.eq_dec v 0) as [-> | Hne]; [discriminate H0 | lia]. }
  pose proof (Z.log2_nonneg v) as HL0.
  assert (HL : (Z.log2 v < 53)%Z) by (apply Z.log2_lt_pow2; lia).
  assert (Hb : binade (inject_Z v) = Z.log2 v).
  { unfold binade. cbn [inject_Z Qnum Qden].
    rewrite (Z.abs_eq v) by lia. change (Z.log2 1) with 0%Z. rewrite Z.sub_0_r.
    assert (H : Qle_bool (2 ^ Z.log2 v) (v # 1) = true).
    { apply Qle_bool_iff. rewrite (two_pow_Z _ HL0).
      change (v # 1) with (inject_Z v). rewrite <- Zle_Qle.
      apply Z.log2_spec. exact Hpos. }
    now rewrite H. }
  rewrite Hb, Z.max_l by lia.
  set (k := (52 - Z.log2 v)%Z).
  replace (Z.log2 v - 52)%Z with (- k)%Z by (unfold k; lia).
  assert (Hk : (0 <= k)%Z) by (unfold k; lia).
  pose proof (two_pow_inverse k Hk) as Hinv.
  pose proof (two_pow_nonzero (- k)) as Hnz.
  assert (Hq : inject_Z v / 2 ^ (- k) == inject_Z (v * 2 ^ k)).
  { rewrite inject_Z_mult. rewrite <- (Qmult_1_r (inject_Z v)) at 1.
    rewrite <- Hinv. field. exact Hnz. }
  rewrite (nearest_Qeq _ _ Hq), nearest_inject.
  assert (Hval : inject_Z (v * 2 ^ k) * 2 ^ (- k) == inject_Z v).
  { rewrite inject_Z_mult, <- Qmult_assoc, Hinv. apply Qmult_1_r. }
  assert (Hbig : (2 ^ 1024)%Q == inject_Z (2 ^ 1024)) by (apply two_pow_Z; lia).
  assert (Hlt : (v < 2 ^ 1024)%Z).
  { apply Z.lt_trans with (2 ^ 53)%Z; [lia |]. apply Z.pow_lt_mono_r; lia. }
  destruct (Qle_bool (2 ^ 1024) (inject_Z (v * 2 ^ k) * 2 ^ (- k))) eqn:H1.
  { apply Qle_bool_iff in H1. rewrite Hval, Hbig, <- Zle_Qle in H1. lia. }
  destruct (Qle_bool (inject_Z (v * 2 ^ k) * 2 ^ (- k)) (- 2 ^ 1024)) eqn:H2.
  { apply Qle_bool_iff in H2. rewrite Hval, Hbig, <- inject_Z_opp, <- Zle_Qle in H2.
    lia. }
  f_equal. rewrite (Qred_complete _ _ Hval).
  apply Qcanon.Qred_identity. cbn [inject_Z Qnum Qden]. apply Z.gcd_1_r.
Qed.

Lemma StringToNumber_digits (l : list ascii) :
  l <> [] -> forallb is_digit l = true ->
  (0 <= radix_value 10 l < 2 ^ 53)%Z ->
  StringToNumber (str l) = of_Z (radix_value 10 l).
Proof.
  intros Hne Hd Hv. unfold StringToNumber. rewrite (trim_digits l Hne Hd), chars_str.
  destruct l as [| c l]; [congruence |].
  pose proof Hd as Hd'. cbn [forallb] in Hd'. apply andb_true_iff in Hd'.
  destruct Hd' as [Hc Hl].
  destruct (digit_facts c Hc) as (_ & Hm & Hp & HI & _).
  assert (Hnd : non_decimal (c :: l) = None).
  { destruct l as [| x [| y l]]; try reflexivity.
    cbn [forallb] in Hl. apply andb_true_iff in Hl. destruct Hl as [Hx _].
    destruct (digit_facts x Hx) as (_ & _ & _ & _ & H1 & H2 & H3).
    unfold non_decimal. rewrite H1, H2, H3. now destruct (is_char "0" c). }
  rewrite Hnd. unfold str_decimal. rewrite Hm, Hp. unfold unsigned_decimal.
  assert (HInf : String.eqb (str (c :: l)) "Infinity" = false).
  { cbn [str string_of_list_ascii String.eqb]. now rewrite HI. }
  rewrite HInf, (span_all _ _ Hd). cbn [exponent_part length Z.of_nat].
  apply to_double_int; [| reflexivity | exact Hv].
  change (pow10 (0 - 0)) with (inject_Z 1).
  change (radix_value 10 []) with 0%Z.
  cbn [Qnum Qmult inject_Z]. change (10 ^ 0)%Z with 1%Z. lia.
Qed.

Lemma uint_digits (u : Decimal.uint) :
  forallb is_digit (chars (DecimalString.NilEmpty.string_of_uint u)) = true.
Proof. induction u; cbn; auto. Qed.

Lemma uint_value (u : Decimal.uint) (acc : nat) :
  fold_left read_digit (chars (DecimalString.NilEmpty.string_of_uint u))
            (Z.of_nat acc)
  = Z.of_nat (Nat.of_uint_acc u acc).
Proof.
  revert acc.
  induction u as [| u IH | u IH | u IH | u IH | u IH | u IH | u IH | u IH | u IH | u IH];
    intros acc; [reflexivity | ..];
    cbn [DecimalString.NilEmpty.string_of_uint chars list_ascii_of_string fold_left
         Nat.of_uint_acc];
    rewrite <- IH; f_equal; rewrite Nat.tail_mul_spec; unfold read_digit;
    [ change (digit_value "0") with 0%Z | change (digit_value "1") with 1%Z
    | change (digit_value "2") with 2%Z | change (digit_value "3") with 3%Z
    | change (digit_value "4") with 4%Z | change (digit_value "5") with 5%Z
    | change (digit_value "6") with 6%Z | change (digit_value "7") with 7%Z
    | change (digit_value "8") with 8%Z | change (digit_value "9") with 9%Z ];
    lia.
Qed.

Lemma Number_uint (u : Decimal.uint) :
  (Z.of_nat (Nat.of_uint u) < 2 ^ 53)%Z ->
  StringToNumber (DecimalString.NilZero.string_of_uint u)
  = of_Z (Z.of_nat (Nat.of_uint u)).
Proof.
  intros Hlt.
  assert (H : exists l, DecimalString.NilZero.string_of_uint u = str l
                        /\ l <> [] /\ forallb is_digit l = true
                        /\ radix_value 10 l = Z.of_nat (Nat.of_uint u)).
  { destruct u eqn:Hu;
      [ exists ["0"%char]; repeat split; discriminate
      | rewrite <- Hu;
        exists (chars (DecimalString.NilEmpty.string_of_uint u));
        (split; [rewrite str_chars; subst u; reflexivity |]);
        (split; [subst u; discriminate |]);
        (split; [apply uint_digits |]);
        apply (uint_value u 0) .. ]. }
  destruct H as (l & Hs & Hne & Hd & Hv).
  rewrite Hs, (StringToNumber_digits l Hne Hd), Hv; [reflexivity |].
  rewrite Hv. lia.
Qed.

Lemma Number_decimal (n : nat) :
  (Z.of_nat n < 2 ^ 53)%Z -> Number (QStr (decimal n)) = of_Z (Z.of_nat n).
Proof.
  intros H. unfold Number, decimal. cbn [qToString].
  rewrite Number_uint; rewrite DecimalNat.Unsigned.of_to; [reflexivity | exact H].
Qed.

Lemma Math_min_nat (n m : nat) :
  Math_min (of_Z (Z.of_nat n)) (of_Z (Z.of_nat m)) = of_Z (Z.of_nat (Nat.min n m)).
Proof.
  unfold Math_min, of_Z.
  destruct (Qle_bool (inject_Z (Z.of_nat n)) (inject_Z (Z.of_nat m))) eqn:H.
  - apply Qle_bool_iff in H. rewrite <- Zle_Qle in H.
    do 3 f_equal. lia.
  - assert (Hn : ~ (Z.of_nat n <= Z.of_nat m)%Z).
    { intros Hle. rewrite Zle_Qle in Hle. apply Qle_bool_iff in Hle. congruence. }
    do 3 f_equal. lia.
Qed.

(** X11.  A [limit] written as the decimal numeral of a positive natural
    number [n] below [2 ^ 53] is read as [n]: [GET /me/matches] takes the
    smaller of [n] and 500 as its limit, selects that many of the
    caller's most recent match rows (all of them if there are fewer),
    most recent first, and answers 200 with one item per row selected,
    made of the role and time of the row and of the full record of its
    problem, leaving out only the rows whose problem does not resolve. *)
Theorem decimal_limit (E : Pg.engine) (req : request) (d : Pg.db) (n : nat) :
  (0 < n)%nat ->
  (Z.of_nat n < 2 ^ 53)%Z ->
  query req "limit" = Some (QStr (decimal n)) ->
  App.matches_limit req = of_Z (Z.of_nat (Nat.min n 500))
  /\ exists rows rest kept,
       App.get_me_matches E req d
       = {| status := 200%nat;
            payload := JObj [("items", JArr (map my_match_entry kept))] |}
       /\ length rows
          = Nat.min (Nat.min n 500)
                    (length (matches_of_user d (App.getUserId req)))
       /\ Permutation (rows ++ rest) (matches_of_user d (App.getUserId req))
       /\ newest_first (rows ++ rest)
       /\ map fst kept
          = filter (fun m => Pg.problem_exists d (Pg.pm_problem_id m)) rows
       /\ Forall (refers_to_problem d) kept.
Proof.
  intros _ Hn Hq.
  assert (Hlim : App.matches_limit req = of_Z (Z.of_nat (Nat.min n 500))).
  { rewrite (matches_limit_given req _ Hq), (Number_decimal n Hn).
    apply (Math_min_nat n 500). }
  split; [exact Hlim |].
  assert (Hc : Pg.as_count (App.matches_limit req) = Some (Nat.min n 500))
    by (rewrite Hlim; apply as_count_of_nat).
  destruct (get_me_matches_listing E req d _ Hc)
    as (rows & rest & kept & H1 & H2 & H3 & H4 & H5 & H6 & _).
  exists rows, rest, kept. auto 10.
Qed.

Lemma decimal_limit_witness :
  App.matches_limit
    (with_query (one_query "limit" (QStr "3")) (as_user Sample.U1 bare_request))
  = of_Z 3
  /\ exists rows rest kept,
       App.get_me_matches Sample.engine
         (with_query (one_query "limit" (QStr "3")) (as_user Sample.U1 bare_request))
         Sample.store7
       = {| status := 200%nat;
            payload := JObj [("items", JArr (map my_match_entry kept))] |}
       /\ length rows
          = Nat.min 3 (length (matches_of_user Sample.store7 Sample.U1))
       /\ Permutation (rows ++ rest) (matches_of_user Sample.store7 Sample.U1)
       /\ newest_first (rows ++ rest)
       /\ map fst kept
          = filter (fun m => Pg.problem_exists Sample.store7 (Pg.pm_problem_id m)) rows
       /\ Forall (refers_to_problem Sample.store7) kept.
Proof.
  apply (decimal_limit Sample.engine
           (with_query (one_query "limit" (QStr "3")) (as_user Sample.U1 bare_request))
           Sample.store7 3); [lia | reflexivity | reflexivity].
Defined.

(** *** The [Authorization] header, in words *)

Lemma span_spec (p : ascii -> bool) (l a b : list ascii) :
  span p l = (a, b) -> l = a ++ b /\ forallb p a = true.
Proof.
  revert a b. induction l as [| c l IH]; intros a b H; cbn [span] in H.
  - injection H as <- <-. now split.
  - destruct (p c) eqn:Hc.
    + destruct (span p l) as [x y]. injection H as <- <-.
      destruct (IH x y eq_refl) as [-> Hx]. split; [reflexivity |].
      cbn [forallb]. now rewrite Hc.
    + injection H as <- <-. now split.
Qed.

Lemma span_app (p : ascii -> bool) (a b : list ascii) :
  forallb p a = true ->
  span p (a ++ b) = (a ++ fst (span p b), snd (span p b)).
Proof.
  induction a as [| c a IH]; cbn [forallb app].
  - intros _. now destruct (span p b).
  - intros H. apply andb_true_iff in H. destruct H as [Hc Ha].
    cbn [span]. now rewrite Hc, (IH Ha).
Qed.

Lemma scheme_length (scheme : list ascii) :
  ci_eqb (str scheme) "Bearer" = true -> length scheme = 6%nat.
Proof.
  unfold ci_eqb. intros H. apply String.eqb_eq in H. unfold toLowerCase in H.
  rewrite chars_str in H. apply (f_equal chars) in H. rewrite chars_str in H.
  rewrite <- (length_map lower_char), H. reflexivity.
Qed.

(** The match on a few headers; the no-break space (code 160) is white
    space for the regular expression, as it is for [trim]. *)
Lemma match_bearer_examples :
  App.match_bearer "Bearer abc.def" = Some "abc.def"
  /\ App.match_bearer "bEaReR   abc" = Some "abc"
  /\ App.match_bearer ("Bearer" ++ String (ascii_of_nat 160) "abc") = Some "abc"
  /\ App.match_bearer "Bearer a b" = Some "a b"
  /\ App.match_bearer "Bearer  " = Some " "
  /\ App.match_bearer "Bearer " = None
  /\ App.match_bearer "Bearerabc" = None
  /\ App.match_bearer " Bearer abc" = None
  /\ App.match_bearer "Basic abc" = None
  /\ App.match_bearer "" = None
  /\ trim (String (ascii_of_nat 160) " paris " ++ String (ascii_of_nat 160) "")
     = "paris".
Proof. vm_compute. repeat split; reflexivity. Qed.

(** X12.  [requireAuth] reads a token from an [Authorization] header
    exactly when the header is the word [Bearer] in any letter case, then
    at least one white-space character, then at least one more character,
    with no line terminator after the white space.  The token is what is
    left at the end of the header once the word and the white space are
    taken away: it is never empty and holds no line terminator. *)
Theorem bearer_header (header : string) :
  (forall token,
      App.match_bearer header = Some token ->
      exists scheme ws,
        header = str (scheme ++ ws ++ chars token)
        /\ ci_eqb (str scheme) "Bearer" = true
        /\ ws <> [] /\ forallb is_space ws = true
        /\ token <> ""
        /\ existsb is_line_terminator (chars token) = false)
  /\ (forall scheme ws rest,
         header = str (scheme ++ ws ++ rest) ->
         ci_eqb (str scheme) "Bearer" = true ->
         ws <> [] -> forallb is_space ws = true ->
         rest <> [] -> existsb is_line_terminator rest = false ->
         exists token more,
           App.match_bearer header = Some token
           /\ rest = more ++ chars token
           /\ forallb is_space more = true).
Proof.
  split.
  - intros token. unfold App.match_bearer.
    destruct (ci_eqb (str (firstn 6 (chars header))) "Bearer") eqn:Hci;
      [| discriminate].
    destruct (span is_space (skipn 6 (chars header))) as [ws rest] eqn:Hsp.
    destruct (span_spec _ _ _ _ Hsp) as [Hl Hws].
    assert (Hh : header = str (firstn 6 (chars header) ++ ws ++ rest))
      by now rewrite <- Hl, firstn_skipn, str_chars.
    destruct ws as [| w ws]; [discriminate |].
    destruct rest as [| r rest].
    + destruct (rev (w :: ws)) as [| c [| c' tl]] eqn:Hrev; try discriminate.
      destruct (is_line_terminator c) eqn:Hc; [discriminate |].
      intros H. injection H as <-.
      assert (Hw : w :: ws = (rev tl ++ [c']) ++ [c]).
      { rewrite <- (rev_involutive (w :: ws)), Hrev. reflexivity. }
      rewrite Hw in Hh, Hws. rewrite forallb_app in Hws.
      apply andb_true_iff in Hws. destruct Hws as [Hws _].
      exists (firstn 6 (chars header)), (rev tl ++ [c']).
      rewrite app_nil_r in Hh.
      split; [exact Hh |]. split; [exact Hci |].
      split; [now destruct (rev tl) |]. split; [exact Hws |].
      split; [discriminate |].
      cbn [existsb chars list_ascii_of_string str string_of_list_ascii].
      now rewrite Hc.
    + destruct (existsb is_line_terminator (r :: rest)) eqn:Hlt; [discriminate |].
      remember (str (r :: rest)) as tk eqn:Htk.
      intros H. injection H as <-.
      assert (Hch : chars tk = r :: rest) by (rewrite Htk; apply chars_str).
      exists (firstn 6 (chars header)), (w :: ws). rewrite Hch.
      split; [exact Hh |]. split; [exact Hci |].
      split; [discriminate |]. split; [exact Hws |].
      split; [rewrite Htk; discriminate | exact Hlt].
  - intros scheme ws rest Hh Hci Hne Hws Hrest Hlt.
    pose proof (scheme_length scheme Hci) as Hlen.
    unfold App.match_bearer. rewrite Hh, chars_str.
    rewrite <- Hlen, firstn_app, skipn_app, Nat.sub_diag, firstn_all, skipn_all.
    cbn [firstn skipn app]. rewrite app_nil_r.
    rewrite Hci, (span_app _ _ _ Hws).
    destruct (span is_space rest) as [x y] eqn:Hsp. cbn [fst snd].
    destruct (span_spec _ _ _ _ Hsp) as [Hr Hx].
    destruct ws as [| w ws]; [congruence |]. cbn [app].
    destruct y as [| r y].
    + rewrite app_nil_r in Hr. subst x.
      destruct (exists_last Hrest) as (x' & a & Ha).
      rewrite Ha in Hx, Hlt |- *.
      rewrite forallb_app in Hx. apply andb_true_iff in Hx. destruct Hx as [Hx _].
      rewrite existsb_app in Hlt. apply orb_false_iff in Hlt.
      destruct Hlt as [_ Hlt]. cbn [existsb] in Hlt. rewrite orb_false_r in Hlt.
      replace (rev (w :: ws ++ x' ++ [a])) with (a :: rev (ws ++ x') ++ [w])
        by (cbn [rev]; rewrite (app_assoc ws x' [a]), (rev_app_distr (ws ++ x') [a]);
            reflexivity).
      exists (str [a]), x'. rewrite chars_str.
      destruct (rev (ws ++ x')); cbn [app]; rewrite Hlt; now repeat split.
    + rewrite Hr, existsb_app in Hlt. apply orb_false_iff in Hlt.
      destruct Hlt as [_ Hlt]. rewrite Hlt.
      exists (str (r :: y)), x. rewrite chars_str. now repeat split.
Qed.

(** ** Further properties of the seed script *)

(** *** [xorshift32] *)

Lemma word_bits_high (x i : Z) :
  (0 <= x < Seed.word)%Z -> (32 <= i)%Z -> Z.testbit x i = false.
Proof.
  intros Hx Hi. rewrite <- (Z.mod_small x Seed.word Hx).
  unfold Seed.word. apply Z.mod_pow2_bits_high. lia.
Qed.

Lemma word_of_bits (z : Z) :
  (0 <= z)%Z -> (forall i, (32 <= i)%Z -> Z.testbit z i = false) ->
  (0 <= z < Seed.word)%Z.
Proof.
  intros Hz Hhigh.
  assert (H : (z mod Seed.word)%Z = z).
  { apply Z.bits_inj'. intros i Hi. unfold Seed.word.
    destruct (Z_lt_le_dec i 32) as [Hlt | Hge].
    - now apply Z.mod_pow2_bits_low.
    - rewrite (Hhigh i Hge). apply Z.mod_pow2_bits_high. lia. }
  rewrite <- H. apply Z.mod_pos_bound. reflexivity.
Qed.

Lemma xorb_cancel_r (a b c : bool) : xorb a c = xorb b c -> a = b.
Proof. destruct a, b, c; simpl; congruence. Qed.

Lemma shl_step_inj (k x y : Z) :
  (0 < k)%Z -> (0 <= x < Seed.word)%Z -> (0 <= y < Seed.word)%Z ->
  (Z.lxor x (Z.shiftl x k) mod Seed.word)%Z
  = (Z.lxor y (Z.shiftl y k) mod Seed.word)%Z ->
  x = y.
Proof.
  intros Hk Hx Hy H. apply Z.bits_inj'.
  assert (Hall : forall n i, (0 <= i < Z.of_nat n)%Z ->
                             Z.testbit x i = Z.testbit y i).
  { induction n as [| n IH]; intros i Hi; [lia |].
    destruct (Z_lt_le_dec i 32) as [Hlt | Hge].
    - apply (f_equal (fun z => Z.testbit z i)) in H. unfold Seed.word in H.
      rewrite !Z.mod_pow2_bits_low, !Z.lxor_spec, !Z.shiftl_spec in H by lia.
      destruct (Z_lt_le_dec (i - k) 0) as [Hneg | Hpos].
      + rewrite !(Z.testbit_neg_r _ (i - k)) in H by lia.
        now apply xorb_cancel_r in H.
      + rewrite (IH (i - k)%Z) in H by lia. now apply xorb_cancel_r in H.
    - now rewrite (word_bits_high x i Hx Hge), (word_bits_high y i Hy Hge). }
  intros i Hi. apply (Hall (Z.to_nat (i + 1)) i). lia.
Qed.

Lemma shr_step_inj (k x y : Z) :
  (0 < k)%Z -> (0 <= x < Seed.word)%Z -> (0 <= y < Seed.word)%Z ->
  Z.lxor x (Z.shiftr x k) = Z.lxor y (Z.shiftr y k) ->
  x = y.
Proof.
  intros Hk Hx Hy H. apply Z.bits_inj'.
  assert (Hall : forall n i, (0 <= i)%Z -> (32 - i <= Z.of_nat n)%Z ->
                             Z.testbit x i = Z.testbit y i).
  { induction n as [| n IH]; intros i Hi Hn.
    - now rewrite (word_bits_high x i Hx), (word_bits_high y i Hy) by lia.
    - apply (f_equal (fun z => Z.testbit z i)) in H.
      rewrite !Z.lxor_spec, !Z.shiftr_spec in H by lia.
      rewrite (IH (i + k)%Z) in H by lia. now apply xorb_cancel_r in H. }
  intros i Hi. apply (Hall (Z.to_nat 32) i Hi). lia.
Qed.

Lemma shr_step_word (k x : Z) :
  (0 < k)%Z -> (0 <= x < Seed.word)%Z ->
  (0 <= Z.lxor x (Z.shiftr x k) < Seed.word)%Z.
Proof.
  intros Hk Hx. apply word_of_bits.
  - apply Z.lxor_nonneg. split; intros _; [apply Z.shiftr_nonneg |]; lia.
  - intros i Hi. rewrite Z.lxor_spec, Z.shiftr_spec by lia.
    now rewrite (word_bits_high x i Hx Hi), (word_bits_high x (i + k)%Z Hx) by lia.
Qed.

Lemma next_word (x : Z) : (0 <= Seed.next x < Seed.word)%Z.
Proof. unfold Seed.next. apply Z.mod_pos_bound. reflexivity. Qed.

Lemma next_inj (x y : Z) :
  (0 <= x < Seed.word)%Z -> (0 <= y < Seed.word)%Z ->
  Seed.next x = Seed.next y -> x = y.
Proof.
  intros Hx Hy H. unfold Seed.next in H. cbv zeta in H.
  assert (Hx1 : (0 <= Z.lxor x (Z.shiftl x 13) mod Seed.word < Seed.word)%Z)
    by (apply Z.mod_pos_bound; reflexivity).
  assert (Hy1 : (0 <= Z.lxor y (Z.shiftl y 13) mod Seed.word < Seed.word)%Z)
    by (apply Z.mod_pos_bound; reflexivity).
  apply shl_step_inj in H;
    [| lia | apply shr_step_word; [lia | exact Hx1]
     | apply shr_step_word; [lia | exact Hy1]].
  apply shr_step_inj in H; [| lia | exact Hx1 | exact Hy1].
  apply shl_step_inj in H; [exact H | lia | exact Hx | exact Hy].
Qed.

Lemma state_word (n : nat) (seed : Z) : (0 <= Seed.state_after n seed < Seed.word)%Z.
Proof.
  destruct n as [| n]; cbn [Seed.state_after]; [| apply next_word].
  unfold Seed.to_word. apply Z.mod_pos_bound. reflexivity.
Qed.

Lemma state_inj (n : nat) (seed seed' : Z) :
  Seed.state_after n seed = Seed.state_after n seed' <->
  Seed.to_word seed = Seed.to_word seed'.
Proof.
  induction n as [| n IH]; cbn [Seed.state_after]; [reflexivity |].
  rewrite <- IH. split; [| intros H; now rewrite H].
  apply next_inj; apply state_word.
Qed.

Lemma state_zero (n : nat) : Seed.state_after n 0 = 0%Z.
Proof. induction n as [| n IH]; cbn [Seed.state_after]; [| rewrite IH]; reflexivity. Qed.

(** X13.  The state of [xorshift32] stays a 32-bit word, and a call maps
    distinct states to distinct states: after any number of calls two
    generators agree exactly when their seeds agree as 32-bit integers.
    In particular the state is zero (and the value returned is [0])
    exactly when the seed is zero as a 32-bit integer: a generator seeded
    with zero returns [0] for ever, any other never does. *)
Theorem xorshift_states (n : nat) (seed seed' : Z) :
  (0 <= Seed.state_after n seed < Seed.word)%Z
  /\ (Seed.state_after n seed = Seed.state_after n seed'
      <-> Seed.to_word seed = Seed.to_word seed')
  /\ (Seed.state_after n seed = 0%Z <-> Seed.to_word seed = 0%Z).
Proof.
  split; [apply state_word |]. split; [apply state_inj |].
  rewrite <- (state_zero n) at 1. rewrite state_inj. reflexivity.
Qed.

(** *** [shuffle] *)

Lemma set_index_length {A} (a : list (option A)) (i : nat) (v : option A) :
  (i < length a)%nat -> length (Seed.set_index a i v) = length a.
Proof.
  revert i. induction a as [| x a IH]; intros [| i] H; cbn [length] in *;
    try lia; cbn [Seed.set_index length]; [reflexivity |].
  rewrite IH; lia.
Qed.

Lemma set_index_nth {A} (a : list (option A)) (i : nat) (v : option A) :
  (i < length a)%nat -> nth i (Seed.set_index a i v) None = v.
Proof.
  revert i. induction a as [| x a IH]; intros [| i] H; cbn [length] in *;
    try lia; cbn [Seed.set_index nth]; [reflexivity |].
  apply IH. lia.
Qed.

Lemma set_index_other {A} (a : list (option A)) (i j : nat) (v : option A) :
  (i < length a)%nat -> i <> j ->
  nth j (Seed.set_index a i v) None = nth j a None.
Proof.
  revert i j. induction a as [| x a IH]; intros [| i] [| j] H Hij;
    cbn [length] in *; try lia; cbn [Seed.set_index nth]; try reflexivity.
  apply IH; lia.
Qed.

Lemma set_index_perm {A} (a : list (option A)) (i : nat) (v : option A) :
  (i < length a)%nat ->
  Permutation (nth i a None :: Seed.set_index a i v) (v :: a).
Proof.
  revert i. induction a as [| x a IH]; intros [| i] H; cbn [length] in *;
    try lia; cbn [Seed.set_index nth].
  - apply perm_swap.
  - rewrite perm_swap. rewrite (IH i) by lia. apply perm_swap.
Qed.

Lemma swap_perm {A} (i j : nat) (a : list (option A)) :
  (i < length a)%nat -> (j < length a)%nat ->
  Permutation (Seed.swap i j a) a /\ length (Seed.swap i j a) = length a.
Proof.
  intros Hi Hj. unfold Seed.swap, Seed.at_index.
  set (ai := nth i a None). set (aj := nth j a None).
  assert (Hlen : length (Seed.set_index a i aj) = length a)
    by now apply set_index_length.
  split; [| rewrite set_index_length; [exact Hlen | now rewrite Hlen]].
  assert (Hnth : nth j (Seed.set_index a i aj) None = aj).
  { destruct (Nat.eq_dec i j) as [<- | Hne].
    - now apply set_index_nth.
    - now apply set_index_other. }
  apply (Permutation_cons_inv (a := aj)).
  rewrite <- Hnth at 1.
  rewrite (set_index_perm (Seed.set_index a i aj) j ai) by now rewrite Hlen.
  apply (set_index_perm a i aj Hi).
Qed.

Lemma shuffle_from_perm {A} (j_at : nat -> nat) (i : nat) (a : list (option A)) :
  (forall k, (j_at k <= k)%nat) ->
  (i < length a)%nat ->
  Permutation (Seed.shuffle_from j_at i a) a.
Proof.
  intros Hj. revert a. induction i as [| i IH]; intros a Hi; [reflexivity |].
  cbn [Seed.shuffle_from].
  destruct (swap_perm (S i) (j_at (S i)) a) as [Hp Hl];
    [exact Hi | specialize (Hj (S i)); lia |].
  rewrite IH by (rewrite Hl; lia). exact Hp.
Qed.

(** X14.  When every index drawn at a step [i] lies between [0] and [i]
    (what [Math.floor(rnd() * (i + 1))] yields for [rnd()] in [[0, 1)]),
    [shuffle] returns a rearrangement of its argument: every element is
    kept, as many times as it occurs, and no slot is left empty. *)
Theorem shuffle_permutes {A} (j_at : nat -> nat) (arr : list A) :
  (forall i, (j_at i <= i)%nat) ->
  exists l, Seed.shuffle j_at arr = map Some l /\ Permutation arr l.
Proof.
  intros Hj. apply Permutation_map_inv. unfold Seed.shuffle.
  destruct arr as [| x arr]; [reflexivity |].
  apply shuffle_from_perm; [exact Hj |].
  rewrite length_map. cbn [length]. lia.
Qed.

Lemma shuffle_permutes_witness :
  exists l, Seed.shuffle (fun i => Nat.div2 i) [1%nat; 2%nat; 3%nat; 4%nat]
            = map Some l
            /\ Permutation [1%nat; 2%nat; 3%nat; 4%nat] l.
Proof.
  apply (shuffle_permutes (fun i => Nat.div2 i) [1%nat; 2%nat; 3%nat; 4%nat]).
  intros i. apply Nat.div2_decr. lia.
Defined.

(** *** [insertMatches] *)

Section SeedRows.

Variable chosen_for : nat -> list Seed.ProblemInserted.
Variable solver_at : nat -> bool.

Local Abbreviation link := (Seed.link solver_at).

(** What the loop keeps true of [used] and [rows]. *)
Local Abbreviation kept acc :=
  ((forall s, In s (fst acc) <-> In s (map row_key (snd acc)))
   /\ NoDup (map row_key (snd acc))
   /\ Forall (fun r => Seed.row_role r = "SOLVER" \/ Seed.row_role r = "AFFECTED")
             (snd acc)).

Lemma has_In (used : list string) (k : string) :
  Seed.has used k = true <-> In k used.
Proof.
  unfold Seed.has. rewrite existsb_exists. split.
  - intros (s & Hs & He). apply String.eqb_eq in He. now subst.
  - intros H. exists k. split; [exact H | apply String.eqb_refl].
Qed.

Lemma link_kept (u : Seed.UserInserted) (p : Seed.ProblemInserted)
    (acc : list string * list Seed.match_values) :
  kept acc ->
  kept (link u acc p)
  /\ In (Seed.key u p) (fst (link u acc p))
  /\ (forall s, In s (fst acc) -> In s (fst (link u acc p))).
Proof.
  destruct acc as [used rows]. cbn [fst snd]. intros (Hin & Hnd & Hroles).
  unfold Seed.link.
  destruct (Seed.has used (Seed.key u p)) eqn:Hhas.
  - cbn [fst snd].
    split; [split; [exact Hin | split; assumption] |].
    split; [now apply has_In | auto].
  - assert (Hnot : ~ In (Seed.key u p) used).
    { intros H. apply has_In in H. congruence. }
    cbn [fst snd]. rewrite map_app. cbn [map].
    change (row_key _) with (Seed.key u p).
    split; [split; [| split] | split].
    + intros s. rewrite in_app_iff. cbn [In]. rewrite <- Hin. tauto.
    + apply (Permutation_NoDup (l := Seed.key u p :: map row_key rows)).
      * apply Permutation_cons_append.
      * constructor; [now rewrite <- Hin | exact Hnd].
    + apply Forall_app. split; [exact Hroles |].
      constructor; [| constructor]. cbn [Seed.row_role].
      destruct (solver_at (length rows)); [now left | now right].
    + now left.
    + intros s H. now right.
Qed.

Lemma fold_link_kept (u : Seed.UserInserted) (ps : list Seed.ProblemInserted)
    (acc : list string * list Seed.match_values) :
  kept acc ->
  kept (fold_left (link u) ps acc)
  /\ (forall p, In p ps -> In (Seed.key u p) (fst (fold_left (link u) ps acc)))
  /\ (forall s, In s (fst acc) -> In s (fst (fold_left (link u) ps acc))).
Proof.
  revert acc. induction ps as [| p ps IH]; intros acc Hk; cbn [fold_left].
  - split; [exact Hk |]. split; [intros p [] | auto].
  - destruct (link_kept u p acc Hk) as (Hk1 & Hp & Hmono).
    destruct (IH _ Hk1) as (Hk2 & Hps & Hmono2).
    split; [exact Hk2 |]. split.
    + intros q [<- | Hq]; [apply Hmono2, Hp | now apply Hps].
    + intros s Hs. apply Hmono2, Hmono, Hs.
Qed.

Lemma link_users_kept (users : list Seed.UserInserted) (k : nat)
    (acc : list string * list Seed.match_values) :
  kept acc ->
  kept (Seed.link_users chosen_for solver_at k users acc)
  /\ (forall i u p, nth_error users i = Some u -> In p (chosen_for (k + i)) ->
                    In (Seed.key u p)
                       (fst (Seed.link_users chosen_for solver_at k users acc)))
  /\ (forall s, In s (fst acc) ->
                In s (fst (Seed.link_users chosen_for solver_at k users acc))).
Proof.
  revert k acc. induction users as [| u users IH]; intros k acc Hk;
    cbn [Seed.link_users].
  - split; [exact Hk |]. split; [intros [| i] u p H; discriminate H | auto].
  - destruct (fold_link_kept u (chosen_for k) acc Hk) as (Hk1 & Hps & Hmono).
    destruct (IH (S k) _ Hk1) as (Hk2 & Hrest & Hmono2).
    split; [exact Hk2 |]. split.
    + intros [| i] v p Hv Hp; cbn [nth_error] in Hv.
      * injection Hv as <-. rewrite Nat.add_0_r in Hp. apply Hmono2, Hps, Hp.
      * apply (Hrest i v p Hv).
        replace (S k + i)%nat with (k + S i)%nat by lia. exact Hp.
    + intros s Hs. apply Hmono2, Hmono, Hs.
Qed.

End SeedRows.

(** X15.  The rows [insertMatches] builds never hold the same
    (user, problem) pair twice, whatever problems are drawn for a user
    and however often, so that they respect the unique constraint of
    [problem_matches]; every role is [SOLVER] or [AFFECTED]; and for every
    user and every problem drawn for that user there is a row under the
    text [<user id>:<problem id>]. *)
Theorem seeded_rows (chosen_for : nat -> list Seed.ProblemInserted)
    (solver_at : nat -> bool) (users : list Seed.UserInserted) :
  NoDup (map (fun r => (Seed.row_user_id r, Seed.row_problem_id r))
             (Seed.match_rows chosen_for solver_at users))
  /\ Forall (fun r => Seed.row_role r = "SOLVER" \/ Seed.row_role r = "AFFECTED")
            (Seed.match_rows chosen_for solver_at users)
  /\ (forall i u p,
         nth_error users i = Some u -> In p (chosen_for i) ->
         exists r, In r (Seed.match_rows chosen_for solver_at users)
                   /\ row_key r = Seed.key u p).
Proof.
  unfold Seed.match_rows.
  destruct (link_users_kept chosen_for solver_at users 0 ([], []))
    as ((Hin & Hnd & Hroles) & Hall & _).
  { cbn [fst snd map]. split; [tauto |]. split; constructor. }
  split; [| split; [exact Hroles |]].
  - apply (NoDup_map_inv (fun ab : string * string => (fst ab ++ ":" ++ snd ab)%string)).
    now rewrite map_map.
  - intros i u p Hu Hp. specialize (Hall i u p Hu Hp).
    apply Hin, in_map_iff in Hall. destruct Hall as (r & Hr & Hrin).
    now exists r.
Qed.

(** *** The batches of [insertMatches] *)

Lemma batches_from_concat {A} (rows : list A) (fuel i : nat) :
  (length rows - i <= fuel)%nat ->
  concat (Seed.batches_from fuel i rows) = skipn i rows
  /\ Forall (fun b => (0 < length b <= Seed.batchSize)%nat)
            (Seed.batches_from fuel i rows).
Proof.
  revert i. induction fuel as [| fuel IH]; intros i H; cbn [Seed.batches_from].
  - split; [| constructor]. cbn [concat]. symmetry. apply skipn_all2. lia.
  - destruct (i <? length rows)%nat eqn:Hlt.
    + apply Nat.ltb_lt in Hlt.
      destruct (IH (i + Seed.batchSize)%nat) as [Hc Hf];
        [unfold Seed.batchSize; lia |].
      unfold Seed.slice.
      replace (i + Seed.batchSize - i)%nat with Seed.batchSize by lia.
      split.
      * cbn [concat]. rewrite Hc, Nat.add_comm, <- skipn_skipn.
        apply firstn_skipn.
      * constructor; [| exact Hf].
        rewrite length_firstn, length_skipn. unfold Seed.batchSize. lia.
    + apply Nat.ltb_ge in Hlt. split; [| constructor].
      cbn [concat]. symmetry. now apply skipn_all2.
Qed.

(** X16.  The batches [insertMatches] hands to the store are the rows it
    built, in order and each once: put end to end they give the rows
    back, none is empty and none has more than 500 rows. *)
Theorem batches_partition {A} (rows : list A) :
  concat (Seed.batches rows) = rows
  /\ Forall (fun b => (0 < length b <= Seed.batchSize)%nat) (Seed.batches rows).
Proof.
  unfold Seed.batches.
  destruct (batches_from_concat rows (length rows) 0) as [Hc Hf]; [lia |].
  now split.
Qed.
